(** * Contagion model with trace-constrained interventions

    A shallow embedding of [contagionModel01.py]: the single-activation
    scheduler, the agent transition rule, the per-tick protocol of the
    model, the intervention functor, the [run] entry point and the
    experiment driver [main].

    Conventions of the embedding.
    - Python objects that are shared and mutated in place (the agents) live
      in one store, the list [agents] of the model in registration order; a
      reference to an agent is its index in that store.
    - The module-level generator of Python's [random] is threaded through
      every stochastic call as an explicit generator state.
    - A Python exception aborts the whole run (the program has no handler),
      so a computation is a function from the generator state to either a
      value with the next generator state, or the exception raised.
    - Output written by [print] and [to_csv] is not part of the model. *)

From Stdlib Require Import ZArith QArith Lia.
From stdpp Require Import base list gmap strings pretty.

Local Open Scope Z_scope.
Local Open Scope nat_scope.

(** ** Exceptions and the computation monad *)

Inductive exn : Type :=
| IndexError
| KeyError.

Inductive result (A : Type) : Type :=
| Ok (a : A)
| Raise (e : exn).

Arguments Ok {A} a.
Arguments Raise {A} e.

(** The interface of Python's [random] module that the program uses. *)
Class RandomGen (G : Type) : Type := {
  (** [random.seed(a)]: the generator state is a function of [a] alone. *)
  rng_seed : Z -> G;
  (** [random.random()]. *)
  rng_random : G -> Q * G;
  (** The index drawn by [random.choice] on a sequence of length [n]. *)
  rng_randbelow : nat -> G -> nat * G
}.

Definition M (G A : Type) : Type := G -> result (A * G).

Definition ret {G A} (a : A) : M G A := fun g => Ok (a, g).

Definition bind {G A B} (c : M G A) (k : A -> M G B) : M G B :=
  fun g => match c g with
           | Ok (a, g') => k a g'
           | Raise e => Raise e
           end.

Notation "'do' x <- c ; k" := (bind c (fun x => k))
  (at level 10, x pattern, c at level 100, k at level 200).

(** [a < b] on floats, as a boolean. *)
Definition Qltb (a b : Q) : bool := negb (Qle_bool b a).

(** ** Data model *)

Inductive State : Type := HEALTHY | INFECTED.
Inductive Event : Type := INFECT | RECOVER | NOTHING.

#[global] Instance State_eq_dec : EqDecision State.
Proof. solve_decision. Defined.
#[global] Instance Event_eq_dec : EqDecision Event.
Proof. solve_decision. Defined.

(** The value the program stores in [cause] when there is no cause. *)
Definition NO_CAUSE : Z := (-100)%Z.

Record DiseaseAgent : Type := mkAgent {
  unique_id : nat;
  pos : nat;
  state : State;
  event : Event;
  cause : Z
}.

#[global] Instance DiseaseAgent_inhabited : Inhabited DiseaseAgent :=
  populate (mkAgent 0 0 HEALTHY NOTHING NO_CAUSE).

(** One row of the agent-variables data frame: the index [(Step, AgentID)]
    and the three reported columns. *)
Record Row : Type := mkRow {
  Step : Z;
  AgentID : nat;
  rState : State;
  rEvent : Event;
  rCause : Z
}.

(** The data frame returned by [get_agent_vars_dataframe], row by row. *)
Abbreviation DataFrame := (list Row) (only parsing).

Record Intervention : Type := mkIntervention {
  trace : DataFrame
}.

Record DiseaseModel : Type := mkModel {
  num_agents : nat;
  initInfected : list Z;
  percInfect : Q;
  percRecover : Q;
  intervention : option Intervention;
  (** [schedule.steps], [schedule.time] and [schedule.agents] *)
  steps : nat;
  time : nat;
  agents : list DiseaseAgent;
  (** the records held by [datacollector] *)
  datacollector : DataFrame
}.

Definition set_agents (m : DiseaseModel) (ags : list DiseaseAgent) : DiseaseModel :=
  mkModel (num_agents m) (initInfected m) (percInfect m) (percRecover m)
          (intervention m) (steps m) (time m) ags (datacollector m).

Definition set_datacollector (m : DiseaseModel) (df : DataFrame) : DiseaseModel :=
  mkModel (num_agents m) (initInfected m) (percInfect m) (percRecover m)
          (intervention m) (steps m) (time m) (agents m) df.

(** ** Data frame access *)

(** The first row whose index is [key]; the traces produced by [run] have
    one row per index. *)
Definition df_loc (df : DataFrame) (key : Z * nat) : option Row :=
  find (fun r => bool_decide (Step r = key.1 /\ AgentID r = key.2)) df.

(** [df['Event'][key]], [None] standing for pandas' [KeyError]. *)
Definition df_Event (df : DataFrame) (key : Z * nat) : option Event :=
  rEvent <$> df_loc df key.

(** [df['State'][key]]. *)
Definition df_State (df : DataFrame) (key : Z * nat) : option State :=
  rState <$> df_loc df key.

(** ** Agents *)

(** The field updates of [DiseaseAgent.infect] and [DiseaseAgent.recover]
    on one agent. *)
Definition infect_agent (sender_id : Z) (a : DiseaseAgent) : DiseaseAgent :=
  mkAgent (unique_id a) (pos a) INFECTED INFECT sender_id.

Definition recover_agent (a : DiseaseAgent) : DiseaseAgent :=
  mkAgent (unique_id a) (pos a) HEALTHY RECOVER NO_CAUSE.

(** The default value of [sender_id] in [def infect(self, sender_id=-1)]. *)
Definition DEFAULT_SENDER : Z := (-1)%Z.

(** [self.infect(sender_id)] and [self.recover()] on the agent referenced by
    [self] in the store of [m]. *)
Definition DiseaseAgent_infect (self : nat) (sender_id : Z) (m : DiseaseModel)
  : DiseaseModel :=
  set_agents m (alter (infect_agent sender_id) self (agents m)).

Definition DiseaseAgent_recover (self : nat) (m : DiseaseModel) : DiseaseModel :=
  set_agents m (alter recover_agent self (agents m)).

(** ** Topology: [NetworkGrid(nx.complete_graph(N))] *)

(** [grid.get_neighbors(pos, include_center=False)]: the nodes adjacent to
    [pos] in the complete graph on [num_agents] nodes. *)
Definition get_neighbors (m : DiseaseModel) (p : nat) : list nat :=
  filter (fun j => j <> p) (seq 0 (num_agents m)).

(** The agents placed on one node, as references. *)
Definition cell_contents (m : DiseaseModel) (node : nat) : list nat :=
  filter (fun r => pos (agents m !!! r) = node) (seq 0 (length (agents m))).

(** [grid.get_cell_list_contents(nodes)]. *)
Definition get_cell_list_contents (m : DiseaseModel) (nodes : list nat) : list nat :=
  concat (map (cell_contents m) nodes).

(** ** [get_agent_by_id] *)

(** [[a for a in agents if a.unique_id == idx][0]], as a reference. *)
Definition get_agent_by_id (ags : list DiseaseAgent) (idx : nat) : result nat :=
  match list_find (fun a => unique_id a = idx) ags with
  | Some (r, _) => Ok r
  | None => Raise IndexError
  end.

(** ** [Intervention.apply] *)

Fixpoint Intervention_apply_loop (self : Intervention) (tick : Z)
    (ids : list nat) (model : DiseaseModel) : result DiseaseModel :=
  match ids with
  | [] => Ok model
  | idx :: rest =>
      match get_agent_by_id (agents model) idx with
      | Raise e => Raise e
      | Ok a =>
          if bool_decide (event (agents model !!! a) = INFECT) then
            match df_Event (trace self) (tick, idx) with
            | None => Raise KeyError
            | Some e =>
                if bool_decide (e <> INFECT)
                then Intervention_apply_loop self tick rest (DiseaseAgent_recover a model)
                else Intervention_apply_loop self tick rest model
            end
          else Intervention_apply_loop self tick rest model
      end
  end.

Definition Intervention_apply (self : Intervention) (model : DiseaseModel)
  : result DiseaseModel :=
  let tick := (Z.of_nat (steps model) - 1)%Z in
  Intervention_apply_loop self tick (map unique_id (agents model)) model.

(** ** [DataCollector.collect] *)

(** Modelled from the spec: the entry trace capture writes for one agent,
    [(tick, id) -> {state, event, cause}], with the reporters
    [{"State":"state","Event":"event","Cause":"cause"}] of the program. *)
Definition agent_record (tick : Z) (a : DiseaseAgent) : Row :=
  mkRow tick (unique_id a) (state a) (event a) (cause a).

(** Modelled from the spec: mesa's [DataCollector] is not part of the
    sources.  Section 4.4 of the specification has trace capture write one
    entry for every agent, keyed by the tick just completed; ticks count
    from 0, so the key is [model.schedule.steps - 1] once the scheduler has
    stepped, the coordinate [Intervention.apply] reads and the one [main]
    selects with [step == numTicks-1]. *)
Definition DataCollector_collect (m : DiseaseModel) : DiseaseModel :=
  set_datacollector m
    (datacollector m ++
     map (agent_record (Z.of_nat (steps m) - 1)%Z) (agents m)).

(** ** [DiseaseModel.__init__] and [reset_events] *)

Definition new_agent (i : nat) (node : nat) : DiseaseAgent :=
  mkAgent i node HEALTHY NOTHING NO_CAUSE.

Definition DiseaseModel_init (N : nat) (initInfected : list Z)
    (percInfect percRecover : Q) (intervention : option Intervention)
  : DiseaseModel :=
  (* for i,node in enumerate(self.G.nodes): the i-th node of the complete
     graph is the node i *)
  let created := map (fun i => new_agent i i) (seq 0 N) in
  (* for a in filter(lambda a: a.unique_id in initInfected, ...): a.infect() *)
  let seeded :=
    map (fun a => if bool_decide (Z.of_nat (unique_id a) ∈ initInfected)
                  then infect_agent DEFAULT_SENDER a else a) created in
  mkModel N initInfected percInfect percRecover intervention 0 0 seeded [].

Definition reset_agent (a : DiseaseAgent) : DiseaseAgent :=
  mkAgent (unique_id a) (pos a) (state a) NOTHING NO_CAUSE.

Definition DiseaseModel_reset_events (m : DiseaseModel) : DiseaseModel :=
  set_agents m (map reset_agent (agents m)).

Section Simulation.
Context {G : Type} `{RandomGen G}.

(** *** The [random] module *)

Definition seed (a : Z) : M G unit := fun _ => Ok (tt, rng_seed a).

Definition random : M G Q := fun g => Ok (rng_random g).

(** [random.choice(seq)]: [IndexError] on an empty sequence. *)
Definition choice {A : Type} (sq : list A) : M G A := fun g =>
  match sq with
  | [] => Raise IndexError
  | _ :: _ =>
      let '(i, g') := rng_randbelow (length sq) g in
      match sq !! i with
      | Some x => Ok (x, g')
      | None => Raise IndexError
      end
  end.

Definition lift {A : Type} (r : result A) : M G A := fun g =>
  match r with
  | Ok a => Ok (a, g)
  | Raise e => Raise e
  end.

(** *** [DiseaseAgent.step] *)

Definition DiseaseAgent_step (self : nat) (m : DiseaseModel) : M G DiseaseModel :=
  do rand_inf <- random;
  do rand_rec <- random;
  let neighbour_nodes := get_neighbors m (pos (agents m !!! self)) in
  let neighbour_agents := get_cell_list_contents m neighbour_nodes in
  do neighbour <- choice neighbour_agents;
  (* infect a neighbour? *)
  let m1 :=
    if bool_decide (state (agents m !!! self) = INFECTED)
       && Qltb rand_inf (percInfect m)
    then
      if negb (bool_decide (state (agents m !!! neighbour) = INFECTED))
      then DiseaseAgent_infect neighbour
             (Z.of_nat (unique_id (agents m !!! self))) m
      else m
    else m in
  (* recover? *)
  let m2 :=
    if bool_decide (state (agents m1 !!! self) = INFECTED)
       && Qltb rand_rec (percRecover m1)
    then DiseaseAgent_recover self m1
    else m1 in
  ret m2.

(** *** [RandomSingleActivation.step] *)

Definition RandomSingleActivation_step (m : DiseaseModel) : M G DiseaseModel :=
  do a <- choice (seq 0 (length (agents m)));
  do m1 <- DiseaseAgent_step a m;
  ret (mkModel (num_agents m1) (initInfected m1) (percInfect m1)
               (percRecover m1) (intervention m1)
               (steps m1 + 1) (time m1 + 1) (agents m1) (datacollector m1)).

(** *** [DiseaseModel.step] *)

Definition DiseaseModel_step (m : DiseaseModel) : M G DiseaseModel :=
  let m0 := DiseaseModel_reset_events m in
  (* update model *)
  do m1 <- RandomSingleActivation_step m0;
  (* perform intervention if necessary *)
  do m2 <- match intervention m1 with
           | Some iv => lift (Intervention_apply iv m1)
           | None => ret m1
           end;
  (* perform data collection *)
  ret (DataCollector_collect m2).

(** *** [run] *)

Fixpoint run_loop (numTicks : nat) (model : DiseaseModel) : M G DiseaseModel :=
  match numTicks with
  | 0 => ret model
  | S n => do model' <- DiseaseModel_step model; run_loop n model'
  end.

Definition run (numAgents : nat) (initInfected : list Z)
    (percInfect percRecover : Q) (numTicks : nat) (name : string)
    (intervention : option Intervention) : M G DataFrame :=
  do _ <- seed 1;
  let model := DiseaseModel_init numAgents initInfected percInfect
                                 percRecover intervention in
  do model' <- run_loop numTicks model;
  (* res = model.datacollector.get_agent_vars_dataframe() *)
  ret (datacollector model').

End Simulation.

(** ** The experiment driver [main] *)

(** [[idx for (step,idx) in tr['State'].keys()
          if step == numTicks-1 and tr['State'][(step,idx)] == State.INFECTED]] *)
Definition infected_in_final (tr : DataFrame) (numTicks : nat) : list nat :=
  map AgentID
      (filter (fun r => Step r = (Z.of_nat numTicks - 1)%Z
                        /\ df_State tr (Step r, AgentID r) = Some INFECTED) tr).

(** [list(set(orig) - set(other))]; the order of the resulting list is not
    specified by Python, so the value is kept as a set. *)
Definition causal_diff (orig other : list nat) : gset nat :=
  list_to_set orig ∖ list_to_set other.

Section Harness.
Context {G : Type} `{RandomGen G}.

(** A [for] loop whose body updates the loop-carried variables [s]. *)
Fixpoint for_each {S A : Type} (l : list A) (body : S -> A -> M G S) (s : S)
  : M G S :=
  match l with
  | [] => ret s
  | a :: l' => do s' <- body s a; for_each l' body s'
  end.

(** The body of [main] after its five parameter assignments.  The local
    variable [trace] is carried from one loop to the next; it is read only
    inside loop bodies, after the first loop has bound it, and starts here
    as the empty frame. *)
Definition main_with (numAgents : nat) (initInfected : list Z)
    (percInfect percRecover : Q) (numTicks0 : nat)
  : M G (gmap string (gset nat)) :=
  (* scale up ticks artifically *)
  let numTicks := numTicks0 * numAgents in
  (* base run *)
  do orig_trace <- run numAgents initInfected percInfect percRecover numTicks
                       "tr_base" None;
  let orig_infected_in_final := infected_in_final orig_trace numTicks in
  let causal_rel : gmap string (gset nat) := ∅ in
  let trace : DataFrame := [] in
  (* simple counterfactual experiment 1 *)
  do st1 <- for_each initInfected (fun '(causal_rel, trace) a =>
      let name := "tr_simpleCF1_wo" +:+ pretty a in
      do trace <- run numAgents (filter (fun b => a <> b) initInfected)
                      percInfect percRecover numTicks name None;
      let trace_infected_in_final := infected_in_final trace numTicks in
      ret (<[name := causal_diff orig_infected_in_final trace_infected_in_final]>
             causal_rel, trace))
    (causal_rel, trace);
  (* simple counterfactual experiment 2 *)
  do st2 <- for_each initInfected (fun '(causal_rel, trace) a =>
      let name := "tr_simpleCF2_wo" +:+ pretty a in
      do _ <- run numAgents (filter (fun b => a <> b) initInfected)
                  percInfect percRecover numTicks name None;
      let trace_infected_in_final := infected_in_final trace numTicks in
      ret (<[name := causal_diff orig_infected_in_final trace_infected_in_final]>
             causal_rel, trace))
    st1;
  (* intervention-based counterfactual experiment *)
  do st3 <- for_each initInfected (fun '(causal_rel, trace) a =>
      let name := "tr_intervCF_wo" +:+ pretty a in
      let intervention := mkIntervention orig_trace in
      do trace <- run numAgents (filter (fun b => a <> b) initInfected)
                      percInfect percRecover numTicks name (Some intervention);
      let trace_infected_in_final := infected_in_final trace numTicks in
      ret (<[name := causal_diff orig_infected_in_final trace_infected_in_final]>
             causal_rel, trace))
    st2;
  ret st3.1.

Definition main : M G (gmap string (gset nat)) :=
  main_with 10 [0; 1]%Z (1 # 2) (1 # 20) 10.

End Harness.

(** ** [server.py]: [network_portrayal]

    The graph handed to [network_portrayal] is read through
    [G.nodes.data('agent')], the list of agents placed on each node,
    through [G.node[n]['agent']] (the node view of the networkx releases the
    program was written for) and through [G.edges]. *)

Record Graph : Type := mkGraph {
  g_nodes : list (nat * list DiseaseAgent);
  g_edges : list (nat * nat)
}.

(** [model.G] once [DiseaseModel.__init__] has placed the agents: the
    complete graph on [num_agents] nodes, each node holding the agents whose
    [pos] it is. *)
Definition model_graph (m : DiseaseModel) : Graph :=
  mkGraph
    (map (fun node => (node, map (fun r => agents m !!! r) (cell_contents m node)))
         (seq 0 (num_agents m)))
    (flat_map (fun i => map (fun j => (i, j)) (seq (S i) (num_agents m - S i)))
              (seq 0 (num_agents m))).

Record NodePortrayal : Type := mkNodePortrayal {
  np_size : nat;
  np_color : string;
  np_tooltip : string
}.

Record EdgePortrayal : Type := mkEdgePortrayal {
  ep_source : nat;
  ep_target : nat;
  ep_color : string;
  ep_width : nat
}.

Record Portrayal : Type := mkPortrayal {
  p_nodes : list NodePortrayal;
  p_edges : list EdgePortrayal
}.

(** Sequencing of computations that may raise and draw nothing. *)
Definition rbind {A B : Type} (r : result A) (k : A -> result B) : result B :=
  match r with
  | Ok a => k a
  | Raise e => Raise e
  end.

(** A list comprehension whose element expression may raise. *)
Fixpoint comprehension {A B : Type} (f : A -> result B) (l : list A)
  : result (list B) :=
  match l with
  | [] => Ok []
  | x :: l' => rbind (f x) (fun y => rbind (comprehension f l') (fun ys => Ok (y :: ys)))
  end.

(** [State.name]. *)
Definition State_name (s : State) : string :=
  match s with
  | HEALTHY => "HEALTHY"
  | INFECTED => "INFECTED"
  end.

(** [{State.INFECTED: '#FF0000', State.HEALTHY: '#008000'}.get(agent.state)] *)
Definition node_color (agent : DiseaseAgent) : string :=
  match state agent with
  | INFECTED => "#FF0000"
  | HEALTHY => "#008000"
  end.

Definition edge_color (agent1 agent2 : DiseaseAgent) : string := "#e8e8e8".

Definition edge_width (agent1 agent2 : DiseaseAgent) : nat := 2.

(** [agents[0]]: [IndexError] on an empty list. *)
Definition first_agent (ags : list DiseaseAgent) : result DiseaseAgent :=
  match ags with
  | a :: _ => Ok a
  | [] => Raise IndexError
  end.

(** [G.node[n]['agent']]: [KeyError] when [n] is not a node of [G]. *)
Definition node_agents (G : Graph) (n : nat) : result (list DiseaseAgent) :=
  match find (fun na => bool_decide (na.1 = n)) (g_nodes G) with
  | Some (_, ags) => Ok ags
  | None => Raise KeyError
  end.

Definition get_agents (G : Graph) (source target : nat)
  : result (DiseaseAgent * DiseaseAgent) :=
  rbind (rbind (node_agents G source) first_agent) (fun a1 =>
  rbind (rbind (node_agents G target) first_agent) (fun a2 =>
  Ok (a1, a2))).

Definition network_portrayal (G : Graph) : result Portrayal :=
  rbind (comprehension
           (fun '(_, ags) =>
              rbind (first_agent ags) (fun a0 =>
              Ok (mkNodePortrayal 6 (node_color a0)
                    ("id: " +:+ pretty (unique_id a0) +:+ "<br>state: "
                     +:+ State_name (state a0)))))
           (g_nodes G)) (fun nodes =>
  rbind (comprehension
           (fun '(source, target) =>
              rbind (get_agents G source target) (fun '(c1, c2) =>
              rbind (get_agents G source target) (fun '(w1, w2) =>
              Ok (mkEdgePortrayal source target (edge_color c1 c2) (edge_width w1 w2)))))
           (g_edges G)) (fun edges =>
  Ok (mkPortrayal nodes edges))).

(** ** A scripted generator

    A generator whose draws are read off a fixed list: [random()] returns
    the next entry as a percentage, [choice] on a sequence of length [n]
    takes the next entry modulo [n].  Seeding rewinds the script. *)
Definition script_gen (script : list nat) : RandomGen (list nat) := {|
  rng_seed := fun _ => script;
  rng_random := fun g => (Z.of_nat (default 0 (head g)) # 100, tail g);
  rng_randbelow := fun n g => (default 0 (head g) mod n, tail g)
|}.

(** ** CPython's generator

    The module-level generator of Python's [random] is the Mersenne Twister
    MT19937 of CPython ([Modules/_randommodule.c] and [Lib/random.py]).
    [random.seed(a)] with an integer initialises the state by
    [init_by_array] on the 32-bit words of [abs(a)]; [random.random()]
    builds a 53-bit fraction from two words; [random.choice] takes its index
    from [_randbelow(n)], which draws [getrandbits(n.bit_length())], one
    word each, until the value is below [n].  Sequences are shorter than
    [2^32] here, so one word per draw suffices. *)



















(** ** Concrete inputs

    Two agents, agent 0 seeded.  Under the script [[0; 10; 99; 0]] the
    scheduler activates agent 0, which draws 0.10 and 0.99 and picks its
    only neighbour, agent 1. *)

Definition demo_script : list nat := [0; 10; 99; 0].

(** A baseline in which nothing happens in tick 0. *)
Definition baseline_quiet : DataFrame :=
  [mkRow 0 0 INFECTED NOTHING NO_CAUSE; mkRow 0 1 HEALTHY NOTHING NO_CAUSE].

Definition demo_model (iv : option Intervention) : DiseaseModel :=
  DiseaseModel_init 2 [0%Z] (1 # 2) (1 # 20) iv.

(** The model [demo_model] after a first tick in which nothing happened,
    with a baseline that covers that first tick only. *)
Definition second_tick_model : DiseaseModel :=
  mkModel 2 [0%Z] (1 # 2) (1 # 20) (Some (mkIntervention baseline_quiet)) 1 1
          [mkAgent 0 0 INFECTED NOTHING NO_CAUSE;
           mkAgent 1 1 HEALTHY NOTHING NO_CAUSE] baseline_quiet.

(** The state of [demo_model None] after the tick scripted by [demo_script]. *)
Definition demo_after : DiseaseModel :=
  Eval vm_compute in
    match @DiseaseModel_step _ (script_gen demo_script) (demo_model None) demo_script with
    | Ok (m', _) => m'
    | Raise _ => demo_model None
    end.

(** A stream on which nothing spreads among ten agents: every tick
    activates agent 9, which is never infected, so each run ends with
    exactly its seeds infected. *)
Definition idle_script : list nat := concat (replicate 100 [9; 99; 99; 0]).

(** The value of a computation that returned. *)
Definition value_of {A S : Type} (r : result (A * S)) : option A :=
  match r with
  | Ok (a, _) => Some a
  | Raise _ => None
  end.

(** * Vocabulary of the properties *)

(** Well-formed models: the shape [DiseaseModel.__init__] establishes and
    every operation keeps.  There are [num_agents] agents, and the agent
    registered at index [i] has [unique_id = i] and sits on node [i]. *)
Definition wf (m : DiseaseModel) : Prop :=
  length (agents m) = num_agents m /\
  forall i a, agents m !! i = Some a -> unique_id a = i /\ pos a = i.

(** [m'] differs from [m] at most in the mutable fields of its agents, its
    counters and its collected records. *)
Definition same_frame (m m' : DiseaseModel) : Prop :=
  num_agents m' = num_agents m /\
  percInfect m' = percInfect m /\
  percRecover m' = percRecover m /\
  intervention m' = intervention m /\
  length (agents m') = length (agents m) /\
  forall i a', agents m' !! i = Some a' ->
    exists a, agents m !! i = Some a /\ unique_id a' = unique_id a /\ pos a' = pos a.

(** The decision [Intervention.apply] takes for one agent when the lookup
    in the baseline succeeds. *)
Definition apply_agent (iv : Intervention) (tick : Z) (a : DiseaseAgent)
  : DiseaseAgent :=
  if bool_decide (event a = INFECT
                  /\ df_Event (trace iv) (tick, unique_id a) <> Some INFECT)
  then recover_agent a else a.

(** The state [reset_events] leaves behind. *)
Definition quiet (m : DiseaseModel) : Prop :=
  forall i a, agents m !! i = Some a -> event a = NOTHING /\ cause a = NO_CAUSE.

(** The condition every agent meets at the end of a tick in which the agent
    registered at [s] acted: an [INFECT] event carries the id of [s] as its
    cause, any other event carries none. *)
Definition event_ok (s : nat) (ev : Event) (c : Z) : Prop :=
  (ev = INFECT -> c = Z.of_nat s) /\
  (ev <> INFECT -> c = NO_CAUSE).

(** The relation [main] computes from the baseline trace [orig] and another
    trace [tr], with its 100 ticks. *)
Definition final_diff (orig tr : DataFrame) : gset nat :=
  causal_diff (infected_in_final orig 100) (infected_in_final tr 100).

(** The agents at the end of a tick, from those at its start: [self] is
    the agent the scheduler activated, [nb] the neighbour it chose, [bi]
    and [br] tell whether it infected [nb] and whether it recovered. *)
Definition tick_outcome (iv : option Intervention) (tick : Z) (self nb : nat)
    (bi br : bool) (ags : list DiseaseAgent) : list DiseaseAgent :=
  let acted :=
    (if br then alter recover_agent self else id)
      ((if bi then alter (infect_agent (Z.of_nat self)) nb else id)
         (map reset_agent ags)) in
  match iv with
  | Some iv => map (apply_agent iv tick) acted
  | None => acted
  end.

(** The index of a row. *)
Definition row_key (r : Row) : Z * nat := (Step r, AgentID r).

(** The records a model holds are those of the ticks it has completed: one
    row per index, every tick below [steps], every agent id below
    [num_agents]. *)
Definition trace_ok (m : DiseaseModel) : Prop :=
  NoDup (map row_key (datacollector m)) /\
  forall r, r ∈ datacollector m ->
    (0 <= Step r < Z.of_nat (steps m))%Z /\ AgentID r < num_agents m.

(** The baseline of [o], if there is one, has an entry for every agent at
    each of the [n] ticks from [lo] on. *)
Definition covered (o : option Intervention) (lo n N : nat) : Prop :=
  match o with
  | None => True
  | Some iv =>
      forall t i, lo <= t < lo + n -> i < N ->
                  is_Some (df_Event (trace iv) (Z.of_nat t, i))
  end.

(** [m] with its [intervention] field replaced. *)
Definition with_intervention (m : DiseaseModel) (iv : option Intervention)
  : DiseaseModel :=
  mkModel (num_agents m) (initInfected m) (percInfect m) (percRecover m)
          iv (steps m) (time m) (agents m) (datacollector m).

(** What the intervention pass may do to one agent: leave it, or recover it
    when its event is [INFECT]. *)
Definition left_or_recovered (a a' : DiseaseAgent) : Prop :=
  a' = a \/ (event a = INFECT /\ a' = recover_agent a).

(** The number of infected agents of a model. *)
Definition infected_count (ags : list DiseaseAgent) : nat :=
  length (filter (fun a => state a = INFECTED) ags).

(** The agent ids of the entries of [df] whose tick component is [t], in
    the order of the frame. *)
Definition tick_ids (t : Z) (df : DataFrame) : list nat :=
  map AgentID (filter (fun r => Step r = t) df).

(** Two outcomes agree up to the relation [R] between generator states:
    the same exception, or the same value with related states. *)
Definition agree {G1 G2 A : Type} (R : G1 -> G2 -> Prop)
    (r1 : result (A * G1)) (r2 : result (A * G2)) : Prop :=
  match r1, r2 with
  | Ok (a1, g1), Ok (a2, g2) => a1 = a2 /\ R g1 g2
  | Raise e1, Raise e2 => e1 = e2
  | _, _ => False
  end.

(** * Properties *)

(** ** Comparisons and frames *)

Lemma Qltb_lt (a b : Q) : Qltb a b = true <-> (a < b)%Q.
Proof.
  unfold Qltb. rewrite negb_true_iff. split.
  - intros Hf. apply Qnot_le_lt. intros Hle.
    apply Qle_bool_iff in Hle. congruence.
  - intros Hlt. destruct (Qle_bool b a) eqn:E; [|reflexivity].
    apply Qle_bool_iff in E. exfalso. exact (Qlt_not_le _ _ Hlt E).
Qed.

Lemma same_frame_refl m : same_frame m m.
Proof. unfold same_frame. repeat split; eauto. Qed.

Lemma same_frame_trans m1 m2 m3 :
  same_frame m1 m2 -> same_frame m2 m3 -> same_frame m1 m3.
Proof.
  intros (?&?&?&?&?&H12) (?&?&?&?&?&H23).
  unfold same_frame. repeat split; try congruence.
  intros i a3 Ha3. destruct (H23 i a3 Ha3) as (a2&Ha2&?&?).
  destruct (H12 i a2 Ha2) as (a1&Ha1&?&?).
  exists a1. repeat split; congruence.
Qed.

Lemma wf_same_frame m m' : wf m -> same_frame m m' -> wf m'.
Proof.
  intros [Hlen Hid] (Hn&_&_&_&Hl&Hsh). split; [congruence|].
  intros i a' Ha'. destruct (Hsh i a' Ha') as (a&Ha&Hu&Hp).
  destruct (Hid i a Ha). split; congruence.
Qed.

(** Updating one agent in place with a function that keeps its identity. *)
Lemma same_frame_alter m f r :
  (forall a, unique_id (f a) = unique_id a /\ pos (f a) = pos a) ->
  same_frame m (set_agents m (alter f r (agents m))).
Proof.
  intros Hf. unfold same_frame; simpl. repeat split; try reflexivity.
  - apply length_alter.
  - intros i a' Ha'. destruct (decide (i = r)) as [->|Hne].
    + rewrite list_lookup_alter_eq in Ha'.
      destruct (agents m !! r) as [a|] eqn:Ea; simpl in Ha'; [|discriminate].
      injection Ha' as <-. exists a. destruct (Hf a). auto.
    + rewrite list_lookup_alter_ne in Ha' by congruence. exists a'. auto.
Qed.

Lemma same_frame_infect m r s : same_frame m (DiseaseAgent_infect r s m).
Proof. apply same_frame_alter. intros a. split; reflexivity. Qed.

Lemma same_frame_recover m r : same_frame m (DiseaseAgent_recover r m).
Proof. apply same_frame_alter. intros a. split; reflexivity. Qed.

Lemma same_frame_reset m : same_frame m (DiseaseModel_reset_events m).
Proof.
  unfold same_frame; simpl. repeat split; try reflexivity.
  - apply length_map.
  - intros i a' Ha'. rewrite list_lookup_fmap in Ha'.
    destruct (agents m !! i) as [a|] eqn:Ea; simpl in Ha'; [|discriminate].
    injection Ha' as <-. exists a. auto.
Qed.

Lemma same_frame_collect m : same_frame m (DataCollector_collect m).
Proof. unfold same_frame; simpl. repeat split; eauto. Qed.

Lemma wf_lookup m i : wf m -> i < num_agents m ->
  exists a, agents m !! i = Some a /\ unique_id a = i /\ pos a = i.
Proof.
  intros [Hlen Hid] Hi.
  destruct (lookup_lt_is_Some_2 (agents m) i) as [a Ha]; [lia|].
  exists a. destruct (Hid i a Ha). auto.
Qed.

Lemma wf_total m i : wf m -> i < num_agents m ->
  agents m !! i = Some (agents m !!! i) /\
  unique_id (agents m !!! i) = i /\ pos (agents m !!! i) = i.
Proof.
  intros Hwf Hi. destruct (wf_lookup m i Hwf Hi) as (a&Ha&Hu&Hp).
  rewrite (list_lookup_total_correct _ _ _ Ha). auto.
Qed.

(** ** The neighbourhood of an agent *)

Lemma filter_eq_seq (j s n : nat) :
  filter (fun r => r = j) (seq s n) = if decide (s <= j < s + n) then [j] else [].
Proof.
  revert s. induction n as [|n IH]; intros s; simpl.
  - destruct (decide (s <= j < s + 0)); [lia|reflexivity].
  - rewrite filter_cons. rewrite IH.
    destruct (decide (s = j)) as [->|Hne].
    + destruct (decide (S j <= j < S j + n)); [lia|].
      destruct (decide (j <= j < j + S n)); [reflexivity|lia].
    + destruct (decide (S s <= j < S s + n));
        destruct (decide (s <= j < s + S n)); try reflexivity; lia.
Qed.

Lemma cell_contents_wf m j : wf m -> j < num_agents m -> cell_contents m j = [j].
Proof.
  intros Hwf Hj. unfold cell_contents.
  assert (Hext : forall l : list nat, (forall r, r ∈ l -> r < num_agents m) ->
            filter (fun r => pos (agents m !!! r) = j) l = filter (fun r => r = j) l).
  { induction l as [|r l IH]; intros Hl; [reflexivity|].
    rewrite !filter_cons.
    destruct (wf_total m r Hwf) as (_&_&Hp); [apply Hl; left|].
    rewrite IH by (intros; apply Hl; right; assumption).
    rewrite Hp. reflexivity. }
  destruct Hwf as [Hlen Hid]. rewrite Hext.
  - rewrite filter_eq_seq. destruct (decide (0 <= j < 0 + length (agents m))); [reflexivity|lia].
  - intros r Hr. apply elem_of_seq in Hr. lia.
Qed.

Lemma get_cell_list_contents_wf m nodes :
  wf m -> (forall j, j ∈ nodes -> j < num_agents m) ->
  get_cell_list_contents m nodes = nodes.
Proof.
  intros Hwf. unfold get_cell_list_contents.
  induction nodes as [|j nodes IH]; intros Hn; simpl; [reflexivity|].
  rewrite cell_contents_wf by (auto; apply Hn; left).
  rewrite IH by (intros; apply Hn; right; assumption). reflexivity.
Qed.

(** In a well-formed model the candidates handed to [random.choice] are all
    the agents but the acting one, whatever their state. *)
Lemma neighbour_agents_wf m self :
  wf m -> self < num_agents m ->
  get_cell_list_contents m (get_neighbors m (pos (agents m !!! self)))
  = filter (fun j => j <> self) (seq 0 (num_agents m)).
Proof.
  intros Hwf Hs. destruct (wf_total m self Hwf Hs) as (_&_&->).
  apply get_cell_list_contents_wf; [assumption|].
  intros j Hj. unfold get_neighbors in Hj.
  apply list_elem_of_filter in Hj as [_ Hj]. apply elem_of_seq in Hj. lia.
Qed.

Section StepLemmas.
Context {G : Type} `{RandomGen G}.

Lemma bind_Ok {A B} (c : M G A) (k : A -> M G B) g b g' :
  bind c k g = Ok (b, g') ->
  exists a g1, c g = Ok (a, g1) /\ k a g1 = Ok (b, g').
Proof.
  unfold bind. destruct (c g) as [[a g1]|e]; [|discriminate]. eauto.
Qed.

Lemma choice_Ok {A} (sq : list A) g x g' :
  choice sq g = Ok (x, g') ->
  exists i, rng_randbelow (length sq) g = (i, g') /\ sq !! i = Some x.
Proof.
  unfold choice. destruct sq as [|y sq]; [discriminate|].
  destruct (rng_randbelow (length (y :: sq)) g) as [i g1].
  destruct ((y :: sq) !! i) as [z|] eqn:E; [|discriminate].
  intros [= -> ->]. eauto.
Qed.

(** What one activation can do: possibly infect the chosen neighbour,
    then possibly recover. *)
Lemma DiseaseAgent_step_inv self m g m' g' :
  DiseaseAgent_step self m g = Ok (m', g') ->
  exists nb (bi br : bool),
    nb ∈ get_cell_list_contents m (get_neighbors m (pos (agents m !!! self))) /\
    m' = (if br then DiseaseAgent_recover self else id)
           ((if bi then DiseaseAgent_infect nb
                          (Z.of_nat (unique_id (agents m !!! self)))
             else id) m).
Proof.
  unfold DiseaseAgent_step. intros Hs.
  apply bind_Ok in Hs as (r_inf & g1 & _ & Hs).
  apply bind_Ok in Hs as (r_rec & g2 & _ & Hs).
  apply bind_Ok in Hs as (nb & g3 & Hc & Hs).
  apply choice_Ok in Hc as (k & _ & Hk).
  unfold ret in Hs. injection Hs as <- <-.
  exists nb.
  set (c1 := bool_decide (state (agents m !!! self) = INFECTED)
             && Qltb r_inf (percInfect m)).
  set (c2 := negb (bool_decide (state (agents m !!! nb) = INFECTED))).
  exists (c1 && c2).
  match goal with |- context [if ?c then DiseaseAgent_recover self _ else _] =>
    exists c end.
  split; [eapply list_elem_of_lookup_2; eassumption|].
  destruct c1, c2; simpl; match goal with |- context [if ?c then _ else _] =>
    destruct c end; reflexivity.
Qed.

Lemma DiseaseAgent_step_frame self m g m' g' :
  DiseaseAgent_step self m g = Ok (m', g') ->
  same_frame m m' /\ steps m' = steps m /\ time m' = time m
  /\ datacollector m' = datacollector m.
Proof.
  intros Hs. apply DiseaseAgent_step_inv in Hs as (nb&bi&br&_&->).
  destruct bi, br; simpl; (split; [|auto]).
  - eapply same_frame_trans; [apply same_frame_infect|apply same_frame_recover].
  - apply same_frame_infect.
  - apply same_frame_recover.
  - apply same_frame_refl.
Qed.

End StepLemmas.

(** ** The intervention pass *)

Lemma get_agent_by_id_wf m idx :
  wf m -> idx < num_agents m -> get_agent_by_id (agents m) idx = Ok idx.
Proof.
  intros Hwf Hidx. unfold get_agent_by_id.
  destruct (list_find (fun a => unique_id a = idx) (agents m)) as [[r a]|] eqn:E.
  - apply list_find_Some in E as (Hr & Hu & _).
    destruct Hwf as [_ Hid]. destruct (Hid r a Hr) as [Hu' _]. congruence.
  - apply list_find_None in E.
    destruct (wf_lookup m idx Hwf Hidx) as (a & Ha & Hu & _).
    rewrite Forall_forall in E. exfalso. apply (E a); [|assumption].
    eapply list_elem_of_lookup_2; eassumption.
Qed.

Lemma wf_recover m r : wf m -> wf (DiseaseAgent_recover r m).
Proof. intros Hwf. eapply wf_same_frame; [eassumption|apply same_frame_recover]. Qed.

Lemma wf_infect m r s : wf m -> wf (DiseaseAgent_infect r s m).
Proof. intros Hwf. eapply wf_same_frame; [eassumption|apply same_frame_infect]. Qed.

Lemma Intervention_apply_loop_Ok iv tick l : forall m,
  wf m -> NoDup l -> (forall i, i ∈ l -> i < num_agents m) ->
  (forall i a, i ∈ l -> agents m !! i = Some a -> event a = INFECT ->
               is_Some (df_Event (trace iv) (tick, i))) ->
  exists ags',
    Intervention_apply_loop iv tick l m = Ok (set_agents m ags') /\
    length ags' = length (agents m) /\
    forall i a, agents m !! i = Some a ->
      ags' !! i = Some (if decide (i ∈ l) then apply_agent iv tick a else a).
Proof.
  induction l as [|idx rest IH]; intros m Hwf Hnd Hlt Hbase.
  - exists (agents m). simpl. split; [destruct m; reflexivity|]. split; [reflexivity|].
    intros i a Ha. destruct (decide (i ∈ [])) as [Hin|_]; [|assumption].
    apply elem_of_nil in Hin. contradiction.
  - apply NoDup_cons in Hnd as [Hnotin Hnd].
    assert (Hidx : idx < num_agents m) by (apply Hlt; left).
    destruct (wf_total m idx Hwf Hidx) as (Ha0 & Hu0 & _).
    set (a0 := agents m !!! idx) in *.
    assert (Hrest : forall i, i ∈ rest -> i < num_agents m)
      by (intros; apply Hlt; right; assumption).
    (* the cases in which the loop goes on with the model unchanged *)
    assert (Hsame : apply_agent iv tick a0 = a0 ->
              Intervention_apply_loop iv tick rest m
              = Intervention_apply_loop iv tick (idx :: rest) m ->
              exists ags',
                Intervention_apply_loop iv tick (idx :: rest) m = Ok (set_agents m ags') /\
                length ags' = length (agents m) /\
                forall i a, agents m !! i = Some a ->
                  ags' !! i = Some (if decide (i ∈ idx :: rest)
                                    then apply_agent iv tick a else a)).
    { intros Hid Heq.
      destruct (IH m Hwf Hnd Hrest) as (ags' & Hloop & Hlen & Hpt).
      { intros i a Hi. apply Hbase. right. assumption. }
      exists ags'. rewrite <- Heq. split; [assumption|]. split; [assumption|].
      intros i a Ha. rewrite (Hpt i a Ha).
      destruct (decide (i = idx)) as [->|Hne].
      - assert (a = a0) by congruence. subst a.
        destruct (decide (idx ∈ rest)); [contradiction|].
        destruct (decide (idx ∈ idx :: rest)) as [_|Hn]; [congruence|].
        exfalso. apply Hn. left.
      - destruct (decide (i ∈ rest)) as [Hin|Hnin];
          destruct (decide (i ∈ idx :: rest)) as [Hin'|Hnin']; try reflexivity.
        + exfalso. apply Hnin'. right. assumption.
        + apply elem_of_cons in Hin' as [?|?]; contradiction. }
    assert (Hunf : Intervention_apply_loop iv tick (idx :: rest) m =
              if bool_decide (event a0 = INFECT) then
                match df_Event (trace iv) (tick, idx) with
                | None => Raise KeyError
                | Some e =>
                    if bool_decide (e <> INFECT)
                    then Intervention_apply_loop iv tick rest (DiseaseAgent_recover idx m)
                    else Intervention_apply_loop iv tick rest m
                end
              else Intervention_apply_loop iv tick rest m).
    { simpl. rewrite (get_agent_by_id_wf m idx Hwf Hidx). reflexivity. }
    destruct (bool_decide (event a0 = INFECT)) eqn:Eev.
    + apply bool_decide_eq_true in Eev.
      destruct (Hbase idx a0) as [e He]; [left|assumption|assumption|].
      rewrite He in Hunf.
      destruct (bool_decide (e <> INFECT)) eqn:Ee.
      * apply bool_decide_eq_true in Ee. rewrite Hunf.
        destruct (IH (DiseaseAgent_recover idx m)) as (ags' & Hloop & Hlen & Hpt);
          [apply wf_recover; assumption|assumption|exact Hrest| |].
        { intros i a Hi Ha. apply Hbase; [right; assumption|].
          simpl in Ha. rewrite list_lookup_alter_ne in Ha; [assumption|].
          intros ->. contradiction. }
        exists ags'. split; [exact Hloop|].
        split; [rewrite Hlen; simpl; apply length_alter|].
        intros i a Ha. destruct (decide (i = idx)) as [->|Hne].
        -- assert (a = a0) by congruence. subst a.
           rewrite (Hpt idx (recover_agent a0)).
           2:{ simpl. rewrite list_lookup_alter_eq, Ha0. reflexivity. }
           destruct (decide (idx ∈ rest)); [contradiction|].
           destruct (decide (idx ∈ idx :: rest)) as [_|Hn]; [|exfalso; apply Hn; left].
           unfold apply_agent. rewrite bool_decide_eq_true_2; [reflexivity|].
           split; [assumption|]. rewrite Hu0, He. congruence.
        -- rewrite (Hpt i a).
           2:{ simpl. rewrite list_lookup_alter_ne by congruence. assumption. }
           destruct (decide (i ∈ rest)) as [Hin|Hnin];
             destruct (decide (i ∈ idx :: rest)) as [Hin'|Hnin']; try reflexivity.
           ++ exfalso. apply Hnin'. right. assumption.
           ++ apply elem_of_cons in Hin' as [?|?]; contradiction.
      * apply bool_decide_eq_false in Ee.
        assert (e = INFECT) by (destruct e; try reflexivity; exfalso; apply Ee; discriminate).
        subst e. apply Hsame.
        -- unfold apply_agent. rewrite bool_decide_eq_false_2; [reflexivity|].
           intros [_ Hn]. apply Hn. rewrite Hu0. assumption.
        -- symmetry. exact Hunf.
    + apply bool_decide_eq_false in Eev. apply Hsame.
      * unfold apply_agent. rewrite bool_decide_eq_false_2; [reflexivity|].
        intros [Hn _]. contradiction.
      * symmetry. exact Hunf.
Qed.

Lemma Intervention_apply_loop_KeyError iv tick l : forall m,
  wf m -> NoDup l -> (forall i, i ∈ l -> i < num_agents m) ->
  (exists i a, i ∈ l /\ agents m !! i = Some a /\ event a = INFECT
               /\ df_Event (trace iv) (tick, i) = None) ->
  Intervention_apply_loop iv tick l m = Raise KeyError.
Proof.
  induction l as [|idx rest IH]; intros m Hwf Hnd Hlt (i & a & Hi & Ha & Hev & Hnone).
  - apply elem_of_nil in Hi. contradiction.
  - apply NoDup_cons in Hnd as [Hnotin Hnd].
    assert (Hidx : idx < num_agents m) by (apply Hlt; left).
    destruct (wf_total m idx Hwf Hidx) as (Ha0 & Hu0 & _).
    assert (Hrest : forall j, j ∈ rest -> j < num_agents m)
      by (intros; apply Hlt; right; assumption).
    simpl. rewrite (get_agent_by_id_wf m idx Hwf Hidx).
    destruct (decide (i = idx)) as [->|Hne].
    + assert (agents m !!! idx = a) as -> by congruence.
      rewrite bool_decide_eq_true_2 by assumption. rewrite Hnone. reflexivity.
    + apply elem_of_cons in Hi as [?|Hi]; [contradiction|].
      destruct (bool_decide (event (agents m !!! idx) = INFECT)).
      * destruct (df_Event (trace iv) (tick, idx)) as [e|]; [|reflexivity].
        destruct (bool_decide (e <> INFECT)).
        -- apply IH; [apply wf_recover; assumption|assumption|exact Hrest|].
           exists i, a. repeat split; try assumption.
           simpl. rewrite list_lookup_alter_ne by congruence. assumption.
        -- apply IH; try assumption. exists i, a. auto.
      * apply IH; try assumption. exists i, a. auto.
Qed.

Lemma wf_ids m : wf m -> map unique_id (agents m) = seq 0 (num_agents m).
Proof.
  intros [Hlen Hid]. apply list_eq. intros i.
  change (map unique_id (agents m)) with (unique_id <$> agents m).
  rewrite list_lookup_fmap.
  destruct (agents m !! i) as [a|] eqn:Ea; simpl.
  - destruct (Hid i a Ea) as [-> _]. symmetry. apply lookup_seq.
    apply lookup_lt_Some in Ea. lia.
  - symmetry. apply lookup_seq_ge. apply lookup_ge_None in Ea. lia.
Qed.

(** With every needed baseline entry present, the pass rewrites each agent
    independently. *)
Lemma Intervention_apply_Ok iv m :
  wf m ->
  (forall i a, agents m !! i = Some a -> event a = INFECT ->
               is_Some (df_Event (trace iv) (Z.of_nat (steps m) - 1, i)%Z)) ->
  Intervention_apply iv m
  = Ok (set_agents m (map (apply_agent iv (Z.of_nat (steps m) - 1)%Z) (agents m))).
Proof.
  intros Hwf Hbase. unfold Intervention_apply. rewrite (wf_ids m Hwf).
  destruct (Intervention_apply_loop_Ok iv (Z.of_nat (steps m) - 1)%Z
              (seq 0 (num_agents m)) m Hwf) as (ags' & Hloop & Hlen & Hpt).
  - apply NoDup_seq.
  - intros i Hi. apply elem_of_seq in Hi. lia.
  - intros i a _. apply Hbase.
  - rewrite Hloop. f_equal. f_equal. apply list_eq. intros i.
    change (map ?f ?l) with (f <$> l). rewrite list_lookup_fmap.
    destruct (agents m !! i) as [a|] eqn:Ea; simpl.
    + rewrite (Hpt i a Ea). destruct (decide (i ∈ seq 0 (num_agents m))) as [_|Hn];
        [reflexivity|].
      exfalso. apply Hn. apply elem_of_seq. apply lookup_lt_Some in Ea.
      destruct Hwf as [Hl _]. lia.
    + apply lookup_ge_None. apply lookup_ge_None in Ea. lia.
Qed.

(** A missing baseline entry for an agent whose event is [INFECT] makes the
    lookup, and with it the whole pass, raise [KeyError]. *)
Lemma Intervention_apply_KeyError iv m i a :
  wf m -> agents m !! i = Some a -> event a = INFECT ->
  df_Event (trace iv) (Z.of_nat (steps m) - 1, i)%Z = None ->
  Intervention_apply iv m = Raise KeyError.
Proof.
  intros Hwf Ha Hev Hnone. unfold Intervention_apply. rewrite (wf_ids m Hwf).
  apply Intervention_apply_loop_KeyError; [assumption|apply NoDup_seq| |].
  - intros j Hj. apply elem_of_seq in Hj. lia.
  - exists i, a. repeat split; try assumption.
    apply elem_of_seq. apply lookup_lt_Some in Ha. destruct Hwf as [Hl _]. lia.
Qed.

(** ** One tick *)

Lemma reset_quiet m : quiet (DiseaseModel_reset_events m).
Proof.
  intros i a Ha. simpl in Ha.
  change (map ?f ?l) with (f <$> l) in Ha. rewrite list_lookup_fmap in Ha.
  destruct (agents m !! i); simpl in Ha; [|discriminate].
  injection Ha as <-. split; reflexivity.
Qed.

Lemma lookup_alter_Some {A} (f : A -> A) (l : list A) r i a' :
  alter f r l !! i = Some a' ->
  (i = r /\ exists a, l !! i = Some a /\ a' = f a) \/ (i <> r /\ l !! i = Some a').
Proof.
  intros Ha'. destruct (decide (i = r)) as [->|Hne].
  - left. split; [reflexivity|]. rewrite list_lookup_alter_eq in Ha'.
    destruct (l !! r) as [a|]; simpl in Ha'; [|discriminate].
    injection Ha' as <-. eauto.
  - right. rewrite list_lookup_alter_ne in Ha' by congruence. auto.
Qed.

Section TickLemmas.
Context {G : Type} `{RandomGen G}.

Lemma RandomSingleActivation_step_inv m g m' g' :
  RandomSingleActivation_step m g = Ok (m', g') ->
  exists self g0 m1,
    choice (seq 0 (length (agents m))) g = Ok (self, g0) /\
    self < length (agents m) /\
    DiseaseAgent_step self m g0 = Ok (m1, g') /\
    m' = mkModel (num_agents m1) (initInfected m1) (percInfect m1)
                 (percRecover m1) (intervention m1)
                 (steps m1 + 1) (time m1 + 1) (agents m1) (datacollector m1).
Proof.
  unfold RandomSingleActivation_step. intros Hs.
  apply bind_Ok in Hs as (self & g0 & Hc & Hs).
  apply bind_Ok in Hs as (m1 & g1 & Ha & Hs).
  unfold ret in Hs. injection Hs as <- <-.
  exists self, g0, m1. repeat split; try assumption.
  apply choice_Ok in Hc as (k & _ & Hk).
  apply lookup_seq in Hk. lia.
Qed.

(** The scheduler's step on a well-formed model: one agent [self] acts on
    one other agent [nb]. *)
Lemma RandomSingleActivation_step_wf_choice m g m' g' :
  wf m -> RandomSingleActivation_step m g = Ok (m', g') ->
  exists self g0 ma nb (bi br : bool),
    choice (seq 0 (length (agents m))) g = Ok (self, g0) /\
    DiseaseAgent_step self m g0 = Ok (ma, g') /\
    self < num_agents m /\ nb < num_agents m /\ nb <> self /\
    agents m' = (if br then alter recover_agent self else id)
                  ((if bi then alter (infect_agent (Z.of_nat self)) nb else id)
                     (agents m)) /\
    steps m' = steps m + 1 /\ time m' = time m + 1 /\
    datacollector m' = datacollector m /\
    same_frame m m'.
Proof.
  intros Hwf Hs.
  apply RandomSingleActivation_step_inv in Hs as (self & g0 & m1 & Hch & Hself & Hs & ->).
  assert (Hself' : self < num_agents m) by (destruct Hwf; lia).
  pose proof (DiseaseAgent_step_frame _ _ _ _ _ Hs) as (Hfr & Hst & Hti & Hdc).
  pose proof Hs as Hstep.
  apply DiseaseAgent_step_inv in Hs as (nb & bi & br & Hnb & ->).
  rewrite (neighbour_agents_wf m self Hwf Hself') in Hnb.
  apply list_elem_of_filter in Hnb as [Hne Hnb]. apply elem_of_seq in Hnb.
  destruct (wf_total m self Hwf Hself') as (_ & Hu & _).
  rewrite Hu in Hfr, Hst, Hti, Hdc, Hstep |- *.
  exists self, g0. eexists. exists nb, bi, br. simpl.
  split; [exact Hch|]. split; [exact Hstep|].
  split; [assumption|]. split; [lia|]. split; [assumption|].
  split; [destruct bi, br; reflexivity|].
  split; [congruence|]. split; [congruence|]. split; [assumption|].
  destruct Hfr as (?&?&?&?&?&?). unfold same_frame; simpl. auto 10.
Qed.

Lemma RandomSingleActivation_step_wf m g m' g' :
  wf m -> RandomSingleActivation_step m g = Ok (m', g') ->
  exists self nb (bi br : bool),
    self < num_agents m /\ nb < num_agents m /\ nb <> self /\
    agents m' = (if br then alter recover_agent self else id)
                  ((if bi then alter (infect_agent (Z.of_nat self)) nb else id)
                     (agents m)) /\
    steps m' = steps m + 1 /\ time m' = time m + 1 /\
    datacollector m' = datacollector m /\
    same_frame m m'.
Proof.
  intros Hwf Hs.
  destruct (RandomSingleActivation_step_wf_choice m g m' g' Hwf Hs)
    as (self & g0 & ma & nb & bi & br & _ & _ & Hrest).
  exists self, nb, bi, br. exact Hrest.
Qed.

(** After the event reset and the activation by [self] with neighbour
    [nb], at most [nb] carries an [INFECT] event, and every agent's cause
    fits its event. *)
Lemma activation_events (ags : list DiseaseAgent) self nb (bi br : bool) i a :
  (forall j b, ags !! j = Some b -> event b = NOTHING /\ cause b = NO_CAUSE) ->
  (if br then alter recover_agent self else id)
    ((if bi then alter (infect_agent (Z.of_nat self)) nb else id) ags) !! i = Some a ->
  (event a = INFECT -> i = nb /\ state a = INFECTED) /\
  event_ok self (event a) (cause a).
Proof.
  intros Hq Ha.
  assert (Hquiet_ok : forall b, event b = NOTHING -> cause b = NO_CAUSE ->
            (event b = INFECT -> i = nb /\ state b = INFECTED) /\
            event_ok self (event b) (cause b)).
  { intros b Hev Hc. rewrite Hev. split; [discriminate|].
    split; [discriminate|]. intros _. assumption. }
  assert (Hrec_ok : forall b,
            (event (recover_agent b) = INFECT ->
             i = nb /\ state (recover_agent b) = INFECTED) /\
            event_ok self (event (recover_agent b)) (cause (recover_agent b))).
  { intros b. simpl. split; [discriminate|]. split; [discriminate|reflexivity]. }
  assert (Hinf_ok : forall b, i = nb ->
            (event (infect_agent (Z.of_nat self) b) = INFECT ->
             i = nb /\ state (infect_agent (Z.of_nat self) b) = INFECTED) /\
            event_ok self (event (infect_agent (Z.of_nat self) b))
                     (cause (infect_agent (Z.of_nat self) b))).
  { intros b Hi. simpl. split; [auto|]. split; [reflexivity|congruence]. }
  destruct br, bi; simpl in Ha.
  - apply lookup_alter_Some in Ha as [(-> & b & Hb & ->)|(Hi & Ha)]; [apply Hrec_ok|].
    apply lookup_alter_Some in Ha as [(-> & b & Hb & ->)|(Hi' & Ha)].
    + apply Hinf_ok. reflexivity.
    + destruct (Hq i a Ha). apply Hquiet_ok; assumption.
  - apply lookup_alter_Some in Ha as [(-> & b & Hb & ->)|(Hi & Ha)]; [apply Hrec_ok|].
    destruct (Hq i a Ha). apply Hquiet_ok; assumption.
  - apply lookup_alter_Some in Ha as [(-> & b & Hb & ->)|(Hi' & Ha)].
    + apply Hinf_ok. reflexivity.
    + destruct (Hq i a Ha). apply Hquiet_ok; assumption.
  - destruct (Hq i a Ha). apply Hquiet_ok; assumption.
Qed.

Lemma post_activation_events m g m' g' :
  wf m -> quiet m -> RandomSingleActivation_step m g = Ok (m', g') ->
  exists nb, nb < num_agents m /\
    forall i a, agents m' !! i = Some a ->
      event a = INFECT -> i = nb /\ state a = INFECTED.
Proof.
  intros Hwf Hq Hs.
  apply RandomSingleActivation_step_wf in Hs
    as (self & nb & bi & br & Hself & Hnb & Hne & Hags & _); [|assumption].
  exists nb. split; [assumption|]. intros i a Ha. rewrite Hags in Ha.
  apply (activation_events (agents m) self nb bi br i a Hq Ha).
Qed.

End TickLemmas.

Section ModelStep.
Context {G : Type} `{RandomGen G}.

Lemma DiseaseModel_step_unfold m g m1 g1 :
  RandomSingleActivation_step (DiseaseModel_reset_events m) g = Ok (m1, g1) ->
  DiseaseModel_step m g =
    match intervention m1 with
    | Some iv => match Intervention_apply iv m1 with
                 | Ok m2 => Ok (DataCollector_collect m2, g1)
                 | Raise e => Raise e
                 end
    | None => Ok (DataCollector_collect m1, g1)
    end.
Proof.
  intros Hs. unfold DiseaseModel_step, bind. rewrite Hs.
  destruct (intervention m1) as [iv|]; [|reflexivity].
  unfold lift. destruct (Intervention_apply iv m1); reflexivity.
Qed.

Lemma DiseaseModel_step_sched m g m' g' :
  DiseaseModel_step m g = Ok (m', g') ->
  exists m1, RandomSingleActivation_step (DiseaseModel_reset_events m) g = Ok (m1, g').
Proof.
  unfold DiseaseModel_step. intros Hs.
  apply bind_Ok in Hs as (m1 & g1 & Hsched & Hs).
  apply bind_Ok in Hs as (m2 & g2 & Hiv & Hs).
  unfold ret in Hs. injection Hs as <- <-.
  exists m1. rewrite Hsched. f_equal. f_equal.
  destruct (intervention m1); unfold lift, ret in Hiv.
  - destruct (Intervention_apply i m1) eqn:E; [|discriminate].
    injection Hiv as _ ->. reflexivity.
  - injection Hiv as _ ->. reflexivity.
Qed.

Lemma Intervention_apply_wf_inv iv m m' :
  wf m -> Intervention_apply iv m = Ok m' ->
  m' = set_agents m (map (apply_agent iv (Z.of_nat (steps m) - 1)%Z) (agents m)) /\
  forall i a, agents m !! i = Some a -> event a = INFECT ->
    is_Some (df_Event (trace iv) (Z.of_nat (steps m) - 1, i)%Z).
Proof.
  intros Hwf Hok.
  set (tick := (Z.of_nat (steps m) - 1)%Z) in *.
  assert (Hall : forall i a, agents m !! i = Some a -> event a = INFECT ->
            is_Some (df_Event (trace iv) (tick, i))).
  { intros i a Ha Hev.
    destruct (df_Event (trace iv) (tick, i)) as [e|] eqn:E; [eauto|].
    rewrite (Intervention_apply_KeyError iv m i a Hwf Ha Hev E) in Hok.
    discriminate. }
  split; [|exact Hall].
  rewrite (Intervention_apply_Ok iv m Hwf Hall) in Hok.
  injection Hok as <-. reflexivity.
Qed.

(** The shape of a successful [Model.step] on a well-formed model. *)
Lemma DiseaseModel_step_spec m g m' g' :
  wf m -> DiseaseModel_step m g = Ok (m', g') ->
  exists m1 ags2,
    RandomSingleActivation_step (DiseaseModel_reset_events m) g = Ok (m1, g') /\
    ags2 = match intervention m with
           | Some iv => map (apply_agent iv (Z.of_nat (steps m))) (agents m1)
           | None => agents m1
           end /\
    m' = DataCollector_collect (set_agents m1 ags2).
Proof.
  intros Hwf Hs.
  destruct (DiseaseModel_step_sched _ _ _ _ Hs) as (m1 & Hsched).
  rewrite (DiseaseModel_step_unfold _ _ _ _ Hsched) in Hs.
  assert (Hwf0 : wf (DiseaseModel_reset_events m))
    by (eapply wf_same_frame; [eassumption|apply same_frame_reset]).
  destruct (RandomSingleActivation_step_wf _ _ _ _ Hwf0 Hsched)
    as (self & nb & bi & br & _ & _ & _ & _ & Hst & _ & _ & Hfr).
  assert (Hwf1 : wf m1) by (eapply wf_same_frame; eassumption).
  assert (Hiv : intervention m1 = intervention m) by apply Hfr.
  assert (Htick : (Z.of_nat (steps m1) - 1 = Z.of_nat (steps m))%Z)
    by (rewrite Hst; simpl; lia).
  exists m1. rewrite Hiv in Hs. destruct (intervention m) as [iv|].
  - destruct (Intervention_apply iv m1) as [m2|e] eqn:Eiv; [|discriminate].
    apply Intervention_apply_wf_inv in Eiv as [-> _]; [|assumption].
    rewrite Htick in Hs. injection Hs as <-.
    eexists. split; [exact Hsched|]. split; reflexivity.
  - injection Hs as <-. exists (agents m1).
    split; [exact Hsched|]. split; [reflexivity|]. destruct m1; reflexivity.
Qed.

End ModelStep.

(** ** Construction and collected records *)

Lemma init_lookup N ii pI pR iv i :
  i < N ->
  agents (DiseaseModel_init N ii pI pR iv) !! i
  = Some (if bool_decide (Z.of_nat i ∈ ii)
          then mkAgent i i INFECTED INFECT DEFAULT_SENDER
          else mkAgent i i HEALTHY NOTHING NO_CAUSE).
Proof.
  intros Hi. simpl. change (map ?f ?l) with (f <$> l).
  rewrite !list_lookup_fmap, lookup_seq_lt by assumption. simpl.
  destruct (bool_decide (Z.of_nat i ∈ ii)); reflexivity.
Qed.

Lemma init_length N ii pI pR iv : length (agents (DiseaseModel_init N ii pI pR iv)) = N.
Proof. simpl. rewrite !length_map. apply length_seq. Qed.

Lemma wf_init N ii pI pR iv : wf (DiseaseModel_init N ii pI pR iv).
Proof.
  split; [apply init_length|].
  intros i a Ha.
  assert (Hi : i < N) by (apply lookup_lt_Some in Ha; rewrite init_length in Ha; exact Ha).
  rewrite (init_lookup N ii pI pR iv i Hi) in Ha. injection Ha as <-.
  destruct (bool_decide (Z.of_nat i ∈ ii)); split; reflexivity.
Qed.

(** The row recorded for the agent registered at index [i]. *)
Lemma df_loc_records_from tick ags : forall k i a,
  (forall j b, ags !! j = Some b -> unique_id b = k + j) ->
  ags !! i = Some a ->
  df_loc (map (agent_record tick) ags) (tick, k + i) = Some (agent_record tick a).
Proof.
  unfold df_loc.
  induction ags as [|b ags IH]; intros k i a Hid Ha; [discriminate|].
  simpl. destruct i as [|i].
  - injection Ha as ->. rewrite bool_decide_eq_true_2; [reflexivity|].
    split; [reflexivity|]. apply (Hid 0 a). reflexivity.
  - rewrite bool_decide_eq_false_2.
    + replace (k + S i) with (S k + i) by lia. apply (IH (S k) i a); [|exact Ha].
      intros j c Hc. rewrite (Hid (S j) c Hc). lia.
    + simpl. intros [_ Hu]. rewrite (Hid 0 b eq_refl) in Hu. lia.
Qed.

Lemma df_loc_records tick m i a :
  wf m -> agents m !! i = Some a ->
  df_loc (map (agent_record tick) (agents m)) (tick, i) = Some (agent_record tick a).
Proof.
  intros [_ Hid] Ha. apply (df_loc_records_from tick (agents m) 0 i a); [|exact Ha].
  intros j b Hb. apply Hid. exact Hb.
Qed.

(** ** Entries of one tick *)

Lemma tick_ids_app t df1 df2 : tick_ids t (df1 ++ df2) = tick_ids t df1 ++ tick_ids t df2.
Proof. unfold tick_ids. rewrite filter_app. apply map_app. Qed.

Lemma tick_ids_records t tick ags :
  tick_ids t (map (agent_record tick) ags)
  = if decide (tick = t) then map unique_id ags else [].
Proof.
  unfold tick_ids. induction ags as [|a ags IH]; simpl.
  - destruct (decide (tick = t)); reflexivity.
  - rewrite filter_cons. simpl. destruct (decide (tick = t)) as [Heq|Hne].
    + simpl. rewrite IH. reflexivity.
    + exact IH.
Qed.

Lemma apply_agent_shape iv tick a :
  unique_id (apply_agent iv tick a) = unique_id a /\
  pos (apply_agent iv tick a) = pos a.
Proof. unfold apply_agent. destruct (bool_decide _); split; reflexivity. Qed.

Lemma apply_agent_quiet iv tick a :
  event a <> INFECT -> apply_agent iv tick a = a.
Proof.
  intros Hev. unfold apply_agent.
  rewrite bool_decide_eq_false_2; [reflexivity|]. intros [? _]. contradiction.
Qed.

Lemma apply_agent_event_ok iv tick N a :
  event_ok N (event a) (cause a) ->
  event_ok N (event (apply_agent iv tick a)) (cause (apply_agent iv tick a)).
Proof.
  intros Hok. unfold apply_agent. destruct (bool_decide _); [|exact Hok].
  simpl. split; [discriminate|reflexivity].
Qed.

Lemma same_frame_map m f :
  (forall a, unique_id (f a) = unique_id a /\ pos (f a) = pos a) ->
  same_frame m (set_agents m (map f (agents m))).
Proof.
  intros Hf. unfold same_frame; simpl. repeat split; try reflexivity.
  - apply length_map.
  - intros i a' Ha'. change (map ?f ?l) with (f <$> l) in Ha'.
    rewrite list_lookup_fmap in Ha'.
    destruct (agents m !! i) as [a|] eqn:Ea; simpl in Ha'; [|discriminate].
    injection Ha' as <-. exists a. destruct (Hf a). auto.
Qed.

Section TickRecords.
Context {G : Type} `{RandomGen G}.

(** Everything a successful [Model.step] on a well-formed model does, in
    terms of the agent [self] the scheduler activated and the neighbour
    [nb] it chose. *)
Lemma DiseaseModel_step_records m g m' g' :
  wf m -> DiseaseModel_step m g = Ok (m', g') ->
  exists self g0 ma nb rows,
    choice (seq 0 (length (agents m))) g = Ok (self, g0) /\
    DiseaseAgent_step self (DiseaseModel_reset_events m) g0 = Ok (ma, g') /\
    self < num_agents m /\ nb < num_agents m /\ nb <> self /\
    wf m' /\ same_frame m m' /\ steps m' = steps m + 1 /\
    datacollector m' = datacollector m ++ rows /\
    rows = map (agent_record (Z.of_nat (steps m))) (agents m') /\
    Forall (fun r => event_ok self (rEvent r) (rCause r)) rows /\
    forall j a, j <> self -> j <> nb -> agents m !! j = Some a ->
      rows !! j = Some (mkRow (Z.of_nat (steps m)) j (state a) NOTHING NO_CAUSE).
Proof.
  intros Hwf Hs.
  destruct (DiseaseModel_step_spec m g m' g' Hwf Hs) as (m1 & ags2 & Hsched & Hags2 & ->).
  assert (Hwf0 : wf (DiseaseModel_reset_events m))
    by (eapply wf_same_frame; [eassumption|apply same_frame_reset]).
  destruct (RandomSingleActivation_step_wf_choice _ _ _ _ Hwf0 Hsched)
    as (self & g0 & ma & nb & bi & br & Hch & Hstep & Hself & Hnb & Hne
        & Hags & Hst & _ & Hdc & Hfr).
  assert (Hpost : forall i a, agents m1 !! i = Some a ->
            event_ok self (event a) (cause a)).
  { intros i a Ha. rewrite Hags in Ha.
    apply (activation_events _ self nb bi br i a (reset_quiet m) Ha). }
  simpl in Hself, Hnb, Hst, Hdc.
  assert (Hlen0 : length (agents (DiseaseModel_reset_events m)) = length (agents m))
    by (simpl; apply length_map).
  rewrite Hlen0 in Hch.
  assert (Hfr2 : same_frame m1 (set_agents m1 ags2)).
  { rewrite Hags2. destruct (intervention m) as [iv|].
    - apply same_frame_map. intros a. apply apply_agent_shape.
    - replace (set_agents m1 (agents m1)) with m1 by (destruct m1; reflexivity).
      apply same_frame_refl. }
  assert (Hfr_all : same_frame m (DataCollector_collect (set_agents m1 ags2))).
  { eapply same_frame_trans; [apply same_frame_reset|].
    eapply same_frame_trans; [exact Hfr|].
    eapply same_frame_trans; [exact Hfr2|apply same_frame_collect]. }
  assert (Htick : (Z.of_nat (steps m1) - 1 = Z.of_nat (steps m))%Z)
    by (rewrite Hst; lia).
  exists self, g0, ma, nb, (map (agent_record (Z.of_nat (steps m))) ags2).
  split; [exact Hch|]. split; [exact Hstep|].
  split; [exact Hself|]. split; [exact Hnb|]. split; [exact Hne|].
  split; [apply (wf_same_frame m); [exact Hwf|exact Hfr_all]|].
  split; [exact Hfr_all|]. split; [simpl; exact Hst|].
  split; [simpl; rewrite Hdc, Htick; reflexivity|].
  split; [reflexivity|].
  assert (Hags2_pt : forall j a2, ags2 !! j = Some a2 ->
            exists a1, agents m1 !! j = Some a1 /\
              (a2 = a1 \/ exists iv, a2 = apply_agent iv (Z.of_nat (steps m)) a1)).
  { intros j a2 Ha2. rewrite Hags2 in Ha2. destruct (intervention m) as [iv|].
    - change (map ?f ?l) with (f <$> l) in Ha2. rewrite list_lookup_fmap in Ha2.
      destruct (agents m1 !! j) as [a1|]; simpl in Ha2; [|discriminate].
      injection Ha2 as <-. eauto.
    - eauto. }
  split.
  - apply Forall_forall. intros r Hr.
    apply list_elem_of_fmap in Hr as (a2 & -> & Ha2).
    apply list_elem_of_lookup in Ha2 as (j & Ha2).
    destruct (Hags2_pt j a2 Ha2) as (a1 & Ha1 & Hcase).
    pose proof (Hpost j a1 Ha1) as Hok. simpl.
    destruct Hcase as [->|(iv & ->)]; [exact Hok|].
    apply apply_agent_event_ok. exact Hok.
  - intros j a Hj1 Hj2 Ha.
    assert (Ha1 : agents m1 !! j = Some (reset_agent a)).
    { rewrite Hags. simpl.
      assert (Hm : map reset_agent (agents m) !! j = Some (reset_agent a)).
      { change (map ?f ?l) with (f <$> l). rewrite list_lookup_fmap, Ha. reflexivity. }
      destruct br, bi; simpl; rewrite ?list_lookup_alter_ne by congruence; exact Hm. }
    assert (Ha2 : ags2 !! j = Some (reset_agent a)).
    { rewrite Hags2. destruct (intervention m) as [iv|]; [|exact Ha1].
      change (map ?f ?l) with (f <$> l). rewrite list_lookup_fmap, Ha1. simpl.
      rewrite apply_agent_quiet; [reflexivity|]. simpl. discriminate. }
    change (map ?f ?l) with (f <$> l). rewrite list_lookup_fmap, Ha2. simpl.
    unfold agent_record. simpl.
    destruct Hwf as [_ Hid]. destruct (Hid j a Ha) as [-> _]. reflexivity.
Qed.

Lemma run_loop_ticks n : forall m g m' g',
  wf m -> run_loop n m g = Ok (m', g') ->
  wf m' /\ same_frame m m' /\ steps m' = steps m + n /\
  forall t : nat,
    tick_ids (Z.of_nat t) (datacollector m')
    = tick_ids (Z.of_nat t) (datacollector m)
      ++ (if decide (steps m <= t < steps m + n)
          then seq 0 (num_agents m) else []).
Proof.
  induction n as [|n IH]; intros m g m' g' Hwf Hrun; simpl in Hrun.
  - unfold ret in Hrun. injection Hrun as <- <-.
    split; [assumption|]. split; [apply same_frame_refl|]. split; [lia|].
    intros t. destruct (decide (steps m <= t < steps m + 0)); [lia|].
    rewrite app_nil_r. reflexivity.
  - apply bind_Ok in Hrun as (ma & ga & Hstep & Hrun).
    destruct (DiseaseModel_step_records m g ma ga Hwf Hstep)
      as (self & g0 & mb & nb & rows & _ & _ & _ & _ & _ & Hwfa & Hfra & Hsta
          & Hdca & Hrows & _).
    destruct (IH ma ga m' g' Hwfa Hrun) as (Hwf' & Hfr' & Hst' & Hticks).
    split; [assumption|]. split; [eapply same_frame_trans; eassumption|].
    split; [lia|].
    intros t. rewrite Hticks, Hdca, tick_ids_app, Hrows, tick_ids_records.
    rewrite (wf_ids ma Hwfa). rewrite <- app_assoc. f_equal.
    assert (Hn : num_agents ma = num_agents m) by apply Hfra.
    rewrite Hn, Hsta.
    destruct (decide (Z.of_nat (steps m) = Z.of_nat t)) as [Heq|Hneq];
      destruct (decide (steps m + 1 <= t < steps m + 1 + n));
      destruct (decide (steps m <= t < steps m + S n));
      simpl; try reflexivity; try lia.
    rewrite app_nil_r. reflexivity.
Qed.

End TickRecords.

(** ** An agent without neighbours *)

Section NoNeighbour.
Context {G : Type} `{RandomGen G}.

Lemma no_candidates m self :
  wf m -> self < num_agents m ->
  (forall nb,
      nb ∈ get_cell_list_contents m (get_neighbors m (pos (agents m !!! self))) ->
      nb = self) ->
  filter (fun j => j <> self) (seq 0 (num_agents m)) = [].
Proof.
  intros Hwf Hs Hnone.
  rewrite (neighbour_agents_wf m self Hwf Hs) in Hnone.
  destruct (filter (fun j => j <> self) (seq 0 (num_agents m))) as [|nb l] eqn:E;
    [reflexivity|].
  assert (Hin : nb ∈ filter (fun j => j <> self) (seq 0 (num_agents m)))
    by (rewrite E; left).
  apply list_elem_of_filter in Hin as [Hne _].
  exfalso. apply Hne. apply Hnone. left.
Qed.

Lemma DiseaseAgent_step_no_candidates m self g :
  wf m -> self < num_agents m ->
  filter (fun j => j <> self) (seq 0 (num_agents m)) = [] ->
  DiseaseAgent_step self m g = Raise IndexError.
Proof.
  intros Hwf Hs Hempty. unfold DiseaseAgent_step, bind, random.
  destruct (rng_random g) as [r1 g1]. destruct (rng_random g1) as [r2 g2].
  rewrite (neighbour_agents_wf m self Hwf Hs), Hempty. reflexivity.
Qed.

Lemma DiseaseModel_step_no_candidates m self g g0 :
  wf m -> self < num_agents m ->
  filter (fun j => j <> self) (seq 0 (num_agents m)) = [] ->
  choice (seq 0 (length (agents m))) g = Ok (self, g0) ->
  DiseaseModel_step m g = Raise IndexError.
Proof.
  intros Hwf Hs Hempty Hch.
  unfold DiseaseModel_step, bind, RandomSingleActivation_step, bind.
  assert (Hlen : length (agents (DiseaseModel_reset_events m)) = length (agents m))
    by (simpl; apply length_map).
  rewrite Hlen, Hch.
  rewrite DiseaseAgent_step_no_candidates; [reflexivity| |exact Hs|exact Hempty].
  eapply wf_same_frame; [eassumption|apply same_frame_reset].
Qed.

(** A run with a single agent and at least one tick always ends in
    [IndexError]. *)
Lemma run_single_agent_raises
    initInfected percInfect percRecover numTicks name intervention (g : G) :
  run 1 initInfected percInfect percRecover (S numTicks) name intervention g
  = Raise IndexError.
Proof.
  unfold run, bind, seed. simpl run_loop. unfold bind.
  set (m := DiseaseModel_init 1 initInfected percInfect percRecover intervention).
  assert (Hstep : forall g0, DiseaseModel_step m g0 = Raise IndexError).
  { intros g0.
    destruct (choice (seq 0 (length (agents m))) g0) as [[self g1]|e] eqn:Ech.
    - assert (Hself : self < 1).
      { apply choice_Ok in Ech as (k & _ & Hk). apply lookup_seq in Hk.
        unfold m in Hk. rewrite init_length in Hk. lia. }
      assert (self = 0) by lia. subst self.
      apply (DiseaseModel_step_no_candidates m 0 g0 g1);
        [apply wf_init|exact Hself|reflexivity|exact Ech].
    - unfold DiseaseModel_step, bind, RandomSingleActivation_step, bind.
      assert (Hlen : length (agents (DiseaseModel_reset_events m)) = length (agents m))
        by reflexivity.
      rewrite Hlen, Ech. f_equal.
      unfold choice in Ech. simpl in Ech.
      destruct (rng_randbelow 1 g0) as [i g2]. destruct i; [discriminate|].
      simpl in Ech. congruence. }
  rewrite Hstep. reflexivity.
Qed.

End NoNeighbour.

(** A difference with the baseline lies within the baseline. *)
Lemma causal_diff_subset (orig other : list nat) :
  causal_diff orig other ⊆ list_to_set orig.
Proof.
  unfold causal_diff. intros x Hx.
  apply elem_of_difference in Hx as [Hx _]. exact Hx.
Qed.

(** ** Runs that return

    With at least two agents, no intervention and a generator whose
    [choice] index is within the sequence, every tick returns, and so does
    the run. *)

Section Returns.
Context {G : Type} `{RandomGen G}.
Hypothesis randbelow_lt : forall n (g : G), 0 < n -> (rng_randbelow n g).1 < n.

Lemma choice_returns {A} (sq : list A) g :
  sq <> [] -> exists x g', choice sq g = Ok (x, g').
Proof.
  intros Hne. unfold choice. destruct sq as [|y sq]; [contradiction|].
  pose proof (randbelow_lt (length (y :: sq)) g ltac:(simpl; lia)) as Hlt.
  destruct (rng_randbelow (length (y :: sq)) g) as [i g1]. simpl in Hlt.
  destruct (lookup_lt_is_Some_2 (y :: sq) i Hlt) as [x Hx].
  rewrite Hx. eauto.
Qed.

Lemma DiseaseAgent_step_returns m self g :
  wf m -> 2 <= num_agents m -> self < num_agents m ->
  exists m' g', DiseaseAgent_step self m g = Ok (m', g').
Proof.
  intros Hwf HN Hs. unfold DiseaseAgent_step, bind, random, ret.
  destruct (rng_random g) as [r1 g1]. destruct (rng_random g1) as [r2 g2].
  rewrite (neighbour_agents_wf m self Hwf Hs).
  destruct (choice_returns (filter (fun j => j <> self) (seq 0 (num_agents m))) g2)
    as (nb & g3 & Hch).
  - set (j := if decide (self = 0) then 1 else 0).
    assert (Hj : j ∈ filter (fun j => j <> self) (seq 0 (num_agents m))).
    { apply list_elem_of_filter. unfold j. split.
      - destruct (decide (self = 0)); lia.
      - apply elem_of_seq. destruct (decide (self = 0)); lia. }
    intros Hnil. rewrite Hnil in Hj. apply elem_of_nil in Hj. exact Hj.
  - rewrite Hch. eauto.
Qed.

Lemma DiseaseModel_step_returns m g :
  wf m -> 2 <= num_agents m -> intervention m = None ->
  exists m' g', DiseaseModel_step m g = Ok (m', g').
Proof.
  intros Hwf HN Hiv.
  assert (Hwf0 : wf (DiseaseModel_reset_events m))
    by (eapply wf_same_frame; [eassumption|apply same_frame_reset]).
  assert (Hsched : exists m1 g1,
            RandomSingleActivation_step (DiseaseModel_reset_events m) g = Ok (m1, g1)).
  { unfold RandomSingleActivation_step, bind, ret.
    destruct (choice_returns (seq 0 (length (agents (DiseaseModel_reset_events m)))) g)
      as (self & g0 & Hch).
    - destruct Hwf0 as [-> _]. simpl. destruct (num_agents m); [lia|discriminate].
    - rewrite Hch.
      assert (Hself : self < num_agents (DiseaseModel_reset_events m)).
      { apply choice_Ok in Hch as (k & _ & Hk). apply lookup_seq in Hk.
        destruct Hwf0 as [Hl _]. lia. }
      destruct (DiseaseAgent_step_returns _ self g0 Hwf0 HN Hself) as (ma & ga & Hstep).
      rewrite Hstep. eauto. }
  destruct Hsched as (m1 & g1 & Hsched).
  rewrite (DiseaseModel_step_unfold _ _ _ _ Hsched).
  destruct (RandomSingleActivation_step_wf _ _ _ _ Hwf0 Hsched)
    as (_ & _ & _ & _ & _ & _ & _ & _ & _ & _ & _ & Hfr).
  assert (Hiv1 : intervention m1 = None) by (destruct Hfr as (_&_&_&->&_); exact Hiv).
  rewrite Hiv1. eauto.
Qed.

Lemma run_loop_returns n : forall m g,
  wf m -> 2 <= num_agents m -> intervention m = None ->
  exists m' g', run_loop n m g = Ok (m', g').
Proof.
  induction n as [|n IH]; intros m g Hwf HN Hiv; simpl.
  - unfold ret. eauto.
  - destruct (DiseaseModel_step_returns m g Hwf HN Hiv) as (ma & ga & Hstep).
    unfold bind. rewrite Hstep.
    destruct (DiseaseModel_step_records m g ma ga Hwf Hstep)
      as (_ & _ & _ & _ & _ & _ & _ & _ & _ & _ & Hwfa & Hfra & _).
    apply IH; [exact Hwfa| |].
    + destruct Hfra as (-> & _). exact HN.
    + destruct Hfra as (_&_&_&->&_). exact Hiv.
Qed.

Lemma run_returns numAgents initInfected percInfect percRecover numTicks name g :
  2 <= numAgents ->
  exists df g',
    run numAgents initInfected percInfect percRecover numTicks name None g = Ok (df, g').
Proof.
  intros HN. unfold run, bind, seed, ret.
  destruct (run_loop_returns numTicks
              (DiseaseModel_init numAgents initInfected percInfect percRecover None)
              (rng_seed 1) (wf_init _ _ _ _ _) HN eq_refl) as (m' & g' & Hloop).
  rewrite Hloop. eauto.
Qed.

End Returns.

(** ** The experiment driver *)

Section HarnessLemmas.
Context {G : Type} `{RandomGen G}.

(** What [main] returns, for any generator: [wo0] and [wo1] are the traces
    of the plain runs without seed 0 and without seed 1, [iv0] and [iv1]
    those of the runs under the intervention.  Both entries of the second
    experiment are computed from [wo1], the trace the first experiment's
    last run left in [trace]. *)
Lemma main_spec g rel g' :
  main g = Ok (rel, g') ->
  exists orig wo0 wo1 iv0 iv1,
    value_of (run 10 [0; 1]%Z (1 # 2) (1 # 20) 100 "tr_base" None g) = Some orig /\
    value_of (run 10 [1]%Z (1 # 2) (1 # 20) 100 "tr_simpleCF1_wo0" None g) = Some wo0 /\
    value_of (run 10 [0]%Z (1 # 2) (1 # 20) 100 "tr_simpleCF1_wo1" None g) = Some wo1 /\
    value_of (run 10 [1]%Z (1 # 2) (1 # 20) 100 "tr_intervCF_wo0"
                  (Some (mkIntervention orig)) g) = Some iv0 /\
    value_of (run 10 [0]%Z (1 # 2) (1 # 20) 100 "tr_intervCF_wo1"
                  (Some (mkIntervention orig)) g) = Some iv1 /\
    rel = <["tr_intervCF_wo1" := final_diff orig iv1]>
          (<["tr_intervCF_wo0" := final_diff orig iv0]>
          (<["tr_simpleCF2_wo1" := final_diff orig wo1]>
          (<["tr_simpleCF2_wo0" := final_diff orig wo1]>
          (<["tr_simpleCF1_wo1" := final_diff orig wo1]>
          (<["tr_simpleCF1_wo0" := final_diff orig wo0]> ∅))))).
Proof.
  unfold main, main_with. intros Hs.
  apply bind_Ok in Hs as (orig & g1 & Horig & Hs).
  apply bind_Ok in Hs as (st1 & g2 & H1 & Hs).
  apply bind_Ok in Hs as (st2 & g3 & H2 & Hs).
  apply bind_Ok in Hs as (st3 & g4 & H3 & Hs).
  unfold ret in Hs. injection Hs as <- <-.
  cbn [for_each] in H1, H2, H3.
  apply bind_Ok in H1 as (s & gs & Ha & H1).
  apply bind_Ok in Ha as (wo0 & ga & Hwo0 & Ha). unfold ret in Ha. injection Ha as <- <-.
  apply bind_Ok in H1 as (s & gs & Ha & H1).
  apply bind_Ok in Ha as (wo1 & gb & Hwo1 & Ha). unfold ret in Ha. injection Ha as <- <-.
  unfold ret in H1. injection H1 as <- <-.
  apply bind_Ok in H2 as (s & gs & Ha & H2).
  apply bind_Ok in Ha as (x0 & gc & Hx0 & Ha). unfold ret in Ha. injection Ha as <- <-.
  apply bind_Ok in H2 as (s & gs & Ha & H2).
  apply bind_Ok in Ha as (x1 & gd & Hx1 & Ha). unfold ret in Ha. injection Ha as <- <-.
  unfold ret in H2. injection H2 as <- <-.
  apply bind_Ok in H3 as (s & gs & Ha & H3).
  apply bind_Ok in Ha as (iv0 & ge & Hiv0 & Ha). unfold ret in Ha. injection Ha as <- <-.
  apply bind_Ok in H3 as (s & gs & Ha & H3).
  apply bind_Ok in Ha as (iv1 & gf & Hiv1 & Ha). unfold ret in Ha. injection Ha as <- <-.
  unfold ret in H3. injection H3 as <- <-.
  exists orig, wo0, wo1, iv0, iv1.
  split; [exact (f_equal value_of Horig)|].
  split; [exact (f_equal value_of Hwo0)|].
  split; [exact (f_equal value_of Hwo1)|].
  split; [exact (f_equal value_of Hiv0)|].
  split; [exact (f_equal value_of Hiv1)|].
  reflexivity.
Qed.

(** The second half of C2: every relation [main] reports lies within the
    baseline's final infected set. *)
Lemma main_subset g rel g' name rl :
  main g = Ok (rel, g') -> rel !! name = Some rl ->
  exists orig,
    value_of (run 10 [0; 1]%Z (1 # 2) (1 # 20) 100 "tr_base" None g) = Some orig /\
    rl ⊆ list_to_set (infected_in_final orig 100).
Proof.
  intros Hmain Hl.
  destruct (main_spec g rel g' Hmain) as (orig & wo0 & wo1 & iv0 & iv1 & Ho & _ & _ & _ & _ & ->).
  exists orig. split; [exact Ho|].
  repeat (apply lookup_insert_Some in Hl as [[_ <-]|[_ Hl]];
          [apply causal_diff_subset|]).
  rewrite lookup_empty in Hl. discriminate.
Qed.

End HarnessLemmas.

(** * The properties of the specification *)

Section Claims.
Context {G : Type} `{RandomGen G}.

(** C1 (intervention suppression).  In a tick of a model configured with
    an intervention, take an agent whose event after the scheduler's
    activation is [INFECT] and whose coordinate (current tick, id) has an
    entry in the baseline trace.  Then [Model.step] returns, and the
    entry it records for that coordinate is: when the baseline event is
    not [INFECT], event [RECOVER], state [HEALTHY] and cause [-100]
    ([recover()] ran before the capture); when the baseline event is
    [INFECT], the agent's infection as the activation left it (state
    [INFECTED], event [INFECT], its cause). *)
Theorem intervention_suppression m iv g m1 g1 i a e :
  wf m -> intervention m = Some iv ->
  RandomSingleActivation_step (DiseaseModel_reset_events m) g = Ok (m1, g1) ->
  agents m1 !! i = Some a -> event a = INFECT ->
  df_Event (trace iv) (Z.of_nat (steps m), i) = Some e ->
  exists m' rows,
    DiseaseModel_step m g = Ok (m', g1) /\
    datacollector m' = datacollector m ++ rows /\
    df_loc rows (Z.of_nat (steps m), i)
    = Some (if decide (e = INFECT)
            then mkRow (Z.of_nat (steps m)) i INFECTED INFECT (cause a)
            else mkRow (Z.of_nat (steps m)) i HEALTHY RECOVER NO_CAUSE).
Proof.
  intros Hwf Hiv Hsched Ha Hev Hbase.
  assert (Hwf0 : wf (DiseaseModel_reset_events m))
    by (eapply wf_same_frame; [eassumption|apply same_frame_reset]).
  destruct (RandomSingleActivation_step_wf _ _ _ _ Hwf0 Hsched)
    as (self & nb0 & bi & br & _ & _ & _ & _ & Hst & _ & Hdc & Hfr).
  assert (Hwf1 : wf m1) by (eapply wf_same_frame; eassumption).
  assert (Hiv1 : intervention m1 = Some iv)
    by (destruct Hfr as (_&_&_&->&_); exact Hiv).
  assert (Htick : (Z.of_nat (steps m1) - 1 = Z.of_nat (steps m))%Z)
    by (rewrite Hst; simpl; lia).
  destruct (post_activation_events _ _ _ _ Hwf0 (reset_quiet m) Hsched)
    as (nb & _ & Hpost).
  destruct (Hpost i a Ha Hev) as [Hi Hstate].
  destruct Hwf1 as [Hlen1 Hid1]. destruct (Hid1 i a Ha) as [Hu _].
  set (tick := Z.of_nat (steps m)) in *.
  set (ags2 := map (apply_agent iv tick) (agents m1)).
  exists (DataCollector_collect (set_agents m1 ags2)), (map (agent_record tick) ags2).
  split; [|split].
  - rewrite (DiseaseModel_step_unfold _ _ _ _ Hsched), Hiv1.
    rewrite Intervention_apply_Ok; [|split; assumption|].
    + rewrite Htick. reflexivity.
    + intros j b Hb Hevb. destruct (Hpost j b Hb Hevb) as [Hj _]. rewrite Htick.
      replace j with i by congruence. rewrite Hbase. eauto.
  - unfold DataCollector_collect. simpl. rewrite Hdc, Htick. reflexivity.
  - assert (Hrow : agent_record tick (apply_agent iv tick a)
                   = if decide (e = INFECT)
                     then mkRow tick i INFECTED INFECT (cause a)
                     else mkRow tick i HEALTHY RECOVER NO_CAUSE).
    { unfold apply_agent. rewrite Hu, Hbase.
      destruct (decide (e = INFECT)) as [->|Hne].
      + rewrite bool_decide_eq_false_2 by (intros [_ Hn]; apply Hn; reflexivity).
        unfold agent_record. rewrite Hu, Hstate, Hev. reflexivity.
      + rewrite bool_decide_eq_true_2 by (split; [assumption|congruence]).
        unfold agent_record. simpl. rewrite Hu. reflexivity. }
    rewrite <- Hrow.
    apply (df_loc_records_from tick ags2 0 i (apply_agent iv tick a)).
    + intros j b' Hb'. unfold ags2 in Hb'.
      change (map ?f ?l) with (f <$> l) in Hb'.
      rewrite list_lookup_fmap in Hb'.
      destruct (agents m1 !! j) as [b|] eqn:Eb; simpl in Hb'; [|discriminate].
      injection Hb' as <-. destruct (Hid1 j b Eb) as [Hub _].
      unfold apply_agent. destruct (bool_decide _); simpl; auto.
    + unfold ags2. change (map ?f ?l) with (f <$> l).
      rewrite list_lookup_fmap, Ha. reflexivity.
Qed.

(** C4, as the code has it.  In a tick of a model configured with an
    intervention, if an agent's event after the scheduler's activation is
    [INFECT] and the baseline trace has no entry for the coordinate
    (current tick, id), the lookup raises [KeyError]; the exception
    leaves [Model.step], which records nothing for the tick. *)
Theorem missing_baseline_entry_raises m iv g m1 g1 i a :
  wf m -> intervention m = Some iv ->
  RandomSingleActivation_step (DiseaseModel_reset_events m) g = Ok (m1, g1) ->
  agents m1 !! i = Some a -> event a = INFECT ->
  df_Event (trace iv) (Z.of_nat (steps m), i) = None ->
  DiseaseModel_step m g = Raise KeyError.
Proof.
  intros Hwf Hiv Hsched Ha Hev Hbase.
  assert (Hwf0 : wf (DiseaseModel_reset_events m))
    by (eapply wf_same_frame; [eassumption|apply same_frame_reset]).
  destruct (RandomSingleActivation_step_wf _ _ _ _ Hwf0 Hsched)
    as (self & nb0 & bi & br & _ & _ & _ & _ & Hst & _ & _ & Hfr).
  assert (Hwf1 : wf m1) by (eapply wf_same_frame; eassumption).
  assert (Hiv1 : intervention m1 = Some iv)
    by (destruct Hfr as (_&_&_&->&_); exact Hiv).
  assert (Htick : (Z.of_nat (steps m1) - 1 = Z.of_nat (steps m))%Z)
    by (rewrite Hst; simpl; lia).
  rewrite (DiseaseModel_step_unfold _ _ _ _ Hsched), Hiv1.
  rewrite (Intervention_apply_KeyError iv m1 i a Hwf1 Ha Hev); [reflexivity|].
  rewrite Htick. exact Hbase.
Qed.

(** C6 (one activation).  The acting agent is [INFECTED], both draws fall
    below their probabilities and the chosen neighbour is not [INFECTED].
    The candidates for the choice are all the other agents, whatever
    their state; the activation returns, the neighbour ends it
    [INFECTED] with event [INFECT] and the acting agent's id as cause,
    and the acting agent ends it [HEALTHY] with event [RECOVER]: both
    checks saw its state from before the step, and its recovery does not
    take back the infection it delivered.  No other agent changes. *)
Theorem infect_then_recover m self g r_inf g1 r_rec g2 nb g3 a_self a_nb :
  wf m ->
  agents m !! self = Some a_self -> state a_self = INFECTED ->
  rng_random g = (r_inf, g1) -> rng_random g1 = (r_rec, g2) ->
  choice (get_cell_list_contents m (get_neighbors m (pos a_self))) g2 = Ok (nb, g3) ->
  agents m !! nb = Some a_nb -> state a_nb <> INFECTED ->
  (r_inf < percInfect m)%Q -> (r_rec < percRecover m)%Q ->
  get_cell_list_contents m (get_neighbors m (pos a_self))
  = filter (fun j => j <> self) (seq 0 (num_agents m)) /\
  exists m',
    DiseaseAgent_step self m g = Ok (m', g3) /\
    agents m' !! nb = Some (mkAgent nb nb INFECTED INFECT (Z.of_nat self)) /\
    agents m' !! self = Some (mkAgent self self HEALTHY RECOVER NO_CAUSE) /\
    forall j, j <> nb -> j <> self -> agents m' !! j = agents m !! j.
Proof.
  intros Hwf Hself Hst Hri Hrr Hch Hnb Hstnb Hpi Hpr.
  assert (Hs : self < num_agents m)
    by (apply lookup_lt_Some in Hself; destruct Hwf; lia).
  pose proof (list_lookup_total_correct _ _ _ Hself) as Htself.
  pose proof (list_lookup_total_correct _ _ _ Hnb) as Htnb.
  pose proof (neighbour_agents_wf m self Hwf Hs) as Hnbrs.
  rewrite Htself in Hnbrs. split; [exact Hnbrs|].
  assert (Hne : nb <> self).
  { apply choice_Ok in Hch as (k & _ & Hk). rewrite Hnbrs in Hk.
    apply list_elem_of_lookup_2 in Hk. apply list_elem_of_filter in Hk as [Hk _].
    exact Hk. }
  destruct Hwf as [Hlen Hid].
  destruct (Hid self a_self Hself) as [Hus Hps].
  destruct (Hid nb a_nb Hnb) as [Hun Hpn].
  exists (DiseaseAgent_recover self
            (DiseaseAgent_infect nb (Z.of_nat (unique_id a_self)) m)).
  split; [|split; [|split]].
  - unfold DiseaseAgent_step, bind, random, ret.
    rewrite Hri, Hrr, Htself, Hch, Htnb.
    rewrite (bool_decide_eq_true_2 _ Hst).
    rewrite (proj2 (Qltb_lt _ _) Hpi).
    rewrite (bool_decide_eq_false_2 _ Hstnb). simpl.
    rewrite list_lookup_total_alter_ne by exact Hne.
    rewrite Htself, (bool_decide_eq_true_2 _ Hst).
    rewrite (proj2 (Qltb_lt _ _) Hpr). reflexivity.
  - simpl. rewrite list_lookup_alter_ne by congruence.
    rewrite list_lookup_alter_eq, Hnb. simpl.
    unfold infect_agent. rewrite Hun, Hpn, Hus. reflexivity.
  - simpl. rewrite list_lookup_alter_eq.
    rewrite list_lookup_alter_ne by exact Hne. rewrite Hself. simpl.
    unfold recover_agent. rewrite Hus, Hps. reflexivity.
  - intros j Hj1 Hj2. simpl.
    rewrite !list_lookup_alter_ne by congruence. reflexivity.
Qed.

(** C9 (no eligible neighbour).  When the candidates for the neighbour
    choice of an agent hold no agent other than itself, which in the
    complete graph means there is none at all, its activation raises
    [IndexError] from [random.choice]; when the scheduler activates that
    agent the exception leaves [Model.step]. *)
Theorem no_neighbour_raises m self :
  wf m -> self < num_agents m ->
  (forall nb,
      nb ∈ get_cell_list_contents m (get_neighbors m (pos (agents m !!! self))) ->
      nb = self) ->
  (forall g, DiseaseAgent_step self m g = Raise IndexError) /\
  (forall g g0, choice (seq 0 (length (agents m))) g = Ok (self, g0) ->
                DiseaseModel_step m g = Raise IndexError).
Proof.
  intros Hwf Hs Hnone.
  pose proof (no_candidates m self Hwf Hs Hnone) as Hempty.
  split.
  - intros g. apply DiseaseAgent_step_no_candidates; assumption.
  - intros g g0 Hch. eapply DiseaseModel_step_no_candidates; eassumption.
Qed.

(** C7 (tick completeness).  Every successful [Model.step] on a
    well-formed model activates one agent (one [DiseaseAgent.step], on
    the agent the scheduler drew), advances the tick counter by one and
    appends to the trace one entry per agent, keyed by the tick just
    completed; the agents that neither acted nor were chosen as
    neighbour are recorded with event [NOTHING].  Hence in the trace of a
    run of [numTicks] steps the entries with tick component [t] are, for
    every [t < numTicks], one for each of the [numAgents] agents, and
    there are none for any other [t]. *)
Theorem tick_completeness :
  (forall m g m' g',
      wf m -> DiseaseModel_step m g = Ok (m', g') ->
      exists self g0 ma nb rows,
        choice (seq 0 (length (agents m))) g = Ok (self, g0) /\
        DiseaseAgent_step self (DiseaseModel_reset_events m) g0 = Ok (ma, g') /\
        steps m' = steps m + 1 /\
        datacollector m' = datacollector m ++ rows /\
        map (fun r => (Step r, AgentID r)) rows
        = map (fun i => (Z.of_nat (steps m), i)) (seq 0 (num_agents m)) /\
        forall j a, j <> self -> j <> nb -> agents m !! j = Some a ->
          rows !! j = Some (mkRow (Z.of_nat (steps m)) j (state a) NOTHING NO_CAUSE))
  /\
  (forall numAgents initInfected percInfect percRecover numTicks name
          intervention g df g',
      run numAgents initInfected percInfect percRecover numTicks name
          intervention g = Ok (df, g') ->
      forall t : nat,
        tick_ids (Z.of_nat t) df
        = if decide (t < numTicks) then seq 0 numAgents else []).
Proof.
  split.
  - intros m g m' g' Hwf Hs.
    destruct (DiseaseModel_step_records m g m' g' Hwf Hs)
      as (self & g0 & ma & nb & rows & Hch & Hstep & _ & _ & _ & Hwf' & Hfr & Hst
          & Hdc & Hrows & _ & Hby).
    exists self, g0, ma, nb, rows.
    repeat (split; [assumption|]). split; [|exact Hby].
    rewrite Hrows, map_map. simpl.
    assert (Hn : num_agents m' = num_agents m) by apply Hfr.
    rewrite <- Hn, <- (wf_ids m' Hwf'), map_map. reflexivity.
  - intros N ii pI pR T name iv g df g' Hrun.
    unfold run in Hrun.
    apply bind_Ok in Hrun as ([] & gs & _ & Hrun).
    apply bind_Ok in Hrun as (m' & g1 & Hloop & Hrun).
    unfold ret in Hrun. injection Hrun as <- <-.
    destruct (run_loop_ticks T _ _ _ _ (wf_init N ii pI pR iv) Hloop)
      as (_ & _ & _ & Hticks).
    intros t. rewrite Hticks. simpl.
    repeat case_decide; try reflexivity; lia.
Qed.

(** C10 (cause and event).  In every entry [Model.step] records on a
    well-formed model, the cause is the no-cause value [-100] exactly
    when the event is not [INFECT]; the cause of an [INFECT] entry is the
    id of the agent the scheduler activated in the tick, the infecting
    agent, which is an id of the population. *)
Theorem cause_matches_event m g m' g' :
  wf m -> DiseaseModel_step m g = Ok (m', g') ->
  exists self g0 rows,
    choice (seq 0 (length (agents m))) g = Ok (self, g0) /\
    self < num_agents m /\
    datacollector m' = datacollector m ++ rows /\
    length rows = num_agents m /\
    forall r, r ∈ rows ->
      (rCause r = NO_CAUSE <-> rEvent r <> INFECT) /\
      (rEvent r = INFECT -> rCause r = Z.of_nat self).
Proof.
  intros Hwf Hs.
  destruct (DiseaseModel_step_records m g m' g' Hwf Hs)
    as (self & g0 & ma & nb & rows & Hch & _ & Hself & _ & _ & Hwf' & Hfr & _
        & Hdc & Hrows & Hall & _).
  exists self, g0, rows. split; [exact Hch|]. split; [exact Hself|].
  split; [exact Hdc|]. split.
  - rewrite Hrows, length_map. destruct Hwf' as [-> _]. apply Hfr.
  - intros r Hr. rewrite Forall_forall in Hall.
    destruct (Hall r Hr) as [Hinf Hnot]. split; [|exact Hinf].
    split; [|exact Hnot].
    intros Hc Hev. rewrite (Hinf Hev) in Hc. unfold NO_CAUSE in Hc. lia.
Qed.

(** C3, as the code has it.  [DiseaseModel.__init__] checks nothing and
    always returns a model: the population has [N] agents, the
    probabilities are stored as given, an id of [initInfected] outside
    [0, N) infects no one, and no tick has run.  With zero agents the
    model is built all the same; it is its first [Model.step] that raises
    [IndexError]. *)
Theorem construction_unchecked N ii pI pR iv :
  let m := DiseaseModel_init N ii pI pR iv in
  wf m /\ num_agents m = N /\ length (agents m) = N /\
  (percInfect m = pI /\ percRecover m = pR) /\
  steps m = 0 /\ datacollector m = [] /\
  agents m
  = agents (DiseaseModel_init N
              (filter (fun z => (0 <= z < Z.of_nat N)%Z) ii)
              pI pR iv) /\
  (forall g : G,
      DiseaseModel_step
        (DiseaseModel_init 0 ii pI pR iv) g
      = Raise IndexError).
Proof.
  cbv zeta. split; [apply wf_init|]. split; [reflexivity|].
  split; [apply init_length|]. split; [split; reflexivity|].
  split; [reflexivity|]. split; [reflexivity|]. split; [|reflexivity].
  apply list_eq. intros i. destruct (decide (i < N)) as [Hi|Hi].
  - pose proof (init_lookup N ii pI pR iv i Hi) as H1.
    pose proof (init_lookup N (filter (fun z => (0 <= z < Z.of_nat N)%Z) ii)
                  pI pR iv i Hi) as H2.
    rewrite H1, H2. f_equal.
    destruct (bool_decide (Z.of_nat i ∈ ii)) eqn:E1.
    + apply bool_decide_eq_true in E1. rewrite bool_decide_eq_true_2; [reflexivity|].
      apply list_elem_of_filter. split; [lia|assumption].
    + apply bool_decide_eq_false in E1. rewrite bool_decide_eq_false_2; [reflexivity|].
      intros Hin. apply list_elem_of_filter in Hin as [_ Hin]. contradiction.
  - transitivity (@None DiseaseAgent); [|symmetry];
      apply lookup_ge_None; rewrite init_length; lia.
Qed.

(** C5, as the code has it.  Right after construction every agent whose
    id is in [initInfected] has state [INFECTED], event [INFECT] and cause
    [-1], the default [sender_id] of [infect()], which is not the no-cause
    value [-100]; every other agent has state [HEALTHY], event [NOTHING]
    and cause [-100]. *)
Theorem seed_infection_cause N initInfected percInfect percRecover intervention a :
  a ∈ agents (DiseaseModel_init N initInfected percInfect percRecover intervention) ->
  (Z.of_nat (unique_id a) ∈ initInfected ->
   state a = INFECTED /\ event a = INFECT /\ cause a = (-1)%Z) /\
  (Z.of_nat (unique_id a) ∉ initInfected ->
   state a = HEALTHY /\ event a = NOTHING /\ cause a = NO_CAUSE).
Proof.
  intros Ha. apply list_elem_of_lookup in Ha as (i & Ha).
  assert (Hi : i < N) by (apply lookup_lt_Some in Ha; rewrite init_length in Ha; exact Ha).
  rewrite (init_lookup N initInfected percInfect percRecover intervention i Hi) in Ha.
  injection Ha as <-.
  destruct (bool_decide (Z.of_nat i ∈ initInfected)) eqn:E; simpl.
  - apply bool_decide_eq_true in E. split; [auto|]. intros Hn. contradiction.
  - apply bool_decide_eq_false in E. split; [|auto]. intros Hn. contradiction.
Qed.

End Claims.

(** * Concrete runs *)

Lemma intervention_suppression_witness :
  exists m' rows,
    @DiseaseModel_step _ (script_gen [])
       (demo_model (Some (mkIntervention baseline_quiet))) demo_script
    = Ok (m', []) /\
    datacollector m' = [] ++ rows /\
    df_loc rows (0%Z, 1) = Some (mkRow 0 1 HEALTHY RECOVER NO_CAUSE).
Proof.
  eapply (@intervention_suppression _ (script_gen [])
            (demo_model (Some (mkIntervention baseline_quiet)))
            (mkIntervention baseline_quiet) demo_script _ [] 1 _ NOTHING).
  - apply wf_init.
  - reflexivity.
  - vm_compute. reflexivity.
  - reflexivity.
  - reflexivity.
  - reflexivity.
Defined.

(** C4 as stated fails: agent 1 is infected in the tick, the baseline has
    no entry for it, and [Model.step] raises instead of suppressing. *)
Lemma missing_entry_not_suppressed :
  let m := demo_model (Some (mkIntervention [])) in
  (exists m1 g1 a,
      @RandomSingleActivation_step _ (script_gen [])
         (DiseaseModel_reset_events m) demo_script = Ok (m1, g1) /\
      agents m1 !! 1 = Some a /\ event a = INFECT /\
      df_Event [] (Z.of_nat (steps m), 1) = None) /\
  @DiseaseModel_step _ (script_gen []) m demo_script = Raise KeyError.
Proof.
  split; [|vm_compute; reflexivity].
  eexists. eexists. eexists.
  split; [vm_compute; reflexivity|].
  split; [reflexivity|]. split; reflexivity.
Qed.

Lemma missing_baseline_entry_raises_witness :
  @DiseaseModel_step _ (script_gen []) second_tick_model demo_script
  = Raise KeyError.
Proof.
  eapply (@missing_baseline_entry_raises _ (script_gen []) second_tick_model
            (mkIntervention baseline_quiet) demo_script _ _ 1).
  - split; [reflexivity|]. intros [|[|i]] a Ha; simpl in Ha; try discriminate;
      injection Ha as <-; split; reflexivity.
  - reflexivity.
  - vm_compute. reflexivity.
  - reflexivity.
  - reflexivity.
  - reflexivity.
Defined.

(** C3 as stated fails: ids outside the population and probabilities
    outside [0,1] are accepted and the tick runs; with zero agents the run
    ends in the [IndexError] of its first tick. *)
Lemma invalid_arguments_accepted :
  @run _ (script_gen demo_script) 2 [7; -3]%Z (3 # 2) (-1 # 2) 1 "r" None []
  = Ok ([mkRow 0 0 HEALTHY NOTHING NO_CAUSE; mkRow 0 1 HEALTHY NOTHING NO_CAUSE], [])
  /\
  @run _ (script_gen demo_script) 0 [0]%Z (1 # 2) (1 # 20) 1 "r" None []
  = Raise IndexError.
Proof. split; vm_compute; reflexivity. Qed.

(** C5 as stated fails: the seed's cause is not the no-cause value. *)
Lemma seed_cause_is_not_sentinel :
  exists a, a ∈ agents (demo_model None) /\
            Z.of_nat (unique_id a) ∈ [0%Z] /\ cause a <> NO_CAUSE.
Proof.
  exists (mkAgent 0 0 INFECTED INFECT (-1)).
  split; [left|]. split; [left|]. discriminate.
Qed.

Lemma seed_infection_cause_witness :
  (Z.of_nat 0 ∈ [0%Z] ->
   INFECTED = INFECTED /\ INFECT = INFECT /\ (-1)%Z = (-1)%Z) /\
  (Z.of_nat 0 ∉ [0%Z] ->
   INFECTED = HEALTHY /\ INFECT = NOTHING /\ (-1)%Z = NO_CAUSE).
Proof.
  apply (seed_infection_cause 2 [0%Z] (1 # 2) (1 # 20) None
           (mkAgent 0 0 INFECTED INFECT (-1))).
  left.
Defined.

Lemma infect_then_recover_witness :
  let m := DiseaseModel_init 2 [0%Z] (1 # 2) (1 # 2) None in
  get_cell_list_contents m (get_neighbors m 0) = filter (fun j => j <> 0) (seq 0 2) /\
  exists m',
    @DiseaseAgent_step _ (script_gen []) 0 m [10; 20; 0] = Ok (m', []) /\
    agents m' !! 1 = Some (mkAgent 1 1 INFECTED INFECT 0) /\
    agents m' !! 0 = Some (mkAgent 0 0 HEALTHY RECOVER NO_CAUSE) /\
    forall j, j <> 1 -> j <> 0 -> agents m' !! j = agents m !! j.
Proof.
  apply (@infect_then_recover _ (script_gen [])
           (DiseaseModel_init 2 [0%Z] (1 # 2) (1 # 2) None) 0
           [10; 20; 0] (10 # 100) [20; 0] (20 # 100) [0] 1 []
           (mkAgent 0 0 INFECTED INFECT (-1)) (mkAgent 1 1 HEALTHY NOTHING NO_CAUSE)).
  - apply wf_init.
  - reflexivity.
  - reflexivity.
  - reflexivity.
  - reflexivity.
  - reflexivity.
  - reflexivity.
  - discriminate.
  - reflexivity.
  - reflexivity.
Defined.

Lemma no_neighbour_raises_witness :
  let m := DiseaseModel_init 1 [0%Z] (1 # 2) (1 # 20) None in
  (forall g, @DiseaseAgent_step _ (script_gen []) 0 m g = Raise IndexError) /\
  (forall g g0, @choice _ (script_gen []) _ (seq 0 (length (agents m))) g = Ok (0, g0) ->
                @DiseaseModel_step _ (script_gen []) m g = Raise IndexError).
Proof.
  apply (@no_neighbour_raises _ (script_gen [])
           (DiseaseModel_init 1 [0%Z] (1 # 2) (1 # 20) None) 0).
  - apply wf_init.
  - simpl. lia.
  - vm_compute. intros nb Hnb. inversion Hnb.
Defined.

Lemma tick_completeness_witness :
  (exists self g0 ma nb rows,
      @choice _ (script_gen demo_script) _
         (seq 0 (length (agents (demo_model None)))) demo_script = Ok (self, g0) /\
      @DiseaseAgent_step _ (script_gen demo_script) self
         (DiseaseModel_reset_events (demo_model None)) g0 = Ok (ma, []) /\
      steps demo_after = steps (demo_model None) + 1 /\
      datacollector demo_after = datacollector (demo_model None) ++ rows /\
      map (fun r => (Step r, AgentID r)) rows
      = map (fun i => (Z.of_nat (steps (demo_model None)), i))
            (seq 0 (num_agents (demo_model None))) /\
      forall j a, j <> self -> j <> nb -> agents (demo_model None) !! j = Some a ->
        rows !! j = Some (mkRow (Z.of_nat (steps (demo_model None))) j (state a)
                                NOTHING NO_CAUSE))
  /\
  (forall t : nat,
      tick_ids (Z.of_nat t) (datacollector demo_after)
      = if decide (t < 1) then seq 0 2 else []).
Proof.
  split.
  - apply (proj1 (@tick_completeness _ (script_gen demo_script))
             (demo_model None) demo_script demo_after []).
    + apply wf_init.
    + vm_compute. reflexivity.
  - apply (proj2 (@tick_completeness _ (script_gen demo_script))
             2 [0%Z] (1 # 2) (1 # 20) 1 "tr_base" None []
             (datacollector demo_after) []).
    vm_compute. reflexivity.
Defined.

Lemma cause_matches_event_witness :
  exists self g0 rows,
    @choice _ (script_gen demo_script) _
       (seq 0 (length (agents (demo_model None)))) demo_script = Ok (self, g0) /\
    self < 2 /\
    datacollector demo_after = datacollector (demo_model None) ++ rows /\
    length rows = 2 /\
    forall r, r ∈ rows ->
      (rCause r = NO_CAUSE <-> rEvent r <> INFECT) /\
      (rEvent r = INFECT -> rCause r = Z.of_nat self).
Proof.
  apply (@cause_matches_event _ (script_gen demo_script)
           (demo_model None) demo_script demo_after []).
  - apply wf_init.
  - vm_compute. reflexivity.
Defined.

(** ** The experiment driver on a stream where nothing spreads *)

(** The second loop of [main] does not bind the result of its own [run]
    to [trace], so it reads the trace left by the last run of the first
    loop.  On a stream where nothing spreads that shows: the variant
    "tr_simpleCF2_wo0" runs with the seed set [[1]], the baseline's final
    infected set minus that run's final infected set is [{0}], and the
    driver reports [{1}]; the first experiment reports [{0}] for the same
    parameters.  The stream is not one Python's generator yields after
    [random.seed(1)]; what [main] reports on that one is settled at the end
    of the file. *)
Lemma main_CF2_reads_stale_trace :
  let gen := script_gen idle_script in
  let own := @run _ gen 10 [1%Z] (1 # 2) (1 # 20) 100 "tr_simpleCF2_wo0" None [] in
  let orig := @run _ gen 10 [0; 1]%Z (1 # 2) (1 # 20) 100 "tr_base" None [] in
  (tr_own ← value_of own; tr_orig ← value_of orig;
   Some (elements (causal_diff (infected_in_final tr_orig 100)
                               (infected_in_final tr_own 100))))
  = Some [0] /\
  (rel ← value_of (@main _ gen []); elements <$> rel !! "tr_simpleCF2_wo0")
  = Some [1] /\
  (rel ← value_of (@main _ gen []); elements <$> rel !! "tr_simpleCF1_wo0")
  = Some [0].
Proof. repeat split; vm_compute; reflexivity. Qed.

(** * Further properties of the program *)

(** ** [get_agent_by_id] *)

(** X1.  [get_agent_by_id] returns the first agent of the list whose
    [unique_id] is the one asked for, and raises [IndexError] exactly when
    the list holds no such agent. *)
Theorem get_agent_by_id_spec (ags : list DiseaseAgent) (idx : nat) :
  (forall r, get_agent_by_id ags idx = Ok r <->
             exists a, ags !! r = Some a /\ unique_id a = idx /\
                       forall j b, ags !! j = Some b -> j < r -> unique_id b <> idx) /\
  (forall e, get_agent_by_id ags idx = Raise e <->
             e = IndexError /\ idx ∉ map unique_id ags).
Proof.
  unfold get_agent_by_id. split.
  - intros r. split.
    + destruct (list_find _ ags) as [[r' a]|] eqn:E; [|discriminate].
      intros [= ->]. apply list_find_Some in E as (Hr & Hu & Hfirst).
      exists a. repeat split; try assumption.
    + intros (a & Hr & Hu & Hfirst).
      assert (E : list_find (fun a => unique_id a = idx) ags = Some (r, a))
        by (apply list_find_Some; auto).
      rewrite E. reflexivity.
  - intros e. split.
    + destruct (list_find _ ags) as [[r' a]|] eqn:E; [discriminate|].
      intros [= <-]. split; [reflexivity|].
      apply list_find_None in E. rewrite Forall_forall in E.
      intros Hin. apply list_elem_of_fmap in Hin as (a & Ha & Hin).
      apply (E a Hin). symmetry. exact Ha.
    + intros [-> Hnot].
      destruct (list_find _ ags) as [[r' a]|] eqn:E; [|reflexivity].
      apply list_find_Some in E as (Hr & Hu & _).
      exfalso. apply Hnot. apply list_elem_of_fmap. exists a.
      split; [auto|]. eapply list_elem_of_lookup_2; eassumption.
Qed.

(** ** The intervention pass on any model *)

Lemma left_or_recovered_trans a1 a2 a3 :
  left_or_recovered a1 a2 -> left_or_recovered a2 a3 -> left_or_recovered a1 a3.
Proof.
  intros [->|[He ->]] [->|[He' ->]]; unfold left_or_recovered; auto.
Qed.

Lemma get_agent_by_id_present (ags : list DiseaseAgent) (idx : nat) :
  idx ∈ map unique_id ags ->
  exists r a, get_agent_by_id ags idx = Ok r /\ ags !! r = Some a.
Proof.
  intros Hin. unfold get_agent_by_id.
  destruct (list_find _ ags) as [[r a]|] eqn:E.
  - apply list_find_Some in E as (Hr & _). eauto.
  - apply list_find_None in E. rewrite Forall_forall in E.
    apply list_elem_of_fmap in Hin as (a & Ha & Hin).
    exfalso. apply (E a Hin). symmetry. exact Ha.
Qed.

Lemma ids_alter_recover (ags : list DiseaseAgent) (r : nat) :
  map unique_id (alter recover_agent r ags) = map unique_id ags.
Proof.
  apply list_eq. intros i. change (map ?f ?l) with (f <$> l).
  rewrite !list_lookup_fmap. destruct (decide (r = i)) as [->|Hne].
  - rewrite list_lookup_alter_eq. destruct (ags !! i); reflexivity.
  - rewrite list_lookup_alter_ne by exact Hne. reflexivity.
Qed.

Lemma Intervention_apply_loop_any iv tick ids : forall m,
  (forall idx, idx ∈ ids -> idx ∈ map unique_id (agents m)) ->
  Intervention_apply_loop iv tick ids m = Raise KeyError \/
  exists ags',
    Intervention_apply_loop iv tick ids m = Ok (set_agents m ags') /\
    length ags' = length (agents m) /\
    map unique_id ags' = map unique_id (agents m) /\
    forall i a', ags' !! i = Some a' ->
      exists a, agents m !! i = Some a /\ left_or_recovered a a'.
Proof.
  induction ids as [|idx rest IH]; intros m Hids.
  - right. exists (agents m). simpl. split; [destruct m; reflexivity|].
    split; [reflexivity|]. split; [reflexivity|].
    intros i a' Ha'. exists a'. split; [assumption|left; reflexivity].
  - destruct (get_agent_by_id_present (agents m) idx) as (r & a0 & Hget & Hr);
      [apply Hids; left|].
    assert (Hrest : forall j, j ∈ rest -> j ∈ map unique_id (agents m))
      by (intros; apply Hids; right; assumption).
    simpl. rewrite Hget. rewrite (list_lookup_total_correct _ _ _ Hr).
    destruct (bool_decide (event a0 = INFECT)) eqn:Eev; [|apply IH; exact Hrest].
    apply bool_decide_eq_true in Eev.
    destruct (df_Event (trace iv) (tick, idx)) as [e|]; [|left; reflexivity].
    destruct (bool_decide (e <> INFECT)); [|apply IH; exact Hrest].
    destruct (IH (DiseaseAgent_recover r m)) as [Hk|(ags' & Hloop & Hlen & Hid & Hpt)].
    + intros j Hj. simpl. rewrite ids_alter_recover. apply Hrest. exact Hj.
    + left. exact Hk.
    + right. exists ags'. split; [exact Hloop|].
      split; [rewrite Hlen; simpl; apply length_alter|].
      split; [rewrite Hid; simpl; apply ids_alter_recover|].
      intros i a' Ha'. destruct (Hpt i a' Ha') as (a1 & Ha1 & Hrel).
      simpl in Ha1. apply lookup_alter_Some in Ha1 as [(-> & a & Ha & ->)|(Hne & Ha1)].
      * exists a. split; [exact Ha|].
        apply (left_or_recovered_trans a (recover_agent a) a'); [|exact Hrel].
        right. split; [congruence|reflexivity].
      * exists a1. split; [exact Ha1|exact Hrel].
Qed.

(** X2.  On any model, whatever the ids of its agents, [Intervention.apply]
    either raises [KeyError] or returns; it never raises [IndexError].
    When it returns, only the agents changed: each one is as it was, or
    had event [INFECT] and is now recovered. *)
Theorem Intervention_apply_only_recovers iv m :
  Intervention_apply iv m = Raise KeyError \/
  exists m',
    Intervention_apply iv m = Ok m' /\
    m' = set_agents m (agents m') /\
    length (agents m') = length (agents m) /\
    forall i a', agents m' !! i = Some a' ->
      exists a, agents m !! i = Some a /\ left_or_recovered a a'.
Proof.
  unfold Intervention_apply.
  destruct (Intervention_apply_loop_any iv (Z.of_nat (steps m) - 1)%Z
              (map unique_id (agents m)) m) as [Hk|(ags' & Hloop & Hlen & _ & Hpt)].
  - auto.
  - left. exact Hk.
  - right. exists (set_agents m ags'). auto.
Qed.

Lemma apply_agent_idem iv tick a :
  apply_agent iv tick (apply_agent iv tick a) = apply_agent iv tick a.
Proof.
  assert (Hcases : apply_agent iv tick a = recover_agent a \/ apply_agent iv tick a = a)
    by (unfold apply_agent; destruct (bool_decide _); auto).
  destruct Hcases as [Heq|Heq]; rewrite Heq; [|exact Heq].
  apply apply_agent_quiet. simpl. discriminate.
Qed.

(** X3.  On a well-formed model the intervention pass is idempotent: run
    on its own result, it returns that result unchanged. *)
Theorem Intervention_apply_idempotent iv m m' :
  wf m -> Intervention_apply iv m = Ok m' -> Intervention_apply iv m' = Ok m'.
Proof.
  intros Hwf Hok.
  destruct (Intervention_apply_wf_inv iv m m' Hwf Hok) as [-> Hall].
  set (tick := (Z.of_nat (steps m) - 1)%Z) in *.
  assert (Hwf' : wf (set_agents m (map (apply_agent iv tick) (agents m)))).
  { eapply wf_same_frame; [exact Hwf|].
    apply same_frame_map. intros a. apply apply_agent_shape. }
  rewrite Intervention_apply_Ok; [|exact Hwf'|].
  - simpl. fold tick. f_equal. unfold set_agents. simpl. f_equal.
    rewrite map_map. apply map_ext. intros a. apply apply_agent_idem.
  - simpl. fold tick. intros i a' Ha' Hev.
    change (map ?f ?l) with (f <$> l) in Ha'. rewrite list_lookup_fmap in Ha'.
    destruct (agents m !! i) as [a|] eqn:Ea; simpl in Ha'; [|discriminate].
    injection Ha' as <-. apply (Hall i a Ea).
    unfold apply_agent in Hev. destruct (bool_decide _); [discriminate|exact Hev].
Qed.

(** ** What a tick does to the agents *)

Lemma State_not_INFECTED (st : State) : st <> INFECTED <-> st = HEALTHY.
Proof. destruct st; split; congruence. Qed.

Section TickOutcome.
Context {G : Type} `{RandomGen G}.

(** One activation on a well-formed model, with the conditions under which
    it infects and recovers. *)
Lemma DiseaseAgent_step_guarded self m g m' g' a_self :
  wf m -> agents m !! self = Some a_self ->
  DiseaseAgent_step self m g = Ok (m', g') ->
  exists nb a_nb (bi br : bool),
    agents m !! nb = Some a_nb /\ nb <> self /\
    (bi = true -> state a_self = INFECTED /\ state a_nb = HEALTHY) /\
    (br = true -> state a_self = INFECTED) /\
    (state a_self = INFECTED -> state a_nb = INFECTED -> bi = false) /\
    m' = set_agents m
           ((if br then alter recover_agent self else id)
              ((if bi then alter (infect_agent (Z.of_nat self)) nb else id)
                 (agents m))).
Proof.
  intros Hwf Hself Hs.
  assert (Hlt : self < num_agents m)
    by (apply lookup_lt_Some in Hself; destruct Hwf; lia).
  pose proof (list_lookup_total_correct _ _ _ Hself) as Htself.
  unfold DiseaseAgent_step in Hs.
  apply bind_Ok in Hs as (r_inf & g1 & _ & Hs).
  apply bind_Ok in Hs as (r_rec & g2 & _ & Hs).
  apply bind_Ok in Hs as (nb & g3 & Hc & Hs).
  rewrite (neighbour_agents_wf m self Hwf Hlt) in Hc.
  apply choice_Ok in Hc as (k & _ & Hk). apply list_elem_of_lookup_2 in Hk.
  apply list_elem_of_filter in Hk as [Hne Hnb]. apply elem_of_seq in Hnb.
  destruct (wf_lookup m nb Hwf ltac:(lia)) as (a_nb & Ha_nb & _).
  pose proof (list_lookup_total_correct _ _ _ Ha_nb) as Htnb.
  destruct (Hwf) as [_ Hid]. destruct (Hid self a_self Hself) as [Hus _].
  rewrite Htself, Htnb, Hus in Hs.
  destruct (bool_decide (state a_self = INFECTED) && Qltb r_inf (percInfect m)) eqn:E1;
    destruct (negb (bool_decide (state a_nb = INFECTED))) eqn:E2;
    simpl in Hs;
    rewrite ?list_lookup_total_alter_ne in Hs by exact Hne;
    rewrite ?Htself in Hs;
    destruct (bool_decide (state a_self = INFECTED) && Qltb r_rec (percRecover m)) eqn:E3;
    unfold ret in Hs; injection Hs as <- <-;
    match type of E1 with _ = ?b1 =>
    match type of E2 with _ = ?b2 =>
    match type of E3 with _ = ?b3 =>
      exists nb, a_nb, (b1 && b2), b3
    end end end;
    (split; [exact Ha_nb|]); (split; [exact Hne|]);
    (split; [|split; [|split; [|try reflexivity]]]); simpl;
    try discriminate.
  all: try (destruct m; reflexivity).
  all: try (intros _; apply andb_true_iff in E1 as [Hst _];
            apply bool_decide_eq_true in Hst;
            apply negb_true_iff, bool_decide_eq_false in E2;
            split; [exact Hst|apply State_not_INFECTED; exact E2]).
  all: try (intros _; apply andb_true_iff in E3 as [Hst _];
            apply bool_decide_eq_true in Hst; exact Hst).
  all: try (intros _ _; reflexivity).
  all: intros _ Hnbi; rewrite (bool_decide_eq_true_2 _ Hnbi) in E2; discriminate.
Qed.

(** A successful [Model.step] on a well-formed model, in full. *)
Lemma DiseaseModel_step_outcome m g m' g' :
  wf m -> DiseaseModel_step m g = Ok (m', g') ->
  exists self g0 nb a_self a_nb (bi br : bool),
    choice (seq 0 (length (agents m))) g = Ok (self, g0) /\
    agents m !! self = Some a_self /\ agents m !! nb = Some a_nb /\ nb <> self /\
    (bi = true -> state a_self = INFECTED /\ state a_nb = HEALTHY) /\
    (br = true -> state a_self = INFECTED) /\
    (state a_self = INFECTED -> state a_nb = INFECTED -> bi = false) /\
    agents m' = tick_outcome (intervention m) (Z.of_nat (steps m)) self nb bi br
                             (agents m) /\
    steps m' = steps m + 1 /\
    datacollector m'
    = datacollector m ++ map (agent_record (Z.of_nat (steps m))) (agents m') /\
    wf m' /\ same_frame m m'.
Proof.
  intros Hwf Hs.
  destruct (DiseaseModel_step_records m g m' g' Hwf Hs)
    as (self0 & g00 & ma0 & nb0 & rows & _ & _ & _ & _ & _ & Hwf' & Hfr' & Hst'
        & Hdc' & Hrows & _).
  destruct (DiseaseModel_step_spec m g m' g' Hwf Hs) as (m1 & ags2 & Hsched & Hags2 & Hm').
  assert (Hwf0 : wf (DiseaseModel_reset_events m))
    by (apply (wf_same_frame m); [exact Hwf|apply same_frame_reset]).
  apply RandomSingleActivation_step_inv in Hsched
    as (self & g0 & ma & Hch & Hself & Hstep & Hm1).
  assert (Hlen0 : length (agents (DiseaseModel_reset_events m)) = length (agents m))
    by (simpl; apply length_map).
  rewrite Hlen0 in Hch, Hself.
  destruct (lookup_lt_is_Some_2 (agents m) self Hself) as [a_self Ha_self].
  assert (Ha_self0 : agents (DiseaseModel_reset_events m) !! self
                     = Some (reset_agent a_self)).
  { simpl. change (map ?f ?l) with (f <$> l). rewrite list_lookup_fmap, Ha_self.
    reflexivity. }
  destruct (DiseaseAgent_step_guarded self _ g0 ma g' _ Hwf0 Ha_self0 Hstep)
    as (nb & a_nb0 & bi & br & Ha_nb0 & Hne & Hbi & Hbr & Hno & Hma).
  simpl in Ha_nb0. change (map ?f ?l) with (f <$> l) in Ha_nb0.
  rewrite list_lookup_fmap in Ha_nb0.
  destruct (agents m !! nb) as [a_nb|] eqn:Ha_nb; simpl in Ha_nb0; [|discriminate].
  injection Ha_nb0 as <-. simpl in Hbi, Hbr, Hno.
  exists self, g0, nb, a_self, a_nb, bi, br.
  split; [exact Hch|]. split; [exact Ha_self|]. split; [exact Ha_nb|].
  split; [exact Hne|]. split; [exact Hbi|]. split; [exact Hbr|]. split; [exact Hno|].
  split.
  - rewrite Hm'. simpl. rewrite Hags2, Hm1, Hma. simpl.
    unfold tick_outcome. destruct (intervention m); reflexivity.
  - split; [exact Hst'|]. split; [rewrite Hdc', Hrows; reflexivity|].
    split; assumption.
Qed.

End TickOutcome.

(** The three things a tick can have done to an agent. *)
Lemma tick_outcome_lookup iv tick self nb bi br ags i a a' :
  nb <> self -> ags !! i = Some a ->
  tick_outcome iv tick self nb bi br ags !! i = Some a' ->
  a' = reset_agent a \/
  (i = nb /\ bi = true /\ a' = infect_agent (Z.of_nat self) a) \/
  (a' = recover_agent a /\ ((i = self /\ br = true) \/ (i = nb /\ bi = true))).
Proof.
  intros Hne Ha Ha'.
  set (acted := (if br then alter recover_agent self else id)
                  ((if bi then alter (infect_agent (Z.of_nat self)) nb else id)
                     (map reset_agent ags))).
  assert (Hacted : forall b, acted !! i = Some b ->
            b = reset_agent a \/
            (i = nb /\ bi = true /\ b = infect_agent (Z.of_nat self) a) \/
            (b = recover_agent a /\ i = self /\ br = true)).
  { intros b Hb. unfold acted in Hb.
    assert (Hr : map reset_agent ags !! i = Some (reset_agent a)).
    { change (map ?f ?l) with (f <$> l). rewrite list_lookup_fmap, Ha. reflexivity. }
    destruct br, bi; simpl in Hb.
    - apply lookup_alter_Some in Hb as [(-> & c & Hc & ->)|(Hi & Hb)].
      + rewrite list_lookup_alter_ne in Hc by exact Hne.
        rewrite Hr in Hc. injection Hc as <-. right. right. auto.
      + apply lookup_alter_Some in Hb as [(-> & c & Hc & ->)|(Hi' & Hb)].
        * rewrite Hr in Hc. injection Hc as <-. right. left. auto.
        * rewrite Hr in Hb. injection Hb as <-. left. reflexivity.
    - apply lookup_alter_Some in Hb as [(-> & c & Hc & ->)|(Hi & Hb)].
      + rewrite Hr in Hc. injection Hc as <-. right. right. auto.
      + rewrite Hr in Hb. injection Hb as <-. left. reflexivity.
    - apply lookup_alter_Some in Hb as [(-> & c & Hc & ->)|(Hi' & Hb)].
      + rewrite Hr in Hc. injection Hc as <-. right. left. auto.
      + rewrite Hr in Hb. injection Hb as <-. left. reflexivity.
    - rewrite Hr in Hb. injection Hb as <-. left. reflexivity. }
  unfold tick_outcome in Ha'. fold acted in Ha'. destruct iv as [iv|].
  - change (map ?f ?l) with (f <$> l) in Ha'. rewrite list_lookup_fmap in Ha'.
    destruct (acted !! i) as [b|] eqn:Eb; simpl in Ha'; [|discriminate].
    injection Ha' as <-.
    destruct (Hacted b eq_refl) as [->|[(-> & -> & ->)|(-> & -> & ->)]].
    + left. apply apply_agent_quiet. simpl. discriminate.
    + unfold apply_agent. destruct (bool_decide _).
      * right. right. split; [reflexivity|]. right. auto.
      * right. left. auto.
    + right. right. split; [|left; auto].
      apply apply_agent_quiet. simpl. discriminate.
  - destruct (Hacted a' Ha') as [->|[(-> & -> & ->)|(-> & -> & ->)]]; auto 6.
Qed.

Lemma tick_outcome_idle iv tick self nb ags :
  tick_outcome iv tick self nb false false ags = map reset_agent ags.
Proof.
  unfold tick_outcome. simpl. destruct iv as [iv|]; [|reflexivity].
  rewrite map_map. apply map_ext. intros a.
  apply apply_agent_quiet. simpl. discriminate.
Qed.

Section TickProperties.
Context {G : Type} `{RandomGen G}.

(** X4.  A tick whose activated agent is [HEALTHY] changes no state: once
    the agent's neighbour choice has returned, [Model.step] returns, every
    agent keeps its state with event [NOTHING] and cause [-100], and that is
    what is recorded.  The baseline of the intervention is not consulted,
    so the tick cannot raise [KeyError]. *)
Theorem healthy_activation_changes_nothing m g self g0 a ma g1 :
  wf m ->
  choice (seq 0 (length (agents m))) g = Ok (self, g0) ->
  agents m !! self = Some a -> state a = HEALTHY ->
  DiseaseAgent_step self (DiseaseModel_reset_events m) g0 = Ok (ma, g1) ->
  exists m',
    DiseaseModel_step m g = Ok (m', g1) /\
    agents m' = map reset_agent (agents m) /\
    steps m' = steps m + 1 /\
    datacollector m'
    = datacollector m
      ++ map (agent_record (Z.of_nat (steps m))) (map reset_agent (agents m)).
Proof.
  intros Hwf Hch Ha Hst Hstep.
  assert (Hwf0 : wf (DiseaseModel_reset_events m))
    by (apply (wf_same_frame m); [exact Hwf|apply same_frame_reset]).
  assert (Ha0 : agents (DiseaseModel_reset_events m) !! self = Some (reset_agent a)).
  { simpl. change (map ?f ?l) with (f <$> l). rewrite list_lookup_fmap, Ha.
    reflexivity. }
  destruct (DiseaseAgent_step_guarded self _ g0 ma g1 _ Hwf0 Ha0 Hstep)
    as (nb & a_nb & bi & br & _ & _ & Hbi & Hbr & _ & Hma).
  simpl in Hbi, Hbr.
  assert (bi = false) as -> by (destruct bi; [destruct Hbi; congruence|reflexivity]).
  assert (br = false) as -> by (destruct br; [rewrite Hbr in Hst; congruence|reflexivity]).
  simpl in Hma.
  set (m1 := mkModel (num_agents m) (initInfected m) (percInfect m) (percRecover m)
                     (intervention m) (steps m + 1) (time m + 1)
                     (map reset_agent (agents m)) (datacollector m)).
  assert (Hsched : RandomSingleActivation_step (DiseaseModel_reset_events m) g
                   = Ok (m1, g1)).
  { unfold RandomSingleActivation_step, bind, ret.
    assert (Hlen0 : length (agents (DiseaseModel_reset_events m)) = length (agents m))
      by (simpl; apply length_map).
    rewrite Hlen0, Hch, Hstep, Hma. reflexivity. }
  assert (Hwf1 : wf m1).
  { destruct Hwf0 as [Hl Hid]. split; [exact Hl|exact Hid]. }
  assert (Htick : (Z.of_nat (steps m1) - 1 = Z.of_nat (steps m))%Z) by (simpl; lia).
  exists (DataCollector_collect m1).
  split; [|split; [reflexivity|split; [reflexivity|]]].
  - rewrite (DiseaseModel_step_unfold _ _ _ _ Hsched).
    change (intervention m1) with (intervention m).
    destruct (intervention m) as [iv|]; [|reflexivity].
    rewrite Intervention_apply_Ok; [|exact Hwf1|].
    + do 3 f_equal. unfold set_agents. simpl. f_equal.
      rewrite map_map. apply map_ext. intros b.
      apply apply_agent_quiet. simpl. discriminate.
    + intros i b Hb Hev. simpl in Hb.
      change (map ?f ?l) with (f <$> l) in Hb. rewrite list_lookup_fmap in Hb.
      destruct (agents m !! i); simpl in Hb; [|discriminate].
      injection Hb as <-. simpl in Hev. discriminate.
  - unfold DataCollector_collect, m1. simpl.
    replace (Z.of_nat (steps m + 1) - 1)%Z with (Z.of_nat (steps m)) by lia.
    reflexivity.
Qed.

(** X7.  In a successful tick on a well-formed model every agent keeps its
    id and node, and its state follows its event: with event [NOTHING] the
    state is the one it had and the cause is [-100]; with event [INFECT]
    it was [HEALTHY] and is now [INFECTED]; with event [RECOVER] it is
    [HEALTHY] with cause [-100]. *)
Theorem tick_state_follows_event m g m' g' i a a' :
  wf m -> DiseaseModel_step m g = Ok (m', g') ->
  agents m !! i = Some a -> agents m' !! i = Some a' ->
  unique_id a' = unique_id a /\ pos a' = pos a /\
  match event a' with
  | NOTHING => state a' = state a /\ cause a' = NO_CAUSE
  | INFECT => state a = HEALTHY /\ state a' = INFECTED
  | RECOVER => state a' = HEALTHY /\ cause a' = NO_CAUSE
  end.
Proof.
  intros Hwf Hs Ha Ha'.
  destruct (DiseaseModel_step_outcome m g m' g' Hwf Hs)
    as (self & g0 & nb & a_self & a_nb & bi & br & _ & Hself & Hnb & Hne & Hbi & _ & _
        & Hags & _).
  rewrite Hags in Ha'.
  destruct (tick_outcome_lookup _ _ _ _ _ _ _ _ _ _ Hne Ha Ha')
    as [->|[(-> & -> & ->)|(-> & _)]]; simpl; auto.
  destruct (Hbi eq_refl) as [_ Hh]. assert (a = a_nb) by congruence. subst a. auto.
Qed.

(** X8.  Among the entries a successful tick records on a well-formed
    model at most one has event [INFECT], and the cause of that entry is
    not the id of its own agent: no agent is recorded as infecting
    itself. *)
Theorem one_infection_per_tick m g m' g' i j r r' :
  wf m -> DiseaseModel_step m g = Ok (m', g') ->
  drop (length (datacollector m)) (datacollector m') !! i = Some r ->
  drop (length (datacollector m)) (datacollector m') !! j = Some r' ->
  rEvent r = INFECT -> rEvent r' = INFECT ->
  i = j /\ rCause r <> Z.of_nat (AgentID r).
Proof.
  intros Hwf Hs Hr Hr' Hev Hev'.
  destruct (DiseaseModel_step_outcome m g m' g' Hwf Hs)
    as (self & g0 & nb & a_self & a_nb & bi & br & _ & Hself & Hnb & Hne & _ & _ & _
        & Hags & _ & Hdc & Hwf' & Hfr).
  rewrite Hdc, drop_app_length in Hr, Hr'.
  change (map ?f ?l) with (f <$> l) in Hr, Hr'. rewrite list_lookup_fmap in Hr, Hr'.
  destruct (agents m' !! i) as [a|] eqn:Ea; simpl in Hr; [|discriminate].
  destruct (agents m' !! j) as [b|] eqn:Eb; simpl in Hr'; [|discriminate].
  injection Hr as <-. injection Hr' as <-. simpl in *.
  assert (Hone : forall k c, agents m' !! k = Some c -> event c = INFECT ->
            k = nb /\ cause c = Z.of_nat self).
  { intros k c Hc Hevc.
    assert (Hk : k < length (agents m)).
    { apply lookup_lt_Some in Hc. destruct Hfr as (_&_&_&_&Hl&_). lia. }
    destruct (lookup_lt_is_Some_2 _ _ Hk) as [c0 Hc0].
    rewrite Hags in Hc.
    destruct (tick_outcome_lookup _ _ _ _ _ _ _ _ _ _ Hne Hc0 Hc)
      as [->|[(-> & _ & ->)|(-> & _)]]; simpl in Hevc; try discriminate.
    split; reflexivity. }
  destruct (Hone i a Ea Hev) as [-> Hc]. destruct (Hone j b Eb Hev') as [-> _].
  split; [reflexivity|]. rewrite Hc.
  destruct Hwf' as [_ Hid']. destruct (Hid' nb a Ea) as [-> _]. lia.
Qed.

End TickProperties.

(** ** The trace as a table *)

Lemma df_loc_Some (df : list Row) key r :
  df_loc df key = Some r -> r ∈ df /\ row_key r = key.
Proof.
  unfold df_loc. intros Hf. apply find_some in Hf as [Hin Hb].
  apply bool_decide_eq_true in Hb as [H1 H2].
  split; [apply list_elem_of_In; exact Hin|].
  unfold row_key. destruct key. simpl in *. congruence.
Qed.

Lemma df_loc_None (df : list Row) key :
  df_loc df key = None <-> key ∉ map row_key df.
Proof.
  unfold df_loc. split.
  - intros Hn Hin. apply list_elem_of_fmap in Hin as (r & -> & Hr).
    apply list_elem_of_In in Hr.
    pose proof (find_none _ _ Hn r Hr) as Hb. simpl in Hb.
    apply bool_decide_eq_false in Hb. apply Hb. split; reflexivity.
  - intros Hnot. destruct (find _ df) as [r|] eqn:E; [|reflexivity].
    exfalso. apply Hnot. destruct (df_loc_Some df key r E) as [Hin <-].
    apply list_elem_of_fmap. exists r. auto.
Qed.

Lemma df_loc_self (df : list Row) r :
  NoDup (map row_key df) -> r ∈ df -> df_loc df (row_key r) = Some r.
Proof.
  unfold df_loc. induction df as [|r0 df IH]; intros Hnd Hin.
  - apply elem_of_nil in Hin. contradiction.
  - simpl in Hnd. apply NoDup_cons in Hnd as [Hnotin Hnd]. simpl.
    destruct (bool_decide (Step r0 = Step r /\ AgentID r0 = AgentID r)) eqn:E.
    + apply bool_decide_eq_true in E as [E1 E2].
      apply elem_of_cons in Hin as [->|Hin]; [reflexivity|].
      exfalso. apply Hnotin. apply list_elem_of_fmap. exists r.
      split; [|exact Hin]. unfold row_key. congruence.
    + apply bool_decide_eq_false in E.
      apply elem_of_cons in Hin as [->|Hin]; [exfalso; apply E; auto|].
      apply IH; assumption.
Qed.

Lemma records_keys tick (ags : list DiseaseAgent) :
  map row_key (map (agent_record tick) ags) = map (fun a => (tick, unique_id a)) ags.
Proof. rewrite map_map. reflexivity. Qed.

Section TraceTable.
Context {G : Type} `{RandomGen G}.

Lemma DiseaseModel_step_trace_ok m g m' g' :
  wf m -> trace_ok m -> DiseaseModel_step m g = Ok (m', g') -> trace_ok m'.
Proof.
  intros Hwf [Hnd Hrows] Hs.
  destruct (DiseaseModel_step_outcome m g m' g' Hwf Hs)
    as (self & g0 & nb & a_self & a_nb & bi & br & _ & _ & _ & _ & _ & _ & _
        & _ & Hst & Hdc & Hwf' & Hfr).
  assert (Hn : num_agents m' = num_agents m) by apply Hfr.
  assert (Hkeys : map row_key (map (agent_record (Z.of_nat (steps m))) (agents m'))
                  = map (fun i => (Z.of_nat (steps m), i)) (seq 0 (num_agents m))).
  { rewrite records_keys, <- Hn, <- (wf_ids m' Hwf'), map_map. reflexivity. }
  split.
  - rewrite Hdc, map_app, Hkeys. apply NoDup_app. split; [exact Hnd|]. split.
    + intros k Hk Hk'. apply list_elem_of_fmap in Hk as (r & -> & Hr).
      apply list_elem_of_fmap in Hk' as (i & Heq & _).
      destruct (Hrows r Hr) as [Hstep _]. unfold row_key in Heq.
      injection Heq as Heq _. lia.
    + apply (NoDup_fmap_2 (fun i => (Z.of_nat (steps m), i))). apply NoDup_seq.
  - intros r Hr. rewrite Hdc in Hr. apply elem_of_app in Hr as [Hr|Hr].
    + destruct (Hrows r Hr). rewrite Hst, Hn. split; [lia|assumption].
    + assert (Hk : row_key r ∈ map (fun i => (Z.of_nat (steps m), i))
                                   (seq 0 (num_agents m))).
      { rewrite <- Hkeys. apply list_elem_of_fmap. exists r. auto. }
      apply list_elem_of_fmap in Hk as (i & Heq & Hi). apply elem_of_seq in Hi.
      unfold row_key in Heq. injection Heq as -> ->. rewrite Hst, Hn. lia.
Qed.

Lemma run_loop_trace_ok n : forall m g m' g',
  wf m -> trace_ok m -> run_loop n m g = Ok (m', g') ->
  trace_ok m' /\ exists rows, datacollector m' = datacollector m ++ rows.
Proof.
  induction n as [|n IH]; intros m g m' g' Hwf Hok Hrun; simpl in Hrun.
  - unfold ret in Hrun. injection Hrun as <- <-. split; [exact Hok|].
    exists []. rewrite app_nil_r. reflexivity.
  - apply bind_Ok in Hrun as (ma & ga & Hstep & Hrun).
    pose proof (DiseaseModel_step_trace_ok m g ma ga Hwf Hok Hstep) as Hoka.
    destruct (DiseaseModel_step_records m g ma ga Hwf Hstep)
      as (_ & _ & _ & _ & rows & _ & _ & _ & _ & _ & Hwfa & _ & _ & Hdca & _).
    destruct (IH ma ga m' g' Hwfa Hoka Hrun) as (Hok' & rows' & Hdc').
    split; [exact Hok'|]. exists (rows ++ rows').
    rewrite Hdc', Hdca, app_assoc. reflexivity.
Qed.

Lemma trace_ok_init N ii pI pR iv : trace_ok (DiseaseModel_init N ii pI pR iv).
Proof.
  split; simpl; [apply NoDup_nil; exact I|].
  intros r Hr. apply elem_of_nil in Hr. contradiction.
Qed.

Lemma run_trace_table numAgents initInfected percInfect percRecover
    numTicks name intervention (g : G) df g' :
  run numAgents initInfected percInfect percRecover numTicks name intervention g
  = Ok (df, g') ->
  NoDup (map row_key df) /\
  forall t i, is_Some (df_loc df (t, i)) <->
              (0 <= t < Z.of_nat numTicks)%Z /\ i < numAgents.
Proof.
  intros Hrun. unfold run in Hrun.
  apply bind_Ok in Hrun as ([] & gs & _ & Hrun).
  apply bind_Ok in Hrun as (m' & g1 & Hloop & Hrun).
  unfold ret in Hrun. injection Hrun as <- <-.
  set (m0 := DiseaseModel_init numAgents initInfected percInfect percRecover
                               intervention) in *.
  destruct (run_loop_trace_ok numTicks m0 _ m' g1 (wf_init _ _ _ _ _)
              (trace_ok_init _ _ _ _ _) Hloop) as ([Hnd Hrows] & _).
  destruct (run_loop_ticks numTicks m0 _ m' g1 (wf_init _ _ _ _ _) Hloop)
    as (_ & Hfr & Hst & Hticks).
  assert (Hn : num_agents m' = numAgents) by apply Hfr.
  simpl in Hst. rewrite Hst, Hn in Hrows.
  split; [exact Hnd|]. intros t i. split.
  - intros [r Hr]. apply df_loc_Some in Hr as [Hin Hk].
    unfold row_key in Hk. injection Hk as <- <-. apply Hrows. exact Hin.
  - intros [Ht Hi].
    destruct (df_loc (datacollector m') (t, i)) as [r|] eqn:E; [eauto|].
    exfalso. apply df_loc_None in E. apply E.
    assert (Hin : i ∈ tick_ids t (datacollector m')).
    { replace t with (Z.of_nat (Z.to_nat t)) by lia. rewrite Hticks. simpl.
      case_decide; [|lia]. apply elem_of_seq. lia. }
    unfold tick_ids in Hin. apply list_elem_of_fmap in Hin as (r & -> & Hr).
    apply list_elem_of_filter in Hr as [<- Hr].
    apply list_elem_of_fmap. exists r. split; [reflexivity|exact Hr].
Qed.

(** X10.  The trace a run returns is a table over its coordinates: no two
    rows share an index, and a lookup at [(t, i)] finds a row exactly
    when [0 <= t < numTicks] and [i < numAgents]; any other lookup is the
    missing key of pandas. *)
Theorem run_trace_is_a_table numAgents initInfected percInfect percRecover
    numTicks name intervention (g : G) df g' :
  run numAgents initInfected percInfect percRecover numTicks name intervention g
  = Ok (df, g') ->
  NoDup (map row_key df) /\
  forall t i, is_Some (df_loc df (t, i)) <->
              (0 <= t < Z.of_nat numTicks)%Z /\ i < numAgents.
Proof. apply run_trace_table. Qed.

End TraceTable.

(** ** Draws and states *)

Section Draws.
Context {G : Type} `{RandomGen G}.

(** The draws of an activation are the same on any two well-formed models
    with the same number of agents. *)
Lemma DiseaseAgent_step_draws self m1 m2 g ma g' :
  wf m1 -> wf m2 -> num_agents m1 = num_agents m2 -> self < num_agents m1 ->
  DiseaseAgent_step self m1 g = Ok (ma, g') ->
  exists mb, DiseaseAgent_step self m2 g = Ok (mb, g').
Proof.
  intros Hwf1 Hwf2 Hn Hs Hstep.
  unfold DiseaseAgent_step, bind, random, ret in *.
  destruct (rng_random g) as [r1 g1]. destruct (rng_random g1) as [r2 g2].
  rewrite (neighbour_agents_wf m1 self Hwf1 Hs) in Hstep.
  rewrite (neighbour_agents_wf m2 self Hwf2) by lia.
  rewrite <- Hn.
  destruct (choice (filter (fun j => j <> self) (seq 0 (num_agents m1))) g2)
    as [[nb g3]|e]; [|discriminate].
  injection Hstep as _ <-. eexists. reflexivity.
Qed.

Lemma RandomSingleActivation_step_draws m1 m2 g ma g' :
  wf m1 -> wf m2 -> num_agents m1 = num_agents m2 ->
  RandomSingleActivation_step m1 g = Ok (ma, g') ->
  exists mb, RandomSingleActivation_step m2 g = Ok (mb, g').
Proof.
  intros Hwf1 Hwf2 Hn Hs.
  apply RandomSingleActivation_step_inv in Hs as (self & g0 & m1' & Hch & Hself & Hstep & _).
  assert (Hlen : length (agents m2) = length (agents m1))
    by (destruct Hwf1 as [-> _]; destruct Hwf2 as [-> _]; lia).
  assert (Hs1 : self < num_agents m1) by (destruct Hwf1 as [<- _]; exact Hself).
  destruct (DiseaseAgent_step_draws self m1 m2 g0 m1' g' Hwf1 Hwf2 Hn Hs1 Hstep)
    as (mb & Hstep2).
  unfold RandomSingleActivation_step, bind, ret. rewrite Hlen, Hch, Hstep2.
  eexists. reflexivity.
Qed.

Lemma wf_reset m : wf m -> wf (DiseaseModel_reset_events m).
Proof. intros Hwf. apply (wf_same_frame m); [exact Hwf|apply same_frame_reset]. Qed.

(** X6.  The draws of a tick do not depend on the states of the agents, on
    the probabilities or on the seeds: if [Model.step] returns on a
    well-formed model, then on any well-formed model with the same number
    of agents and the same generator state it leaves the generator in the
    same state, returning unless the lookup of an intervention raises
    [KeyError]. *)
Theorem tick_draws_ignore_states m1 m2 g m1' g1 :
  wf m1 -> wf m2 -> num_agents m1 = num_agents m2 ->
  DiseaseModel_step m1 g = Ok (m1', g1) ->
  (exists m2', DiseaseModel_step m2 g = Ok (m2', g1)) \/
  (intervention m2 <> None /\ DiseaseModel_step m2 g = Raise KeyError).
Proof.
  intros Hwf1 Hwf2 Hn Hs.
  destruct (DiseaseModel_step_sched _ _ _ _ Hs) as (m1s & Hsched1).
  destruct (RandomSingleActivation_step_draws _ (DiseaseModel_reset_events m2) _ _ _
              (wf_reset m1 Hwf1) (wf_reset m2 Hwf2) Hn Hsched1) as (m2s & Hsched2).
  rewrite (DiseaseModel_step_unfold _ _ _ _ Hsched2).
  destruct (intervention m2s) as [iv|] eqn:Eiv; [|left; eauto].
  unfold Intervention_apply.
  destruct (Intervention_apply_loop_any iv (Z.of_nat (steps m2s) - 1)%Z
              (map unique_id (agents m2s)) m2s) as [Hk|(ags' & Hloop & _)].
  - auto.
  - right. rewrite Hk. split; [|reflexivity].
    destruct (RandomSingleActivation_step_wf _ _ _ _ (wf_reset m2 Hwf2) Hsched2)
      as (_ & _ & _ & _ & _ & _ & _ & _ & _ & _ & _ & Hfr).
    destruct Hfr as (_&_&_&Hiv&_). simpl in Hiv. rewrite <- Hiv, Eiv. discriminate.
  - left. rewrite Hloop. eauto.
Qed.

End Draws.

(** ** Runs under an intervention *)

Lemma wf_with_intervention m iv : wf m -> wf (with_intervention m iv).
Proof. intros [Hl Hid]. split; [exact Hl|exact Hid]. Qed.

Lemma apply_agent_unchanged iv tick a :
  (event a = INFECT -> df_Event (trace iv) (tick, unique_id a) = Some INFECT) ->
  apply_agent iv tick a = a.
Proof.
  intros Hb. unfold apply_agent. rewrite bool_decide_eq_false_2; [reflexivity|].
  intros [Hev Hn]. apply Hn. apply Hb. exact Hev.
Qed.

Section Replay.
Context {G : Type} `{RandomGen G}.

(** The activation does not read the [intervention] field. *)
Lemma DiseaseAgent_step_with_intervention self m iv g :
  DiseaseAgent_step self (with_intervention m iv) g
  = match DiseaseAgent_step self m g with
    | Ok (m', g') => Ok (with_intervention m' iv, g')
    | Raise e => Raise e
    end.
Proof.
  unfold DiseaseAgent_step, bind, random, ret.
  destruct (rng_random g) as [r1 g1]. destruct (rng_random g1) as [r2 g2].
  change (get_cell_list_contents (with_intervention m iv)
            (get_neighbors (with_intervention m iv)
               (pos (agents (with_intervention m iv) !!! self))))
    with (get_cell_list_contents m (get_neighbors m (pos (agents m !!! self)))).
  destruct (choice _ g2) as [[nb g3]|e]; [|reflexivity].
  simpl.
  destruct (bool_decide (state (agents m !!! self) = INFECTED)
            && Qltb r1 (percInfect m));
    destruct (negb (bool_decide (state (agents m !!! nb) = INFECTED))); simpl;
    match goal with |- context [if ?c then _ else _] => destruct c end; reflexivity.
Qed.

Lemma RandomSingleActivation_step_with_intervention m iv g :
  RandomSingleActivation_step (with_intervention m iv) g
  = match RandomSingleActivation_step m g with
    | Ok (m', g') => Ok (with_intervention m' iv, g')
    | Raise e => Raise e
    end.
Proof.
  unfold RandomSingleActivation_step, bind, ret.
  change (agents (with_intervention m iv)) with (agents m).
  destruct (choice (seq 0 (length (agents m))) g) as [[self g0]|e]; [|reflexivity].
  rewrite DiseaseAgent_step_with_intervention.
  destruct (DiseaseAgent_step self m g0) as [[m' g']|e]; reflexivity.
Qed.

Lemma run_loop_extends n : forall m g m' g',
  wf m -> run_loop n m g = Ok (m', g') ->
  wf m' /\ intervention m' = intervention m /\
  exists rows, datacollector m' = datacollector m ++ rows.
Proof.
  induction n as [|n IH]; intros m g m' g' Hwf Hrun; simpl in Hrun.
  - unfold ret in Hrun. injection Hrun as <- <-.
    split; [exact Hwf|]. split; [reflexivity|]. exists []. rewrite app_nil_r. reflexivity.
  - apply bind_Ok in Hrun as (ma & ga & Hstep & Hrun).
    destruct (DiseaseModel_step_records m g ma ga Hwf Hstep)
      as (_ & _ & _ & _ & rows & _ & _ & _ & _ & _ & Hwfa & Hfra & _ & Hdca & _).
    destruct (IH ma ga m' g' Hwfa Hrun) as (Hwf' & Hiv' & rows' & Hdc').
    split; [exact Hwf'|]. split.
    + rewrite Hiv'. apply Hfra.
    + exists (rows ++ rows'). rewrite Hdc', Hdca, app_assoc. reflexivity.
Qed.

(** A tick of a run without intervention, replayed under an intervention
    whose baseline holds the rows that tick recorded. *)
Lemma replay_step m g m' g' full :
  wf m -> intervention m = None -> DiseaseModel_step m g = Ok (m', g') ->
  NoDup (map row_key full) -> (forall r, r ∈ datacollector m' -> r ∈ full) ->
  DiseaseModel_step (with_intervention m (Some (mkIntervention full))) g
  = Ok (with_intervention m' (Some (mkIntervention full)), g').
Proof.
  intros Hwf Hiv Hs Hnd Hfull.
  set (iv := mkIntervention full).
  destruct (DiseaseModel_step_spec m g m' g' Hwf Hs) as (m1 & ags2 & Hsched & Hags2 & Hm').
  rewrite Hiv in Hags2. subst ags2.
  replace (set_agents m1 (agents m1)) with m1 in Hm' by (destruct m1; reflexivity).
  destruct (RandomSingleActivation_step_wf _ _ _ _ (wf_reset m Hwf) Hsched)
    as (_ & _ & _ & _ & _ & _ & _ & _ & Hst & _ & _ & Hfr).
  assert (Hwf1 : wf m1) by (apply (wf_same_frame _ _ (wf_reset m Hwf) Hfr)).
  assert (Hsched' : RandomSingleActivation_step
                      (DiseaseModel_reset_events (with_intervention m (Some iv))) g
                    = Ok (with_intervention m1 (Some iv), g')).
  { change (DiseaseModel_reset_events (with_intervention m (Some iv)))
      with (with_intervention (DiseaseModel_reset_events m) (Some iv)).
    rewrite RandomSingleActivation_step_with_intervention, Hsched. reflexivity. }
  rewrite (DiseaseModel_step_unfold _ _ _ _ Hsched').
  change (intervention (with_intervention m1 (Some iv))) with (Some iv).
  cbv iota beta.
  assert (Hsame : forall i a, agents m1 !! i = Some a -> event a = INFECT ->
            df_Event full (Z.of_nat (steps m1) - 1, i)%Z = Some INFECT).
  { intros i a Ha Hev.
    set (r := agent_record (Z.of_nat (steps m1) - 1)%Z a).
    assert (Hr : r ∈ full).
    { apply Hfull. rewrite Hm'. simpl. apply elem_of_app. right.
      apply list_elem_of_fmap. exists a. split; [reflexivity|].
      eapply list_elem_of_lookup_2; exact Ha. }
    destruct Hwf1 as [_ Hid]. destruct (Hid i a Ha) as [Hu _].
    unfold df_Event. replace (Z.of_nat (steps m1) - 1, i)%Z with (row_key r)
      by (unfold row_key, r; simpl; rewrite Hu; reflexivity).
    rewrite (df_loc_self full r Hnd Hr). simpl. rewrite Hev. reflexivity. }
  rewrite Intervention_apply_Ok;
    [|apply wf_with_intervention; exact Hwf1
     |intros i a Ha Hev; simpl; rewrite (Hsame i a Ha Hev); eauto].
  do 2 f_equal. rewrite Hm'. unfold DataCollector_collect, set_datacollector,
    set_agents, with_intervention. simpl.
  assert (Hmap : map (apply_agent iv (Z.of_nat (steps m1) - 1)%Z) (agents m1)
                 = agents m1).
  { apply list_eq. intros i. change (map ?f ?l) with (f <$> l).
    rewrite list_lookup_fmap. destruct (agents m1 !! i) as [a|] eqn:Ea; [|reflexivity].
    simpl. f_equal. apply apply_agent_unchanged. intros Hev.
    destruct Hwf1 as [_ Hid]. destruct (Hid i a Ea) as [-> _].
    apply (Hsame i a Ea Hev). }
  rewrite Hmap. reflexivity.
Qed.

Lemma replay_loop n : forall m g m' g' full,
  wf m -> intervention m = None -> run_loop n m g = Ok (m', g') ->
  NoDup (map row_key full) -> (forall r, r ∈ datacollector m' -> r ∈ full) ->
  run_loop n (with_intervention m (Some (mkIntervention full))) g
  = Ok (with_intervention m' (Some (mkIntervention full)), g').
Proof.
  induction n as [|n IH]; intros m g m' g' full Hwf Hiv Hrun Hnd Hfull; simpl in *.
  - unfold ret in *. injection Hrun as <- <-. reflexivity.
  - apply bind_Ok in Hrun as (ma & ga & Hstep & Hrun).
    destruct (run_loop_extends n ma ga m' g') as (_ & _ & rows & Hdc); [|exact Hrun|].
    { destruct (DiseaseModel_step_records m g ma ga Hwf Hstep)
        as (_ & _ & _ & _ & _ & _ & _ & _ & _ & _ & Hwfa & _). exact Hwfa. }
    destruct (DiseaseModel_step_records m g ma ga Hwf Hstep)
      as (_ & _ & _ & _ & _ & _ & _ & _ & _ & _ & Hwfa & Hfra & _).
    unfold bind. rewrite (replay_step m g ma ga full Hwf Hiv Hstep Hnd).
    + apply IH; try assumption. destruct Hfra as (_&_&_&->&_). exact Hiv.
    + intros r Hr. apply Hfull. rewrite Hdc. apply elem_of_app. left. exact Hr.
Qed.

(** X9.  An intervention built from a run's own trace is transparent: the
    run with the same parameters under that intervention returns the very
    same trace and leaves the generator in the same state. *)
Theorem replay_own_trace numAgents initInfected percInfect percRecover numTicks
    name name' (g : G) df g' :
  run numAgents initInfected percInfect percRecover numTicks name None g
  = Ok (df, g') ->
  run numAgents initInfected percInfect percRecover numTicks name'
      (Some (mkIntervention df)) g
  = Ok (df, g').
Proof.
  intros Hrun. unfold run in *.
  apply bind_Ok in Hrun as ([] & gs & Hseed & Hrun).
  apply bind_Ok in Hrun as (m' & g1 & Hloop & Hrun).
  unfold ret in Hrun. injection Hrun as <- <-.
  unfold seed in Hseed. injection Hseed as <-.
  set (m0 := DiseaseModel_init numAgents initInfected percInfect percRecover None) in *.
  destruct (run_loop_trace_ok numTicks m0 _ m' g1 (wf_init _ _ _ _ _)
              (trace_ok_init _ _ _ _ _) Hloop) as ([Hnd _] & _).
  pose proof (replay_loop numTicks m0 _ m' g1 (datacollector m')
                (wf_init _ _ _ _ _) eq_refl Hloop Hnd (fun r Hr => Hr)) as Hrep.
  unfold bind, seed, ret.
  change (DiseaseModel_init numAgents initInfected percInfect percRecover
            (Some (mkIntervention (datacollector m'))))
    with (with_intervention m0 (Some (mkIntervention (datacollector m')))).
  rewrite Hrep. reflexivity.
Qed.

End Replay.

Lemma covered_shift o lo n N :
  covered o lo (S n) N -> covered o lo 1 N /\ covered o (lo + 1) n N.
Proof.
  destruct o as [iv|]; simpl; [|auto].
  intros Hc. split; intros t i Ht Hi; apply Hc; lia.
Qed.

Section CounterfactualRuns.
Context {G : Type} `{RandomGen G}.

Lemma covered_step_returns m1 m2 g m1' g1 :
  wf m1 -> wf m2 -> num_agents m1 = num_agents m2 ->
  covered (intervention m2) (steps m2) 1 (num_agents m2) ->
  DiseaseModel_step m1 g = Ok (m1', g1) ->
  exists m2', DiseaseModel_step m2 g = Ok (m2', g1).
Proof.
  intros Hwf1 Hwf2 Hn Hcov Hs.
  destruct (DiseaseModel_step_sched _ _ _ _ Hs) as (m1s & Hsched1).
  destruct (RandomSingleActivation_step_draws _ (DiseaseModel_reset_events m2) _ _ _
              (wf_reset m1 Hwf1) (wf_reset m2 Hwf2) Hn Hsched1) as (m2s & Hsched2).
  destruct (RandomSingleActivation_step_wf _ _ _ _ (wf_reset m2 Hwf2) Hsched2)
    as (_ & _ & _ & _ & _ & _ & _ & _ & Hst & _ & _ & Hfr).
  assert (Hwf2s : wf m2s) by (apply (wf_same_frame _ _ (wf_reset m2 Hwf2) Hfr)).
  assert (Hiv : intervention m2s = intervention m2) by apply Hfr.
  rewrite (DiseaseModel_step_unfold _ _ _ _ Hsched2), Hiv.
  destruct (intervention m2) as [iv|]; [|eauto].
  rewrite Intervention_apply_Ok; [eauto|exact Hwf2s|].
  intros i a Ha _. simpl in Hcov, Hst.
  replace (Z.of_nat (steps m2s) - 1)%Z with (Z.of_nat (steps m2)) by lia.
  apply Hcov; [lia|].
  apply lookup_lt_Some in Ha. destruct Hwf2s as [Hl _].
  destruct Hfr as (Hn2 & _). simpl in Hn2. lia.
Qed.

Lemma covered_loop_returns n : forall m1 m2 g m1' g',
  wf m1 -> wf m2 -> num_agents m1 = num_agents m2 ->
  covered (intervention m2) (steps m2) n (num_agents m2) ->
  run_loop n m1 g = Ok (m1', g') ->
  exists m2', run_loop n m2 g = Ok (m2', g').
Proof.
  induction n as [|n IH]; intros m1 m2 g m1' g' Hwf1 Hwf2 Hn Hcov Hrun; simpl in *.
  - unfold ret in *. injection Hrun as _ <-. eauto.
  - apply bind_Ok in Hrun as (m1a & ga & Hstep & Hrun).
    destruct (covered_shift _ _ _ _ Hcov) as [Hc1 Hcn].
    destruct (covered_step_returns m1 m2 g m1a ga Hwf1 Hwf2 Hn Hc1 Hstep)
      as (m2a & Hstep2).
    unfold bind. rewrite Hstep2.
    destruct (DiseaseModel_step_records m1 g m1a ga Hwf1 Hstep)
      as (_ & _ & _ & _ & _ & _ & _ & _ & _ & _ & Hwf1a & Hfr1 & _).
    destruct (DiseaseModel_step_records m2 g m2a ga Hwf2 Hstep2)
      as (_ & _ & _ & _ & _ & _ & _ & _ & _ & _ & Hwf2a & Hfr2 & Hst2 & _).
    assert (Hn1 : num_agents m1a = num_agents m1) by apply Hfr1.
    assert (Hn2 : num_agents m2a = num_agents m2) by apply Hfr2.
    assert (Hiv2 : intervention m2a = intervention m2) by apply Hfr2.
    apply (IH m1a m2a ga m1' g'); try assumption; [congruence|].
    rewrite Hiv2, Hn2, Hst2. exact Hcn.
Qed.

(** Once a run without intervention has returned, so does every run with
    the same number of agents and ticks that has no intervention or the
    intervention built from that run's trace. *)
Lemma sibling_run_returns numAgents ii pI pR numTicks name (g : G) orig g'
    ii' pI' pR' name' iv' :
  run numAgents ii pI pR numTicks name None g = Ok (orig, g') ->
  iv' = None \/ iv' = Some (mkIntervention orig) ->
  exists df, run numAgents ii' pI' pR' numTicks name' iv' g = Ok (df, g').
Proof.
  intros Hbase Hiv'.
  pose proof (run_trace_table _ _ _ _ _ _ _ _ _ _ Hbase) as [_ Htable].
  unfold run in *.
  apply bind_Ok in Hbase as ([] & gs & Hseed & Hbase).
  apply bind_Ok in Hbase as (m' & g1 & Hloop & Hbase).
  unfold ret in Hbase. injection Hbase as <- <-.
  unfold seed in Hseed. injection Hseed as <-.
  set (m2 := DiseaseModel_init numAgents ii' pI' pR' iv').
  assert (Hcov : covered (intervention m2) (steps m2) numTicks (num_agents m2)).
  { simpl. destruct Hiv' as [->| ->]; simpl; [exact I|].
    intros t i Ht Hi. destruct (Htable (Z.of_nat t) i) as [_ Hsome].
    destruct Hsome as [r Hr]; [split; [lia|exact Hi]|].
    unfold df_Event. rewrite Hr. eauto. }
  destruct (covered_loop_returns numTicks
              (DiseaseModel_init numAgents ii pI pR None) m2 _ _ _
              (wf_init _ _ _ _ _) (wf_init _ _ _ _ _) eq_refl Hcov Hloop)
    as (m2' & Hloop2).
  unfold bind, seed, ret. fold m2. rewrite Hloop2. eauto.
Qed.

(** X11.  A counterfactual run never meets a missing baseline entry when
    its baseline comes from a run with the same number of agents and
    ticks: once that baseline run has returned, the run under the
    intervention built from its trace returns too, for any seeds and
    probabilities, and consumes the same draws. *)
Theorem counterfactual_run_returns numAgents ii pI pR numTicks name (g : G) orig g'
    ii' pI' pR' name' :
  run numAgents ii pI pR numTicks name None g = Ok (orig, g') ->
  exists df,
    run numAgents ii' pI' pR' numTicks name' (Some (mkIntervention orig)) g
    = Ok (df, g').
Proof. intros Hbase. eapply sibling_run_returns; [exact Hbase|right; reflexivity]. Qed.

End CounterfactualRuns.

(** ** Runs in which nothing or little happens *)

Lemma filter_ext_elem {A} (P Q : A -> Prop) `{!forall x, Decision (P x)}
    `{!forall x, Decision (Q x)} (l : list A) :
  (forall x, x ∈ l -> (P x <-> Q x)) -> filter P l = filter Q l.
Proof.
  induction l as [|x l IH]; intros Hext; [reflexivity|].
  rewrite !filter_cons.
  assert (Hx : P x <-> Q x) by (apply Hext; left).
  rewrite IH by (intros y Hy; apply Hext; right; exact Hy).
  destruct (decide (P x)), (decide (Q x)); tauto.
Qed.

Lemma filter_none_elem {A} (P : A -> Prop) `{!forall x, Decision (P x)} (l : list A) :
  (forall x, x ∈ l -> ~ P x) -> filter P l = [].
Proof.
  induction l as [|x l IH]; intros Hn; [reflexivity|].
  rewrite filter_cons_False by (apply Hn; left).
  apply IH. intros y Hy. apply Hn. right. exact Hy.
Qed.

Lemma init_all_healthy N ii pI pR iv a :
  (forall z, z ∈ ii -> ~ (0 <= z < Z.of_nat N)%Z) ->
  a ∈ agents (DiseaseModel_init N ii pI pR iv) -> state a = HEALTHY.
Proof.
  intros Hout Ha. apply list_elem_of_lookup in Ha as (i & Ha).
  assert (Hi : i < N) by (apply lookup_lt_Some in Ha; rewrite init_length in Ha; exact Ha).
  rewrite (init_lookup N ii pI pR iv i Hi) in Ha. injection Ha as <-.
  rewrite bool_decide_eq_false_2; [reflexivity|].
  intros Hin. apply (Hout _ Hin). lia.
Qed.

Section IdleRuns.
Context {G : Type} `{RandomGen G}.

Lemma step_all_healthy m g m' g' :
  wf m -> (forall a, a ∈ agents m -> state a = HEALTHY) ->
  DiseaseModel_step m g = Ok (m', g') ->
  agents m' = map reset_agent (agents m).
Proof.
  intros Hwf Hall Hs.
  destruct (DiseaseModel_step_outcome m g m' g' Hwf Hs)
    as (self & g0 & nb & a_self & a_nb & bi & br & _ & Hself & _ & _ & Hbi & Hbr & _
        & Hags & _).
  assert (Hh : state a_self = HEALTHY)
    by (apply Hall; eapply list_elem_of_lookup_2; exact Hself).
  assert (bi = false) as -> by (destruct bi; [destruct Hbi; congruence|reflexivity]).
  assert (br = false) as -> by (destruct br; [rewrite Hbr in Hh; congruence|reflexivity]).
  rewrite Hags. apply tick_outcome_idle.
Qed.

Lemma run_loop_all_healthy n : forall m g m' g',
  wf m -> (forall a, a ∈ agents m -> state a = HEALTHY) ->
  run_loop n m g = Ok (m', g') ->
  forall r, r ∈ drop (length (datacollector m)) (datacollector m') ->
    rState r = HEALTHY /\ rEvent r = NOTHING /\ rCause r = NO_CAUSE.
Proof.
  induction n as [|n IH]; intros m g m' g' Hwf Hall Hrun r Hr; simpl in Hrun.
  - unfold ret in Hrun. injection Hrun as <- <-.
    rewrite drop_all in Hr. apply elem_of_nil in Hr. contradiction.
  - apply bind_Ok in Hrun as (ma & ga & Hstep & Hrun).
    pose proof (step_all_healthy m g ma ga Hwf Hall Hstep) as Hags.
    destruct (DiseaseModel_step_outcome m g ma ga Hwf Hstep)
      as (_ & _ & _ & _ & _ & _ & _ & _ & _ & _ & _ & _ & _ & _ & _ & _ & Hdc & Hwfa & _).
    assert (Halla : forall a, a ∈ agents ma -> state a = HEALTHY).
    { intros a Ha. rewrite Hags in Ha. apply list_elem_of_fmap in Ha as (b & -> & Hb).
      simpl. apply Hall. exact Hb. }
    destruct (run_loop_extends n ma ga m' g' Hwfa Hrun) as (_ & _ & rows & Hdc').
    rewrite Hdc', Hdc, <- app_assoc, drop_app_length in Hr.
    apply elem_of_app in Hr as [Hr|Hr].
    + apply list_elem_of_fmap in Hr as (a & -> & Ha). simpl.
      rewrite Hags in Ha. apply list_elem_of_fmap in Ha as (b & -> & Hb). simpl.
      split; [apply Hall; exact Hb|]. split; reflexivity.
    + apply (IH ma ga m' g' Hwfa Halla Hrun).
      rewrite Hdc', drop_app_length. exact Hr.
Qed.

(** X5.  Without a seed the contagion never starts: when no id of
    [initInfected] is the id of an agent, every entry of the trace the run
    returns has state [HEALTHY], event [NOTHING] and cause [-100], with or
    without intervention. *)
Theorem run_without_seed_is_idle numAgents initInfected percInfect percRecover
    numTicks name intervention (g : G) df g' :
  (forall z, z ∈ initInfected -> ~ (0 <= z < Z.of_nat numAgents)%Z) ->
  run numAgents initInfected percInfect percRecover numTicks name intervention g
  = Ok (df, g') ->
  forall r, r ∈ df -> rState r = HEALTHY /\ rEvent r = NOTHING /\ rCause r = NO_CAUSE.
Proof.
  intros Hout Hrun r Hr. unfold run in Hrun.
  apply bind_Ok in Hrun as ([] & gs & _ & Hrun).
  apply bind_Ok in Hrun as (m' & g1 & Hloop & Hrun).
  unfold ret in Hrun. injection Hrun as <- <-.
  apply (run_loop_all_healthy numTicks _ _ _ _ (wf_init _ _ _ _ _)
           (fun a => init_all_healthy _ _ _ _ _ a Hout) Hloop).
  simpl. exact Hr.
Qed.

Lemma ids_of_infected_records tick (ags : list DiseaseAgent) :
  map AgentID (filter (fun r => rState r = INFECTED) (map (agent_record tick) ags))
  = map unique_id (filter (fun a => state a = INFECTED) ags).
Proof.
  induction ags as [|a ags IH]; [reflexivity|].
  simpl. rewrite !filter_cons. simpl.
  destruct (decide (state a = INFECTED)); simpl; rewrite IH; reflexivity.
Qed.

(** The final-tick comprehension of [main] on the records of a model that
    has just completed a tick. *)
Lemma infected_in_final_after_step m g m' g' :
  wf m -> trace_ok m -> DiseaseModel_step m g = Ok (m', g') ->
  infected_in_final (datacollector m') (steps m')
  = map unique_id (filter (fun a => state a = INFECTED) (agents m')).
Proof.
  intros Hwf Hok Hs.
  pose proof (DiseaseModel_step_trace_ok m g m' g' Hwf Hok Hs) as [Hnd' _].
  destruct Hok as [_ Hrows].
  destruct (DiseaseModel_step_outcome m g m' g' Hwf Hs)
    as (_ & _ & _ & _ & _ & _ & _ & _ & _ & _ & _ & _ & _ & _ & _ & Hst & Hdc & _).
  unfold infected_in_final.
  replace (Z.of_nat (steps m') - 1)%Z with (Z.of_nat (steps m)) by lia.
  set (P := fun r => Step r = Z.of_nat (steps m) /\
                     df_State (datacollector m') (Step r, AgentID r) = Some INFECTED).
  set (L := map (agent_record (Z.of_nat (steps m))) (agents m')) in *.
  assert (Hsplit : filter P (datacollector m')
                   = filter (fun r => rState r = INFECTED) L).
  { rewrite Hdc at 1. rewrite filter_app.
    rewrite (filter_none_elem P (datacollector m)).
    - simpl. apply filter_ext_elem. intros r Hr. unfold P.
      assert (Hin : r ∈ datacollector m') by (rewrite Hdc; apply elem_of_app; auto).
      unfold df_State. change (Step r, AgentID r) with (row_key r).
      rewrite (df_loc_self _ r Hnd' Hin). simpl.
      apply list_elem_of_fmap in Hr as (a & -> & _). simpl.
      split; [intros [_ Heq]; congruence|intros ->; auto].
    - intros r Hr [Hstep _]. destruct (Hrows r Hr) as [Hlt _]. lia. }
  fold P. rewrite Hsplit. apply ids_of_infected_records.
Qed.

(** X13.  The comprehension [main] uses for the final tick reads the final
    state of the model: on the records of a run of at least one tick it
    yields the ids of the agents that are [INFECTED] when the run ends,
    each once, in registration order. *)
Theorem infected_in_final_reads_final_state numAgents initInfected percInfect
    percRecover intervention numTicks (g : G) m' g' :
  run_loop numTicks
    (DiseaseModel_init numAgents initInfected percInfect percRecover intervention) g
  = Ok (m', g') ->
  0 < numTicks ->
  infected_in_final (datacollector m') numTicks
  = map unique_id (filter (fun a => state a = INFECTED) (agents m')).
Proof.
  set (m0 := DiseaseModel_init numAgents initInfected percInfect percRecover
                               intervention).
  assert (Hgen : forall n m g0, wf m -> trace_ok m ->
            run_loop (S n) m g0 = Ok (m', g') ->
            infected_in_final (datacollector m') (steps m + S n)
            = map unique_id (filter (fun a => state a = INFECTED) (agents m'))).
  { induction n as [|n IH]; intros m g0 Hwf Hok Hrun.
    - simpl in Hrun. apply bind_Ok in Hrun as (ma & ga & Hstep & Hrun).
      unfold ret in Hrun. injection Hrun as <- <-.
      destruct (DiseaseModel_step_outcome m g0 ma ga Hwf Hstep)
        as (_ & _ & _ & _ & _ & _ & _ & _ & _ & _ & _ & _ & _ & _ & _ & Hst & _).
      rewrite <- Hst. apply (infected_in_final_after_step m g0 ma ga Hwf Hok Hstep).
    - change (run_loop (S (S n)) m g0)
        with (bind (DiseaseModel_step m) (run_loop (S n)) g0) in Hrun.
      apply bind_Ok in Hrun as (ma & ga & Hstep & Hrun).
      destruct (DiseaseModel_step_outcome m g0 ma ga Hwf Hstep)
        as (_ & _ & _ & _ & _ & _ & _ & _ & _ & _ & _ & _ & _ & _ & _ & Hst & _ & Hwfa & _).
      pose proof (DiseaseModel_step_trace_ok m g0 ma ga Hwf Hok Hstep) as Hoka.
      replace (steps m + S (S n)) with (steps ma + S n) by lia.
      apply (IH ma ga Hwfa Hoka Hrun). }
  intros Hrun Hpos. destruct numTicks as [|n]; [lia|].
  apply (Hgen n m0 g (wf_init _ _ _ _ _) (trace_ok_init _ _ _ _ _) Hrun).
Qed.

End IdleRuns.

(** ** Population size *)

Section Population.
Context {G : Type} `{RandomGen G}.

Lemma run_zero_agents_raises ii pI pR numTicks name iv (g : G) :
  run 0 ii pI pR (S numTicks) name iv g = Raise IndexError.
Proof. reflexivity. Qed.

(** X12.  With a generator whose [choice] index lies within the sequence, a
    run without intervention returns exactly when it has no tick to run or
    at least two agents: with one agent the activated agent has no
    neighbour to choose, with none the scheduler has no agent to choose,
    and the first tick raises [IndexError]. *)
Theorem run_returns_iff_population numAgents ii pI pR numTicks name (g : G) :
  (forall n (g0 : G), 0 < n -> (rng_randbelow n g0).1 < n) ->
  (exists df g', run numAgents ii pI pR numTicks name None g = Ok (df, g'))
  <-> numTicks = 0 \/ 2 <= numAgents.
Proof.
  intros Hlt. split.
  - intros (df & g' & Hrun).
    destruct numTicks as [|n]; [left; reflexivity|]. right.
    destruct numAgents as [|[|N]]; [| |lia].
    + rewrite run_zero_agents_raises in Hrun. discriminate.
    + rewrite run_single_agent_raises in Hrun. discriminate.
  - intros [->|HN].
    + unfold run, bind, seed, ret. simpl. eauto.
    + apply (run_returns Hlt). exact HN.
Qed.

End Population.

(** ** The experiment driver with any parameters *)

Section Driver.
Context {G : Type} `{RandomGen G}.

Lemma for_each_returns {S A : Type} (l : list A) (body : S -> A -> M G S) :
  (forall s a g0, exists s' g1, body s a g0 = Ok (s', g1)) ->
  forall s g0, exists s' g1, for_each l body s g0 = Ok (s', g1).
Proof.
  intros Hbody. induction l as [|a l IH]; intros s g0; simpl.
  - unfold ret. eauto.
  - unfold bind. destruct (Hbody s a g0) as (s1 & g1 & ->). apply IH.
Qed.

Lemma for_each_invariant {S A : Type} (Inv : S -> Prop) (l : list A)
    (body : S -> A -> M G S) :
  (forall s a g0 s' g1, Inv s -> body s a g0 = Ok (s', g1) -> Inv s') ->
  forall s g0 s' g1, Inv s -> for_each l body s g0 = Ok (s', g1) -> Inv s'.
Proof.
  intros Hbody. induction l as [|a l IH]; intros s g0 s' g1 Hs Hrun; simpl in Hrun.
  - unfold ret in Hrun. injection Hrun as <- <-. exact Hs.
  - apply bind_Ok in Hrun as (s1 & g2 & Hb & Hrun).
    apply (IH s1 g2 s' g1); [|exact Hrun]. apply (Hbody s a g0 s1 g2 Hs Hb).
Qed.

(** X14.  The driver stands or falls with its base run: for any parameters,
    once the base run has returned, every counterfactual run returns,
    those under the intervention included, and so does the driver. *)
Theorem main_with_returns numAgents initInfected percInfect percRecover numTicks0
    (g : G) orig g0 :
  run numAgents initInfected percInfect percRecover (numTicks0 * numAgents)
      "tr_base" None g = Ok (orig, g0) ->
  exists rel g1,
    main_with numAgents initInfected percInfect percRecover numTicks0 g = Ok (rel, g1).
Proof.
  intros Hbase.
  assert (Hsib : forall ii' name' iv' (gx : G),
            iv' = None \/ iv' = Some (mkIntervention orig) ->
            exists df g1, run numAgents ii' percInfect percRecover
                              (numTicks0 * numAgents) name' iv' gx = Ok (df, g1)).
  { intros ii' name' iv' gx Hiv'.
    destruct (sibling_run_returns numAgents initInfected percInfect percRecover
                (numTicks0 * numAgents) "tr_base" gx orig g0
                ii' percInfect percRecover name' iv' Hbase Hiv') as (df & Hdf).
    eauto. }
  unfold main_with. unfold bind at 1. rewrite Hbase.
  match goal with |- context [bind (for_each ?l ?body _) _] =>
    assert (Hret1 : forall s0 gx, exists s' gy, for_each l body s0 gx = Ok (s', gy))
  end.
  { apply for_each_returns. intros [rel tr] a gx. unfold bind, ret.
    destruct (Hsib (filter (fun b => a <> b) initInfected)
                   ("tr_simpleCF1_wo" +:+ pretty a) None gx) as (df & gy & ->);
      [left; reflexivity|]. eauto. }
  match goal with |- context [bind (for_each _ _ ?st) _] =>
    destruct (Hret1 st g0) as (st1 & g1 & H1)
  end.
  unfold bind at 1. rewrite H1.
  match goal with |- context [bind (for_each ?l ?body _) _] =>
    assert (Hret2 : forall s0 gx, exists s' gy, for_each l body s0 gx = Ok (s', gy))
  end.
  { apply for_each_returns. intros [rel tr] a gx. unfold bind, ret.
    destruct (Hsib (filter (fun b => a <> b) initInfected)
                   ("tr_simpleCF2_wo" +:+ pretty a) None gx) as (df & gy & ->);
      [left; reflexivity|]. eauto. }
  match goal with |- context [bind (for_each _ _ ?st) _] =>
    destruct (Hret2 st g1) as (st2 & g2 & H2)
  end.
  unfold bind at 1. rewrite H2.
  match goal with |- context [bind (for_each ?l ?body _) _] =>
    assert (Hret3 : forall s0 gx, exists s' gy, for_each l body s0 gx = Ok (s', gy))
  end.
  { apply for_each_returns. intros [rel tr] a gx. unfold bind, ret.
    destruct (Hsib (filter (fun b => a <> b) initInfected)
                   ("tr_intervCF_wo" +:+ pretty a) (Some (mkIntervention orig)) gx)
      as (df & gy & ->); [right; reflexivity|]. eauto. }
  match goal with |- context [bind (for_each _ _ ?st) _] =>
    destruct (Hret3 st g2) as (st3 & g3 & H3)
  end.
  unfold bind at 1. rewrite H3. destruct st3. unfold ret. eauto.
Qed.

(** X15.  For any parameters, every relation the driver reports, under
    any of its experiment names, lies within the set of agents infected at
    the final tick of the base run. *)
Theorem main_with_reports_subsets numAgents initInfected percInfect percRecover
    numTicks0 (g : G) rel g1 name rl :
  main_with numAgents initInfected percInfect percRecover numTicks0 g = Ok (rel, g1) ->
  rel !! name = Some rl ->
  exists orig g0,
    run numAgents initInfected percInfect percRecover (numTicks0 * numAgents)
        "tr_base" None g = Ok (orig, g0) /\
    rl ⊆ list_to_set (infected_in_final orig (numTicks0 * numAgents)).
Proof.
  unfold main_with. intros Hmain Hl.
  apply bind_Ok in Hmain as (orig & g0 & Horig & Hmain).
  exists orig, g0. split; [exact Horig|].
  set (S0 := infected_in_final orig (numTicks0 * numAgents)) in *.
  set (Inv := fun st : gmap string (gset nat) * list Row =>
                forall nm r, st.1 !! nm = Some r -> r ⊆ list_to_set S0).
  assert (Hins : forall (rel0 : gmap string (gset nat)) nm other tr,
            Inv (rel0, tr) -> forall tr', Inv (<[nm := causal_diff S0 other]> rel0, tr')).
  { intros rel0 nm other tr Hinv tr' nm' r Hr. simpl in Hr.
    apply lookup_insert_Some in Hr as [[_ <-]|[_ Hr]].
    - apply causal_diff_subset.
    - apply (Hinv nm' r). exact Hr. }
  apply bind_Ok in Hmain as (st1 & g2 & H1 & Hmain).
  apply bind_Ok in Hmain as (st2 & g3 & H2 & Hmain).
  apply bind_Ok in Hmain as (st3 & g4 & H3 & Hmain).
  unfold ret in Hmain. injection Hmain as <- <-.
  assert (I0 : Inv (∅, [])).
  { intros nm r Hr. simpl in Hr. rewrite lookup_empty in Hr. discriminate. }
  assert (I1 : Inv st1).
  { refine (for_each_invariant Inv _ _ _ _ _ _ _ I0 H1).
    intros [rel0 tr] a gx s' gy Hs Hb.
    apply bind_Ok in Hb as (tr' & gz & _ & Hb). unfold ret in Hb.
    injection Hb as <- <-. eapply Hins. exact Hs. }
  assert (I2 : Inv st2).
  { refine (for_each_invariant Inv _ _ _ _ _ _ _ I1 H2).
    intros [rel0 tr] a gx s' gy Hs Hb.
    apply bind_Ok in Hb as (tr' & gz & _ & Hb). unfold ret in Hb.
    injection Hb as <- <-. eapply Hins. exact Hs. }
  assert (I3 : Inv st3).
  { refine (for_each_invariant Inv _ _ _ _ _ _ _ I2 H3).
    intros [rel0 tr] a gx s' gy Hs Hb.
    apply bind_Ok in Hb as (tr' & gz & _ & Hb). unfold ret in Hb.
    injection Hb as <- <-. eapply Hins. exact Hs. }
  apply (I3 name rl Hl).
Qed.

End Driver.

(** ** [server.py]: the portrayal of the network *)

Lemma rbind_Ok {A B : Type} (r : result A) (k : A -> result B) b :
  rbind r k = Ok b -> exists a, r = Ok a /\ k a = Ok b.
Proof. destruct r as [a|e]; simpl; [eauto|discriminate]. Qed.

Lemma comprehension_Ok {A B : Type} (f : A -> result B) (h : A -> B) l :
  (forall x, x ∈ l -> f x = Ok (h x)) -> comprehension f l = Ok (map h l).
Proof.
  induction l as [|x l IH]; intros Hf; [reflexivity|]. simpl.
  rewrite (Hf x) by left. simpl. rewrite IH; [reflexivity|].
  intros y Hy. apply Hf. right. exact Hy.
Qed.

Lemma comprehension_Raise {A B : Type} (f : A -> result B) l e :
  comprehension f l = Raise e -> exists x, x ∈ l /\ f x = Raise e.
Proof.
  induction l as [|x l IH]; simpl; [discriminate|].
  destruct (f x) as [y|e'] eqn:Hx; simpl.
  - destruct (comprehension f l) as [ys|e'']; simpl; [discriminate|].
    intros Heq. destruct IH as (x' & Hin & Hx'); [exact Heq|].
    exists x'. split; [right; exact Hin|exact Hx'].
  - intros Heq. exists x. split; [left|]. congruence.
Qed.

Lemma comprehension_raises {A B : Type} (f : A -> result B) l e x :
  (forall y, y ∈ l -> f y = Raise e \/ exists b, f y = Ok b) ->
  x ∈ l -> f x = Raise e -> comprehension f l = Raise e.
Proof.
  induction l as [|y l IH]; intros Hall Hin Hx; [inversion Hin|]. simpl.
  destruct (Hall y) as [Hy|[b Hy]]; [left| |]; rewrite Hy; simpl; [reflexivity|].
  assert (Hl : comprehension f l = Raise e).
  { apply IH; [intros z Hz; apply Hall; right; exact Hz| |exact Hx].
    apply elem_of_cons in Hin as [->|Hin]; [congruence|exact Hin]. }
  rewrite Hl. reflexivity.
Qed.

Lemma node_agents_Ok G n ags :
  node_agents G n = Ok ags -> (n, ags) ∈ g_nodes G.
Proof.
  unfold node_agents.
  destruct (find _ (g_nodes G)) as [[n' ags']|] eqn:Hfind; [|discriminate].
  intros Heq. injection Heq as ->.
  apply find_some in Hfind as [Hin Hn]. apply bool_decide_eq_true in Hn.
  simpl in Hn. subst n'. apply list_elem_of_In. exact Hin.
Qed.

Lemma node_agents_exn G n e : node_agents G n = Raise e -> e = KeyError.
Proof.
  unfold node_agents. destruct (find _ (g_nodes G)) as [[n' ags']|]; congruence.
Qed.

Lemma first_agent_Raise ags e : first_agent ags = Raise e -> ags = [] /\ e = IndexError.
Proof. destruct ags; simpl; [|discriminate]. intros Heq. split; congruence. Qed.

Lemma node_first_IndexError G n :
  rbind (node_agents G n) first_agent = Raise IndexError ->
  exists n', (n', []) ∈ g_nodes G.
Proof.
  destruct (node_agents G n) as [ags|e] eqn:Hn; simpl.
  - intros Hf. apply first_agent_Raise in Hf as [-> _].
    exists n. apply node_agents_Ok. exact Hn.
  - intros Heq. apply node_agents_exn in Hn. congruence.
Qed.

Lemma get_agents_IndexError G s t :
  get_agents G s t = Raise IndexError -> exists n, (n, []) ∈ g_nodes G.
Proof.
  unfold get_agents.
  destruct (rbind (node_agents G s) first_agent) as [a1|e1] eqn:H1; simpl.
  - destruct (rbind (node_agents G t) first_agent) as [a2|e2] eqn:H2; simpl;
      [discriminate|].
    intros Heq. apply (node_first_IndexError G t). congruence.
  - intros Heq. apply (node_first_IndexError G s). congruence.
Qed.

(** X17.  The comment in [network_portrayal] relies on the model keeping one
    agent on every node.  On any graph whose nodes carry their list of
    agents, the function raises [IndexError] exactly when some node holds no
    agent: the nodes are portrayed first, and no later step can raise that
    error on a graph whose nodes all hold an agent. *)
Theorem network_portrayal_IndexError G :
  network_portrayal G = Raise IndexError <-> exists n, (n, []) ∈ g_nodes G.
Proof.
  unfold network_portrayal. split.
  - destruct (comprehension _ (g_nodes G)) as [nodes|e] eqn:Hnodes; simpl.
    + destruct (comprehension _ (g_edges G)) as [edges|e] eqn:Hedges; simpl;
        [discriminate|].
      intros Heq. injection Heq as ->.
      apply comprehension_Raise in Hedges as ([s t] & _ & Hst).
      destruct (get_agents G s t) as [[c1 c2]|e] eqn:Hg; simpl in Hst;
        [discriminate|].
      apply (get_agents_IndexError G s t). congruence.
    + intros Heq. injection Heq as ->.
      apply comprehension_Raise in Hnodes as ([n ags] & Hin & Hn).
      destruct ags as [|a ags]; [|discriminate]. exists n. exact Hin.
  - intros [n Hn].
    rewrite (comprehension_raises _ (g_nodes G) IndexError (n, [])); [reflexivity| |exact Hn|reflexivity].
    intros [n' ags] _. destruct ags as [|a ags]; simpl; eauto.
Qed.

Lemma find_node_seq (F : nat -> list DiseaseAgent) n : forall k a,
  a <= n < a + k ->
  find (fun na : nat * list DiseaseAgent => bool_decide (na.1 = n))
       (map (fun i => (i, F i)) (seq a k)) = Some (n, F n).
Proof.
  induction k as [|k IH]; intros a Hn; [lia|]. simpl.
  case_bool_decide as Ha.
  - subst a. reflexivity.
  - apply IH. lia.
Qed.

Lemma model_graph_nodes m :
  wf m ->
  g_nodes (model_graph m)
  = map (fun i => (i, [agents m !!! i])) (seq 0 (num_agents m)).
Proof.
  intros Hwf. unfold model_graph. simpl. apply map_ext_in.
  intros i Hi. apply in_seq in Hi.
  rewrite (cell_contents_wf m i Hwf) by lia. reflexivity.
Qed.

Lemma model_graph_edges m s t :
  (s, t) ∈ g_edges (model_graph m) <-> s < t < num_agents m.
Proof.
  unfold model_graph. simpl. rewrite list_elem_of_In, in_flat_map. split.
  - intros (i & Hi & Hst). apply in_map_iff in Hst as (j & Heq & Hj).
    injection Heq as -> ->. apply in_seq in Hi, Hj. lia.
  - intros Hst. exists s. split; [apply in_seq; lia|].
    apply in_map_iff. exists t. split; [reflexivity|apply in_seq; lia].
Qed.

Lemma model_graph_get_agents m s t :
  wf m -> s < num_agents m -> t < num_agents m ->
  get_agents (model_graph m) s t = Ok (agents m !!! s, agents m !!! t).
Proof.
  intros Hwf Hs Ht. unfold get_agents, node_agents.
  rewrite (model_graph_nodes m Hwf).
  rewrite !(find_node_seq (fun i => [agents m !!! i])) by lia.
  reflexivity.
Qed.

Lemma NoDup_flat_map_pairs (f : nat -> list nat) (l : list nat) :
  NoDup l -> (forall i, NoDup (f i)) ->
  NoDup (flat_map (fun i => map (fun j => (i, j)) (f i)) l).
Proof.
  intros Hl Hf. induction Hl as [|a l Ha Hl IH]; [constructor|].
  cbn [flat_map]. apply NoDup_app. split; [|split; [|exact IH]].
  - induction (Hf a) as [|j k Hj Hk IHk]; [constructor|]. cbn [map].
    constructor; [|exact IHk].
    intros Hin. apply list_elem_of_In, in_map_iff in Hin as (j' & Heq & Hin).
    injection Heq as ->. apply Hj. apply list_elem_of_In. exact Hin.
  - intros [i j] Hin Hin'.
    apply list_elem_of_In, in_map_iff in Hin as (j' & Heq & _). injection Heq as <- _.
    apply list_elem_of_In, in_flat_map in Hin' as (i' & Hi' & Hin').
    apply in_map_iff in Hin' as (j'' & Heq & _). injection Heq as -> _.
    apply Ha. apply list_elem_of_In. exact Hi'.
Qed.

Lemma complete_graph_size (N : nat) : forall k a,
  a + k = N ->
  2 * length (flat_map (fun i => map (fun j => (i, j)) (seq (S i) (N - S i)))
                       (seq a k))
  = k * (k - 1).
Proof.
  induction k as [|k IH]; intros a Hak; [reflexivity|].
  cbn [seq flat_map]. rewrite length_app, length_map, length_seq.
  specialize (IH (S a) ltac:(lia)).
  replace (N - S a) with k by lia.
  destruct k as [|k]; [simpl in *; lia|].
  replace (S (S k) * (S (S k) - 1)) with (2 * S k + S k * (S k - 1)) by (simpl; nia).
  lia.
Qed.

(** X16.  On the graph of a well-formed model, and so of every model the
    constructor builds and every tick leaves behind, [network_portrayal]
    returns.  It draws one node per agent, in the order of the ids, red
    exactly when the agent is infected and green exactly when it is healthy,
    and exactly one edge for every pair of distinct agents, [N (N - 1) / 2]
    in all and no pair twice, each grey and of width 2. *)
Theorem network_portrayal_model m :
  wf m ->
  exists p, network_portrayal (model_graph m) = Ok p /\
    length (p_nodes p) = num_agents m /\
    (forall i a, agents m !! i = Some a ->
       exists np, p_nodes p !! i = Some np /\ np_size np = 6 /\
         (np_color np = "#FF0000" <-> state a = INFECTED) /\
         (np_color np = "#008000" <-> state a = HEALTHY)) /\
    (forall s t, (exists e, e ∈ p_edges p /\ ep_source e = s /\ ep_target e = t)
                 <-> s < t < num_agents m) /\
    (forall e, e ∈ p_edges p -> ep_color e = "#e8e8e8" /\ ep_width e = 2) /\
    NoDup (map (fun e => (ep_source e, ep_target e)) (p_edges p)) /\
    2 * length (p_edges p) = num_agents m * (num_agents m - 1).
Proof.
  intros Hwf.
  set (hn := fun na : nat * list DiseaseAgent =>
               let a0 := agents m !!! na.1 in
               mkNodePortrayal 6 (node_color a0)
                 ("id: " +:+ pretty (unique_id a0) +:+ "<br>state: "
                  +:+ State_name (state a0))).
  set (he := fun st : nat * nat => mkEdgePortrayal st.1 st.2 "#e8e8e8" 2).
  exists (mkPortrayal (map hn (g_nodes (model_graph m)))
                      (map he (g_edges (model_graph m)))).
  split; [|split; [|split; [|split; [|split; [|split]]]]].
  - unfold network_portrayal.
    rewrite (comprehension_Ok _ hn).
    2:{ intros [n ags] Hin. rewrite (model_graph_nodes m Hwf) in Hin.
        apply list_elem_of_In, in_map_iff in Hin as (i & Heq & _).
        injection Heq as <- <-. reflexivity. }
    simpl rbind at 1.
    rewrite (comprehension_Ok _ he); [reflexivity|].
    intros [s t] Hin. apply model_graph_edges in Hin.
    rewrite (model_graph_get_agents m s t Hwf) by lia. reflexivity.
  - cbn [p_nodes]. rewrite (model_graph_nodes m Hwf), !length_map, length_seq. reflexivity.
  - intros i a Ha. cbn [p_nodes].
    assert (Hi : i < num_agents m).
    { destruct Hwf as [<- _]. apply (lookup_lt_Some _ _ _ Ha). }
    exists (hn (i, [a])). split; [|split; [reflexivity|]].
    + rewrite (model_graph_nodes m Hwf), map_map.
      change (map ?f ?l) with (f <$> l). rewrite list_lookup_fmap.
      rewrite lookup_seq_lt by exact Hi. unfold hn. simpl.
      rewrite (list_lookup_total_correct _ _ _ Ha). reflexivity.
    + unfold hn. simpl. rewrite (list_lookup_total_correct _ _ _ Ha).
      unfold node_color. destruct (state a); split; split; congruence.
  - intros s t. cbn [p_edges]. rewrite <- model_graph_edges. split.
    + intros (e & He & <- & <-).
      apply list_elem_of_In, in_map_iff in He as ([s t] & <- & Hin).
      apply list_elem_of_In. exact Hin.
    + intros Hin. exists (he (s, t)). split; [|split; reflexivity].
      apply list_elem_of_In, in_map_iff. exists (s, t).
      split; [reflexivity|]. apply list_elem_of_In. exact Hin.
  - intros e He. cbn [p_edges] in He.
    apply list_elem_of_In, in_map_iff in He as (st & <- & _). split; reflexivity.
  - cbn [p_edges]. rewrite map_map.
    rewrite (map_ext _ (fun st => st)) by (intros [s t]; reflexivity).
    rewrite map_id. unfold model_graph. cbn [g_edges].
    apply (NoDup_flat_map_pairs (fun i => seq (S i) (num_agents m - S i))).
    + apply NoDup_seq.
    + intros i. apply NoDup_seq.
  - cbn [p_edges]. rewrite length_map. unfold model_graph. cbn [g_edges].
    apply (complete_graph_size (num_agents m) (num_agents m) 0). reflexivity.
Qed.

(** ** The number of infected agents *)

Lemma infected_count_cons a l :
  infected_count (a :: l) = infected_count [a] + infected_count l.
Proof.
  unfold infected_count. rewrite !filter_cons, filter_nil.
  destruct (decide (state a = INFECTED)); reflexivity.
Qed.

Lemma infected_count_one a :
  (state a = INFECTED -> infected_count [a] = 1) /\
  (state a = HEALTHY -> infected_count [a] = 0).
Proof.
  unfold infected_count. rewrite filter_cons, filter_nil.
  destruct (decide (state a = INFECTED)) as [Hs|Hs]; split; intros Hs';
    try reflexivity; congruence.
Qed.

Lemma infected_count_alter f l : forall i a,
  l !! i = Some a ->
  infected_count (alter f i l) + infected_count [a]
  = infected_count l + infected_count [f a].
Proof.
  induction l as [|x l IH]; intros i a Ha; [discriminate|].
  destruct i as [|i]; simpl in Ha.
  - injection Ha as ->. change (alter f 0 (a :: l)) with (f a :: l).
    rewrite (infected_count_cons (f a) l), (infected_count_cons a l). lia.
  - change (alter f (S i) (x :: l)) with (x :: alter f i l).
    rewrite (infected_count_cons x (alter f i l)), (infected_count_cons x l).
    specialize (IH i a Ha). lia.
Qed.

Lemma infected_count_map f l :
  (forall a, state (f a) = state a) ->
  infected_count (map f l) = infected_count l.
Proof.
  intros Hf. induction l as [|x l IH]; [reflexivity|]. simpl.
  rewrite (infected_count_cons (f x) (map f l)), (infected_count_cons x l), IH. f_equal.
  destruct (state x) eqn:Hx.
  - rewrite (proj2 (infected_count_one x) Hx).
    apply infected_count_one. rewrite Hf. exact Hx.
  - rewrite (proj1 (infected_count_one x) Hx).
    apply infected_count_one. rewrite Hf. exact Hx.
Qed.

Lemma map_apply_agent_one iv tick l nb :
  (forall i a, l !! i = Some a -> i <> nb -> event a <> INFECT) ->
  map (apply_agent iv tick) l = l \/
  (exists a, l !! nb = Some a /\ event a = INFECT /\
             map (apply_agent iv tick) l = alter recover_agent nb l).
Proof.
  intros Hev.
  destruct (l !! nb) as [a|] eqn:Hnb.
  - destruct (bool_decide (event a = INFECT
                           /\ df_Event (trace iv) (tick, unique_id a) <> Some INFECT))
      eqn:Hcond.
    + right. exists a.
      assert (Hact : event a = INFECT /\ apply_agent iv tick a = recover_agent a).
      { unfold apply_agent. rewrite Hcond. apply bool_decide_eq_true in Hcond.
        split; [apply Hcond|reflexivity]. }
      destruct Hact as [Hinf Hact]. split; [reflexivity|split; [exact Hinf|]].
      apply list_eq. intros i.
      change (map ?f ?l) with (f <$> l). rewrite list_lookup_fmap.
      destruct (decide (i = nb)) as [->|Hne].
      * rewrite list_lookup_alter_eq, Hnb. simpl. f_equal. exact Hact.
      * rewrite list_lookup_alter_ne by congruence.
        destruct (l !! i) as [b|] eqn:Hi; [|reflexivity]. simpl. f_equal.
        apply apply_agent_quiet. apply (Hev i b Hi Hne).
    + assert (Hsame : apply_agent iv tick a = a)
        by (unfold apply_agent; rewrite Hcond; reflexivity).
      left. apply list_eq. intros i.
      change (map ?f ?l) with (f <$> l). rewrite list_lookup_fmap.
      destruct (l !! i) as [b|] eqn:Hi; [|reflexivity]. simpl. f_equal.
      destruct (decide (i = nb)) as [->|Hne]; [congruence|].
      apply apply_agent_quiet. apply (Hev i b Hi Hne).
  - left. apply list_eq. intros i.
    change (map ?f ?l) with (f <$> l). rewrite list_lookup_fmap.
    destruct (l !! i) as [b|] eqn:Hi; [|reflexivity]. simpl. f_equal.
    apply apply_agent_quiet. apply (Hev i b Hi). intros ->. congruence.
Qed.

Lemma tick_outcome_count iv tick self nb bi br ags a_self a_nb :
  ags !! self = Some a_self -> ags !! nb = Some a_nb -> nb <> self ->
  (bi = true -> state a_self = INFECTED /\ state a_nb = HEALTHY) ->
  (br = true -> state a_self = INFECTED) ->
  infected_count (tick_outcome iv tick self nb bi br ags) <= infected_count ags + 1 /\
  infected_count ags <= infected_count (tick_outcome iv tick self nb bi br ags) + 1.
Proof.
  intros Hself Hnb Hne Hbi Hbr.
  set (acted := tick_outcome None tick self nb bi br ags).
  assert (Hacted : infected_count acted + (if br then 1 else 0)
                   = infected_count ags + (if bi then 1 else 0)
                   /\ (bi = true -> exists x, acted !! nb = Some x /\ state x = INFECTED)).
  { unfold acted, tick_outcome.
    set (l0 := map reset_agent ags).
    assert (H0 : infected_count l0 = infected_count ags)
      by (apply infected_count_map; reflexivity).
    assert (H0s : l0 !! self = Some (reset_agent a_self)).
    { unfold l0. change (map ?f ?l) with (f <$> l).
      rewrite list_lookup_fmap, Hself. reflexivity. }
    assert (H0n : l0 !! nb = Some (reset_agent a_nb)).
    { unfold l0. change (map ?f ?l) with (f <$> l).
      rewrite list_lookup_fmap, Hnb. reflexivity. }
    set (l1 := (if bi then alter (infect_agent (Z.of_nat self)) nb else id) l0).
    assert (H1 : infected_count l1 = infected_count l0 + (if bi then 1 else 0)
                 /\ l1 !! self = Some (reset_agent a_self)
                 /\ (bi = true -> exists x, l1 !! nb = Some x /\ state x = INFECTED)).
    { unfold l1. destruct bi.
      - destruct (Hbi eq_refl) as [_ Hh].
        pose proof (infected_count_alter (infect_agent (Z.of_nat self)) l0 nb _ H0n) as Hc.
        rewrite (proj2 (infected_count_one (reset_agent a_nb)) Hh) in Hc.
        rewrite (proj1 (infected_count_one (infect_agent (Z.of_nat self) (reset_agent a_nb)))
                   eq_refl) in Hc.
        split; [lia|]. split.
        + rewrite list_lookup_alter_ne by congruence. exact H0s.
        + intros _. eexists. rewrite list_lookup_alter_eq, H0n. simpl.
          split; reflexivity.
      - simpl. split; [lia|]. split; [exact H0s|discriminate]. }
    destruct H1 as (H1c & H1s & H1n).
    destruct br.
    - pose proof (infected_count_alter recover_agent l1 self _ H1s) as Hc.
      rewrite (proj1 (infected_count_one (reset_agent a_self)) (Hbr eq_refl)) in Hc.
      rewrite (proj2 (infected_count_one (recover_agent (reset_agent a_self))) eq_refl)
        in Hc.
      split; [lia|]. intros Hb. destruct (H1n Hb) as (x & Hx & Hsx).
      exists x. split; [|exact Hsx].
      rewrite list_lookup_alter_ne by congruence. exact Hx.
    - simpl. split; [lia|exact H1n]. }
  destruct Hacted as [Hc Hn].
  destruct iv as [iv|].
  - change (tick_outcome (Some iv) tick self nb bi br ags)
      with (map (apply_agent iv tick) acted).
    destruct (map_apply_agent_one iv tick acted nb) as [->|(x & Hx & Hev & ->)].
    + intros i a' Ha' Hi.
      destruct (lookup_lt_is_Some_2 ags i) as [a Ha].
      { apply lookup_lt_Some in Ha'. unfold acted, tick_outcome in Ha'.
        destruct bi, br; simpl in Ha';
          rewrite ?length_alter, length_map in Ha'; exact Ha'. }
      destruct (tick_outcome_lookup None tick self nb bi br ags i a a' Hne Ha Ha')
        as [->|[(-> & _)|(-> & _)]]; [discriminate|contradiction|discriminate].
    + destruct bi, br; lia.
    + assert (Hb : bi = true).
      { destruct bi; [reflexivity|].
        destruct (tick_outcome_lookup None tick self nb false br ags nb a_nb x Hne Hnb Hx)
          as [->|[(_ & Hf & _)|(-> & _)]]; discriminate. }
      destruct (Hn Hb) as (x' & Hx' & Hsx). rewrite Hx in Hx'. injection Hx' as <-.
      pose proof (infected_count_alter recover_agent acted nb x Hx) as Hc'.
      rewrite (proj1 (infected_count_one x) Hsx) in Hc'.
      rewrite (proj2 (infected_count_one (recover_agent x)) eq_refl) in Hc'.
      subst bi. destruct br; lia.
  - fold acted. destruct bi, br; lia.
Qed.

Section Census.
Context {G : Type} `{RandomGen G}.

(** X18.  A tick changes the number of infected agents by at most one, in
    either direction, with or without an intervention. *)
Theorem tick_changes_count_by_one m (g : G) m' g' :
  wf m -> DiseaseModel_step m g = Ok (m', g') ->
  infected_count (agents m') <= infected_count (agents m) + 1 /\
  infected_count (agents m) <= infected_count (agents m') + 1.
Proof.
  intros Hwf Hstep.
  destruct (DiseaseModel_step_outcome m g m' g' Hwf Hstep)
    as (self & g0 & nb & a_self & a_nb & bi & br & _ & Hself & Hnb & Hne & Hbi & Hbr
        & _ & -> & _).
  apply (tick_outcome_count _ _ self nb bi br (agents m) a_self a_nb); assumption.
Qed.

End Census.

(** * Concrete runs of the further properties *)

Lemma Intervention_apply_idempotent_witness :
  let iv := mkIntervention baseline_quiet in
  let m' := mkModel 2 [0%Z] (1 # 2) (1 # 20) (Some iv) 1 1
              [mkAgent 0 0 INFECTED NOTHING NO_CAUSE;
               mkAgent 1 1 HEALTHY RECOVER NO_CAUSE] [] in
  Intervention_apply iv m' = Ok m'.
Proof.
  apply (Intervention_apply_idempotent (mkIntervention baseline_quiet)
           (mkModel 2 [0%Z] (1 # 2) (1 # 20) (Some (mkIntervention baseline_quiet)) 1 1
              [mkAgent 0 0 INFECTED NOTHING NO_CAUSE;
               mkAgent 1 1 INFECTED INFECT 0] [])).
  - split; [reflexivity|]. intros [|[|i]] a Ha; simpl in Ha; try discriminate;
      injection Ha as <-; split; reflexivity.
  - vm_compute. reflexivity.
Defined.

Lemma healthy_activation_changes_nothing_witness :
  exists m',
    @DiseaseModel_step _ (script_gen []) (demo_model None) [1; 10; 99; 0] = Ok (m', []) /\
    agents m' = map reset_agent (agents (demo_model None)) /\
    steps m' = steps (demo_model None) + 1 /\
    datacollector m'
    = datacollector (demo_model None)
      ++ map (agent_record (Z.of_nat (steps (demo_model None))))
             (map reset_agent (agents (demo_model None))).
Proof.
  eapply (@healthy_activation_changes_nothing _ (script_gen [])
            (demo_model None) [1; 10; 99; 0] 1 [10; 99; 0]
            (mkAgent 1 1 HEALTHY NOTHING NO_CAUSE) _ []).
  - apply wf_init.
  - reflexivity.
  - reflexivity.
  - reflexivity.
  - vm_compute. reflexivity.
Defined.

Lemma run_without_seed_is_idle_witness :
  Forall (fun r => rState r = HEALTHY /\ rEvent r = NOTHING /\ rCause r = NO_CAUSE)
         [mkRow 0 0 HEALTHY NOTHING NO_CAUSE; mkRow 0 1 HEALTHY NOTHING NO_CAUSE].
Proof.
  apply Forall_forall.
  apply (@run_without_seed_is_idle _ (script_gen demo_script)
           2 [7; -3]%Z (1 # 2) (1 # 20) 1 "r" None [] _ []).
  - intros z Hz. apply elem_of_cons in Hz as [->|Hz]; [lia|].
    apply elem_of_cons in Hz as [->|Hz]; [lia|]. inversion Hz.
  - vm_compute. reflexivity.
Defined.

Lemma tick_draws_ignore_states_witness :
  (exists m2', @DiseaseModel_step _ (script_gen [])
                 (DiseaseModel_init 2 [] (1 # 4) (3 # 4) None) demo_script
               = Ok (m2', [])) \/
  (intervention (DiseaseModel_init 2 [] (1 # 4) (3 # 4) None) <> None /\
   @DiseaseModel_step _ (script_gen [])
     (DiseaseModel_init 2 [] (1 # 4) (3 # 4) None) demo_script
   = Raise KeyError).
Proof.
  apply (@tick_draws_ignore_states _ (script_gen [])
           (demo_model None) (DiseaseModel_init 2 [] (1 # 4) (3 # 4) None)
           demo_script demo_after []).
  - apply wf_init.
  - apply wf_init.
  - reflexivity.
  - vm_compute. reflexivity.
Defined.

Lemma tick_state_follows_event_witness :
  let a := mkAgent 1 1 HEALTHY NOTHING NO_CAUSE in
  let a' := mkAgent 1 1 INFECTED INFECT 0 in
  unique_id a' = unique_id a /\ pos a' = pos a /\
  state a = HEALTHY /\ state a' = INFECTED.
Proof.
  apply (@tick_state_follows_event _ (script_gen [])
           (demo_model None) demo_script demo_after [] 1
           (mkAgent 1 1 HEALTHY NOTHING NO_CAUSE) (mkAgent 1 1 INFECTED INFECT 0)).
  - apply wf_init.
  - vm_compute. reflexivity.
  - reflexivity.
  - reflexivity.
Defined.

Lemma one_infection_per_tick_witness :
  1 = 1 /\
  rCause (mkRow 0 1 INFECTED INFECT 0)
  <> Z.of_nat (AgentID (mkRow 0 1 INFECTED INFECT 0)).
Proof.
  apply (@one_infection_per_tick _ (script_gen [])
           (demo_model None) demo_script demo_after [] 1 1
           (mkRow 0 1 INFECTED INFECT 0) (mkRow 0 1 INFECTED INFECT 0)).
  - apply wf_init.
  - vm_compute. reflexivity.
  - reflexivity.
  - reflexivity.
  - reflexivity.
  - reflexivity.
Defined.

Lemma replay_own_trace_witness :
  @run _ (script_gen demo_script) 2 [0%Z] (1 # 2) (1 # 20) 1 "tr_replay"
       (Some (mkIntervention (datacollector demo_after))) []
  = Ok (datacollector demo_after, []).
Proof.
  apply (@replay_own_trace _ (script_gen demo_script)
           2 [0%Z] (1 # 2) (1 # 20) 1 "tr_base" "tr_replay" []).
  vm_compute. reflexivity.
Defined.

Lemma run_trace_is_a_table_witness :
  NoDup (map row_key (datacollector demo_after)) /\
  forall t i, is_Some (df_loc (datacollector demo_after) (t, i)) <->
              (0 <= t < Z.of_nat 1)%Z /\ i < 2.
Proof.
  apply (@run_trace_is_a_table _ (script_gen demo_script)
           2 [0%Z] (1 # 2) (1 # 20) 1 "tr_base" None [] (datacollector demo_after) []).
  vm_compute. reflexivity.
Defined.

Lemma counterfactual_run_returns_witness :
  exists df,
    @run _ (script_gen demo_script) 2 [] (1 # 4) (3 # 4) 1 "tr_intervCF_wo0"
         (Some (mkIntervention (datacollector demo_after))) []
    = Ok (df, []).
Proof.
  apply (@counterfactual_run_returns _ (script_gen demo_script)
           2 [0%Z] (1 # 2) (1 # 20) 1 "tr_base" [] (datacollector demo_after) []
           [] (1 # 4) (3 # 4) "tr_intervCF_wo0").
  vm_compute. reflexivity.
Defined.

Lemma run_returns_iff_population_witness :
  (exists df g', @run _ (script_gen demo_script) 1 [0%Z] (1 # 2) (1 # 20) 3 "r" None []
                 = Ok (df, g'))
  <-> 3 = 0 \/ 2 <= 1.
Proof.
  apply (@run_returns_iff_population _ (script_gen demo_script)
           1 [0%Z] (1 # 2) (1 # 20) 3 "r" []).
  intros n g0 Hn. simpl. apply Nat.mod_upper_bound. lia.
Defined.

Lemma infected_in_final_reads_final_state_witness :
  infected_in_final (datacollector demo_after) 1
  = map unique_id (filter (fun a => state a = INFECTED) (agents demo_after)).
Proof.
  apply (@infected_in_final_reads_final_state _ (script_gen demo_script)
           2 [0%Z] (1 # 2) (1 # 20) None 1 demo_script demo_after []).
  - vm_compute. reflexivity.
  - lia.
Defined.

Lemma main_with_returns_witness :
  exists rel g1,
    @main_with _ (script_gen demo_script) 2 [0%Z] (1 # 2) (1 # 20) 1 [] = Ok (rel, g1).
Proof.
  eapply (@main_with_returns _ (script_gen demo_script) 2 [0%Z] (1 # 2) (1 # 20) 1 []).
  vm_compute. reflexivity.
Defined.

Lemma main_with_reports_subsets_witness :
  exists rel g1 rl,
    @main_with _ (script_gen demo_script) 2 [0%Z] (1 # 2) (1 # 20) 1 [] = Ok (rel, g1) /\
    rel !! "tr_intervCF_wo0" = Some rl /\
    exists orig g0,
      @run _ (script_gen demo_script) 2 [0%Z] (1 # 2) (1 # 20) (1 * 2) "tr_base" None []
      = Ok (orig, g0) /\
      rl ⊆ list_to_set (infected_in_final orig (1 * 2)).
Proof.
  eexists. eexists. eexists.
  split; [vm_compute; reflexivity|].
  split; [vm_compute; reflexivity|].
  eapply (@main_with_reports_subsets _ (script_gen demo_script)
            2 [0%Z] (1 # 2) (1 # 20) 1 [] _ _ "tr_intervCF_wo0").
  - vm_compute. reflexivity.
  - vm_compute. reflexivity.
Defined.

Lemma network_portrayal_model_witness :
  exists p, network_portrayal (model_graph (demo_model None)) = Ok p /\
    length (p_nodes p) = num_agents (demo_model None) /\
    (forall i a, agents (demo_model None) !! i = Some a ->
       exists np, p_nodes p !! i = Some np /\ np_size np = 6 /\
         (np_color np = "#FF0000" <-> state a = INFECTED) /\
         (np_color np = "#008000" <-> state a = HEALTHY)) /\
    (forall s t, (exists e, e ∈ p_edges p /\ ep_source e = s /\ ep_target e = t)
                 <-> s < t < num_agents (demo_model None)) /\
    (forall e, e ∈ p_edges p -> ep_color e = "#e8e8e8" /\ ep_width e = 2) /\
    NoDup (map (fun e => (ep_source e, ep_target e)) (p_edges p)) /\
    2 * length (p_edges p) = num_agents (demo_model None) * (num_agents (demo_model None) - 1).
Proof. apply (network_portrayal_model (demo_model None)). apply wf_init. Defined.

Lemma tick_changes_count_by_one_witness :
  infected_count (agents demo_after) <= infected_count (agents (demo_model None)) + 1 /\
  infected_count (agents (demo_model None)) <= infected_count (agents demo_after) + 1.
Proof.
  apply (@tick_changes_count_by_one _ (script_gen [])
           (demo_model None) demo_script demo_after []).
  - apply wf_init.
  - vm_compute. reflexivity.
Defined.

(** * Determinism *)

Section Determinism.
Context {G1 G2 : Type} {H1 : RandomGen G1} {H2 : RandomGen G2}.
Variable R : G1 -> G2 -> Prop.
Hypothesis R_seed : R (rng_seed 1) (rng_seed 1).
Hypothesis R_random : forall g1 g2, R g1 g2 ->
  (rng_random g1).1 = (rng_random g2).1 /\ R (rng_random g1).2 (rng_random g2).2.
Hypothesis R_randbelow : forall n g1 g2, R g1 g2 ->
  (rng_randbelow n g1).1 = (rng_randbelow n g2).1 /\
  R (rng_randbelow n g1).2 (rng_randbelow n g2).2.

Lemma agree_bind {A B : Type} (c1 : M G1 A) (c2 : M G2 A)
    (k1 : A -> M G1 B) (k2 : A -> M G2 B) g1 g2 :
  agree R (c1 g1) (c2 g2) ->
  (forall a g1' g2', R g1' g2' -> agree R (k1 a g1') (k2 a g2')) ->
  agree R (bind c1 k1 g1) (bind c2 k2 g2).
Proof.
  unfold bind, agree at 1.
  destruct (c1 g1) as [[a1 g1']|e1], (c2 g2) as [[a2 g2']|e2]; try contradiction.
  - intros [-> HR] Hk. apply Hk. exact HR.
  - intros -> _. reflexivity.
Qed.

Lemma agree_ret {A : Type} (a : A) g1 g2 :
  R g1 g2 -> agree R (ret a g1) (ret a g2).
Proof. intros HR. split; [reflexivity|exact HR]. Qed.

Lemma agree_random g1 g2 : R g1 g2 -> agree R (random g1) (random g2).
Proof.
  intros HR. unfold random. destruct (R_random g1 g2 HR) as [Heq HR'].
  destruct (rng_random g1) as [q1 g1'], (rng_random g2) as [q2 g2'].
  simpl in *. split; assumption.
Qed.

Lemma agree_choice {A : Type} (sq : list A) g1 g2 :
  R g1 g2 -> agree R (choice sq g1) (choice sq g2).
Proof.
  intros HR. unfold choice. destruct sq as [|x sq]; [reflexivity|].
  destruct (R_randbelow (length (x :: sq)) g1 g2 HR) as [Heq HR'].
  destruct (rng_randbelow (length (x :: sq)) g1) as [i1 g1'],
           (rng_randbelow (length (x :: sq)) g2) as [i2 g2'].
  simpl in Heq, HR'. subst i2.
  destruct ((x :: sq) !! i1) as [y|]; [split; [reflexivity|exact HR']|reflexivity].
Qed.

Lemma agree_lift {A : Type} (r : result A) g1 g2 :
  R g1 g2 -> agree R (lift r g1) (lift r g2).
Proof. intros HR. destruct r as [a|e]; simpl; [split; [reflexivity|exact HR]|reflexivity]. Qed.

Lemma DiseaseAgent_step_agree self m g1 g2 :
  R g1 g2 -> agree R (DiseaseAgent_step self m g1) (DiseaseAgent_step self m g2).
Proof.
  intros HR. unfold DiseaseAgent_step.
  apply agree_bind; [apply agree_random; exact HR|]. intros rand_inf ga gb Hab.
  apply agree_bind; [apply agree_random; exact Hab|]. intros rand_rec gc gd Hcd.
  cbv zeta.
  apply agree_bind; [apply agree_choice; exact Hcd|]. intros nb ge gf Hef.
  apply agree_ret. exact Hef.
Qed.

Lemma RandomSingleActivation_step_agree m g1 g2 :
  R g1 g2 ->
  agree R (RandomSingleActivation_step m g1) (RandomSingleActivation_step m g2).
Proof.
  intros HR. unfold RandomSingleActivation_step.
  apply agree_bind; [apply agree_choice; exact HR|]. intros a ga gb Hab.
  apply agree_bind; [apply DiseaseAgent_step_agree; exact Hab|]. intros m1 gc gd Hcd.
  apply agree_ret. exact Hcd.
Qed.

Lemma DiseaseModel_step_agree m g1 g2 :
  R g1 g2 -> agree R (DiseaseModel_step m g1) (DiseaseModel_step m g2).
Proof.
  intros HR. unfold DiseaseModel_step. cbv zeta.
  apply agree_bind; [apply RandomSingleActivation_step_agree; exact HR|].
  intros m1 ga gb Hab.
  apply agree_bind.
  - destruct (intervention m1) as [iv|]; [apply agree_lift|apply agree_ret]; exact Hab.
  - intros m2 gc gd Hcd. apply agree_ret. exact Hcd.
Qed.

Lemma run_loop_agree n : forall m g1 g2,
  R g1 g2 -> agree R (run_loop n m g1) (run_loop n m g2).
Proof.
  induction n as [|n IH]; intros m g1 g2 HR; cbn [run_loop].
  - apply agree_ret. exact HR.
  - apply agree_bind; [apply DiseaseModel_step_agree; exact HR|].
    intros m' ga gb Hab. apply IH. exact Hab.
Qed.

Lemma run_agree numAgents initInfected percInfect percRecover numTicks name1 name2
    intervention g1 g2 :
  agree R
    (run numAgents initInfected percInfect percRecover numTicks name1 intervention g1)
    (run numAgents initInfected percInfect percRecover numTicks name2 intervention g2).
Proof.
  unfold run.
  apply agree_bind; [split; [reflexivity|exact R_seed]|]. intros _ ga gb Hab.
  cbv zeta.
  apply agree_bind; [apply run_loop_agree; exact Hab|]. intros m' gc gd Hcd.
  apply agree_ret. exact Hcd.
Qed.

(** C8 (determinism).  The trace of a run is determined by its parameters
    and by the values the generator yields once it is seeded: for two
    generators that yield the same values from [random.seed(1)] on, in
    whatever states the two invocations find them, the runs raise the same
    exception or both return, and then with the same trace.  That trace has
    an entry at every tick below [numTicks] for every agent, and the two
    entries agree in state, event and cause.  The file name plays no
    part. *)
Theorem run_deterministic numAgents initInfected percInfect percRecover
    numTicks name1 name2 intervention (g1 : G1) (g2 : G2) :
  agree R
    (run numAgents initInfected percInfect percRecover numTicks name1 intervention g1)
    (run numAgents initInfected percInfect percRecover numTicks name2 intervention g2)
  /\
  forall df1 g1' df2 g2',
    run numAgents initInfected percInfect percRecover numTicks name1 intervention g1
    = Ok (df1, g1') ->
    run numAgents initInfected percInfect percRecover numTicks name2 intervention g2
    = Ok (df2, g2') ->
    df1 = df2 /\
    forall t i, (0 <= t < Z.of_nat numTicks)%Z -> i < numAgents ->
      exists r1 r2,
        df_loc df1 (t, i) = Some r1 /\ df_loc df2 (t, i) = Some r2 /\
        rState r1 = rState r2 /\ rEvent r1 = rEvent r2 /\ rCause r1 = rCause r2.
Proof.
  pose proof (run_agree numAgents initInfected percInfect percRecover numTicks
                name1 name2 intervention g1 g2) as Hag.
  split; [exact Hag|].
  intros df1 g1' df2 g2' Hrun1 Hrun2.
  rewrite Hrun1, Hrun2 in Hag. destruct Hag as [<- _].
  split; [reflexivity|]. intros t i Ht Hi.
  destruct (run_trace_table _ _ _ _ _ _ _ _ _ _ Hrun1) as [_ Htab].
  destruct (proj2 (Htab t i) (conj Ht Hi)) as [r Hr].
  exists r, r. repeat split; exact Hr || reflexivity.
Qed.

End Determinism.

Lemma run_deterministic_witness :
  let run1 := @run _ (script_gen demo_script) 2 [0%Z] (1 # 2) (1 # 20) 1 "tr_a" None [] in
  let run2 := @run _ (script_gen demo_script) 2 [0%Z] (1 # 2) (1 # 20) 1 "tr_b" None [7; 7] in
  agree eq run1 run2 /\
  forall df1 g1' df2 g2',
    run1 = Ok (df1, g1') -> run2 = Ok (df2, g2') ->
    df1 = df2 /\
    forall t i, (0 <= t < Z.of_nat 1)%Z -> i < 2 ->
      exists r1 r2,
        df_loc df1 (t, i) = Some r1 /\ df_loc df2 (t, i) = Some r2 /\
        rState r1 = rState r2 /\ rEvent r1 = rEvent r2 /\ rCause r1 = rCause r2.
Proof.
  apply (@run_deterministic _ _ (script_gen demo_script) (script_gen demo_script) eq).
  - reflexivity.
  - intros g1 g2 ->. split; reflexivity.
  - intros n g1 g2 ->. split; reflexivity.
Defined.

(** * The driver on Python's generator *)

Section DriverVariants.
Context {G : Type} `{RandomGen G}.


End DriverVariants.

